(** * CIE 4.0 admin dashboard: rankings and alert broadcast

    A shallow embedding of the pure logic of two React components,
    [components/Admin/RankingView.tsx] and the two versions of
    [EmitirAlertaView] (the staff-only one and the later one with group
    alerts and alert logs), with the properties their description states.

    Conventions of the embedding:
    - a JavaScript string is the list of its UTF-16 code units;
    - a JavaScript number that holds a count or a step is an integer ([Z]);
    - [undefined]/[null] are [None];
    - an object used as a dictionary ([Record<string, T>]) is the list of
      its own properties in creation order, enumerated as [Object.entries]
      does (array-index keys first, in ascending order), behind which stand
      the properties every object inherits from [Object.prototype]: a read
      finds them, and an assignment to [__proto__] is not an assignment;
    - a [useMemo] value is a function of its dependencies;
    - an event handler is a function on the component state; an [async]
      handler runs in a small monad over the outside world (network and
      log service). *)

From Stdlib Require Import ZArith NArith Bool String Ascii List Sorted
  Permutation Lia.
Import ListNotations.

(* ================================================================== *)
(** * JavaScript values *)
(* ================================================================== *)

Module Js.

(** A string, as the sequence of its UTF-16 code units. *)
Abbreviation jsstring := (list N).

(** A string literal of the source (ASCII only). *)
Definition lit (s : string) : jsstring :=
  map N_of_ascii (list_ascii_of_string s).

(** Truthiness of a string: every string but the empty one. *)
Definition truthy (s : jsstring) : bool :=
  match s with [] => false | _ :: _ => true end.

(** Truthiness of [string | undefined | null]. *)
Definition truthy_opt (o : option jsstring) : bool :=
  match o with Some s => truthy s | None => false end.

(** [a || b] on strings. *)
Definition or_else (a : option jsstring) (b : jsstring) : jsstring :=
  match a with
  | Some s => if truthy s then s else b
  | None => b
  end.

(** [n || 0] on [number | undefined]. *)
Definition or_zero (n : option Z) : Z :=
  match n with
  | Some v => if (v =? 0)%Z then 0%Z else v
  | None => 0%Z
  end.

(** [a === b] on strings. *)
Fixpoint str_eqb (a b : jsstring) : bool :=
  match a, b with
  | [], [] => true
  | c :: a', d :: b' => (c =? d)%N && str_eqb a' b'
  | _, _ => false
  end.

(** [s.startsWith(p)] *)
Fixpoint startsWith (s p : jsstring) {struct p} : bool :=
  match p, s with
  | [], _ => true
  | _ :: _, [] => false
  | c :: p', d :: s' => (c =? d)%N && startsWith s' p'
  end.

(** [s.endsWith(p)] *)
Definition endsWith (s p : jsstring) : bool :=
  startsWith (rev s) (rev p).

(** The code points [String.prototype.trim] strips: WhiteSpace (TAB, VT,
    FF, ZWNBSP and the Unicode space separators) and LineTerminator (LF,
    CR, LS, PS). All of them are single code units. *)
Definition isWhiteSpace (c : N) : bool :=
  ((9 <=? c) && (c <=? 13) || (c =? 32) || (c =? 160) || (c =? 5760)
   || (8192 <=? c) && (c <=? 8202) || (c =? 8232) || (c =? 8233)
   || (c =? 8239) || (c =? 8287) || (c =? 12288) || (c =? 65279))%N.

Fixpoint trimStart (s : jsstring) : jsstring :=
  match s with
  | [] => []
  | c :: s' => if isWhiteSpace c then trimStart s' else s
  end.

Definition trimEnd (s : jsstring) : jsstring := rev (trimStart (rev s)).

(** [s.trim()] *)
Definition trim (s : jsstring) : jsstring := trimEnd (trimStart s).

(** ** Stable sort with a comparator, [Array.prototype.sort(cmp)].

    [cmp a b < 0] places [a] before [b]; elements that compare equal keep
    their order. *)
Section Sort.
Context {A : Type} (cmp : A -> A -> Z).

Fixpoint insert_sorted (x : A) (l : list A) : list A :=
  match l with
  | [] => [x]
  | y :: l' =>
      if (0 <? cmp x y)%Z then y :: insert_sorted x l'
      else x :: y :: l'
  end.

Fixpoint sort (l : list A) : list A :=
  match l with
  | [] => []
  | x :: l' => insert_sorted x (sort l')
  end.
End Sort.

(** ** Objects used as dictionaries

    An object made by [{}] has its own properties and, behind them, those
    of [Object.prototype]. [Obj V] is the list of the own string-keyed
    properties, in creation order; [lookup] and [store] act on the own
    properties alone: storing under an existing key keeps its place, a new
    key goes last. The reads and assignments of the source ([get], [set]
    and [setObject] below) are built on them. *)
Section Obj.
Context {V : Type}.

Definition Obj := list (jsstring * V).

Definition empty : Obj := [].

(** The own property [k] of [o], if there is one. *)
Fixpoint lookup (o : Obj) (k : jsstring) : option V :=
  match o with
  | [] => None
  | (k', v) :: o' => if str_eqb k' k then Some v else lookup o' k
  end.

(** [o] with the own property [k] holding [v]. *)
Fixpoint store (o : Obj) (k : jsstring) (v : V) : Obj :=
  match o with
  | [] => [(k, v)]
  | (k', v') :: o' =>
      if str_eqb k' k then (k', v) :: o' else (k', v') :: store o' k v
  end.

(** The value of a decimal digit. *)
Definition digit (c : N) : option N :=
  if ((48 <=? c) && (c <=? 57))%N then Some (c - 48)%N else None.

Fixpoint parseDigits (acc : N) (s : jsstring) : option N :=
  match s with
  | [] => Some acc
  | c :: s' =>
      match digit c with
      | Some d => parseDigits (10 * acc + d)%N s'
      | None => None
      end
  end.

(** An array index is a canonical numeric string (no sign, no leading
    zero) below 2^32 - 1. Own keys that are array indices are enumerated
    first, in ascending numeric order. *)
Definition arrayIndex (k : jsstring) : option N :=
  match k with
  | [] => None
  | [48%N] => Some 0%N
  | 48%N :: _ => None
  | _ =>
      match parseDigits 0 k with
      | Some n => if (n <? 4294967295)%N then Some n else None
      | None => None
      end
  end.

Definition isIndexKey (kv : jsstring * V) : bool :=
  match arrayIndex (fst kv) with Some _ => true | None => false end.

Definition indexOf (kv : jsstring * V) : Z :=
  match arrayIndex (fst kv) with Some n => Z.of_N n | None => 0%Z end.

(** [Object.entries(o)], which is also the order of [for (k in o)]. *)
Definition entries (o : Obj) : list (jsstring * V) :=
  sort (fun a b => (indexOf a - indexOf b)%Z) (filter isIndexKey o)
  ++ filter (fun kv => negb (isIndexKey kv)) o.

(** [Object.values(o)] *)
Definition values (o : Obj) : list V := map snd (entries o).

End Obj.
Arguments Obj : clear implicits.

(** *** What every object inherits

    The properties of [Object.prototype]: the constructor, the methods,
    and the accessor [__proto__]. *)
Definition inheritedNames : list jsstring :=
  map lit [ "constructor"; "hasOwnProperty"; "isPrototypeOf";
            "propertyIsEnumerable"; "toLocaleString"; "toString"; "valueOf";
            "__defineGetter__"; "__defineSetter__"; "__lookupGetter__";
            "__lookupSetter__"; "__proto__" ]%string.

Definition isInherited (k : jsstring) : bool :=
  existsb (str_eqb k) inheritedNames.

Definition protoKey : jsstring := lit "__proto__".

(** What a read [o[k]] finds: an own property; else, under an inherited
    name, a value of [Object.prototype] (a function, or [Object.prototype]
    itself under [__proto__]); else [undefined]. *)
Inductive Read (V : Type) :=
| Own (v : V)
| Inherited (name : jsstring)
| Undefined.
Arguments Own {V} v.
Arguments Inherited {V} name.
Arguments Undefined {V}.

(** [o[k]] *)
Definition get {V} (o : Obj V) (k : jsstring) : Read V :=
  match lookup o k with
  | Some v => Own v
  | None => if isInherited k then Inherited k else Undefined
  end.

(** [o[k] = v] for a number or a string [v]. An own property is written;
    without one, [__proto__] reaches the setter of [Object.prototype],
    which ignores a value that is not an object, and any other key (an
    inherited name too) becomes a new own property. *)
Definition set {V} (o : Obj V) (k : jsstring) (v : V) : Obj V :=
  match lookup o k with
  | Some _ => store o k v
  | None => if str_eqb k protoKey then o else store o k v
  end.

(** [o[k] = v] for an object or an array [v]. Under [__proto__], without
    an own property of that name, the assignment replaces the prototype of
    [o] by [v]: [o] then inherits the properties of [v], which a list of
    own properties does not show, so the result is [None]. *)
Definition setObject {V} (o : Obj V) (k : jsstring) (v : V) : option (Obj V) :=
  match lookup o k with
  | Some _ => Some (store o k v)
  | None => if str_eqb k protoKey then None else Some (store o k v)
  end.

(** [f.name] of the value inherited under a name: a method is named after
    its key and the constructor is [Object]; [Object.prototype], read under
    [__proto__], has no [name]. *)
Definition inheritedFunctionName (name : jsstring) : option jsstring :=
  if str_eqb name protoKey then None
  else if str_eqb name (lit "constructor") then Some (lit "Object")
  else Some name.

(** [f.length] of the value inherited under a name, the number of
    parameters of the function; [Object.prototype] has no [length]. *)
Definition inheritedFunctionLength (name : jsstring) : option Z :=
  if str_eqb name protoKey then None
  else if existsb (str_eqb name)
            (map lit ["toLocaleString"; "toString"; "valueOf"]%string)
  then Some 0%Z
  else if existsb (str_eqb name)
            (map lit ["__defineGetter__"; "__defineSetter__"]%string)
  then Some 2%Z
  else Some 1%Z.

(** *** Counting in a dictionary

    The value of a property of a counting dictionary: a number, or, once
    an inherited value has been counted up, a string (the text of the
    inherited value followed by the digits added since; its characters are
    not kept). *)
Inductive Count :=
| Number (n : Z)
| Text.

(** [(acc[k] || 0) + 1]: a number counts up and [undefined] starts at 1;
    an inherited function or object is truthy and [+ 1] appends to its
    text, and so does every later [+ 1]. *)
Definition plusOne (r : Read Count) : Count :=
  match r with
  | Own (Number n) => Number (n + 1)
  | Own Text => Text
  | Inherited _ => Text
  | Undefined => Number 1
  end.

(** [acc[k] = (acc[k] || 0) + 1] *)
Definition countUp (acc : Obj Count) (k : jsstring) : Obj Count :=
  set acc k (plusOne (get acc k)).

(** The counts of a list of entries when all of them are numbers. With a
    string among them the items built from the entries do not all hold a
    number, a comparator [b - a] yields [NaN] on them and the order [sort]
    leaves is up to the engine: [None]. *)
Fixpoint numbers (es : list (jsstring * Count)) : option (list (jsstring * Z)) :=
  match es with
  | [] => Some []
  | (k, Number n) :: es' =>
      match numbers es' with
      | Some l => Some ((k, n) :: l)
      | None => None
      end
  | (_, Text) :: _ => None
  end.

(** ** [Map] and [Set] with string keys

    Both keep their elements in insertion order; [m.set(k, v)] replaces
    the value of a key that is present and [s.add(k)] leaves a set that
    has [k] as it is. *)
Definition JsMap (V : Type) := list (jsstring * V).

Definition map_get {V} (m : JsMap V) (k : jsstring) : option V := lookup m k.

Definition map_set {V} (m : JsMap V) (k : jsstring) (v : V) : JsMap V :=
  store m k v.

(** [new Map(pairs)] *)
Definition map_of {V} (pairs : list (jsstring * V)) : JsMap V :=
  fold_left (fun m kv => map_set m (fst kv) (snd kv)) pairs [].

Definition JsSet := list jsstring.

Definition set_has (s : JsSet) (k : jsstring) : bool := existsb (str_eqb k) s.

Definition set_add (s : JsSet) (k : jsstring) : JsSet :=
  if set_has s k then s else s ++ [k].

Definition set_delete (s : JsSet) (k : jsstring) : JsSet :=
  filter (fun k' => negb (str_eqb k k')) s.

Definition set_size (s : JsSet) : Z := Z.of_nat (length s).

End Js.

(* ================================================================== *)
(** * RankingView: the rankings *)
(* ================================================================== *)

Module Ranking.
Import Js.

(** ** Data *)

(** Modelled from the spec: the types [ReportSubmission],
    [ParticipantCompany], [Staff] and [StaffActivity] of [types.ts], which
    is not part of the sources; the records have the fields the components
    read. *)
Record ReportSubmission := {
  r_timestamp : jsstring;
  r_boothCode : jsstring;
  r_reportLabel : jsstring;
  r_response : jsstring;
  r_staffName : jsstring
}.

Record ParticipantCompany := {
  c_id : jsstring;
  c_boothCode : jsstring;
  c_name : jsstring;
  c_logoUrl : option jsstring
}.

Record Staff := {
  s_id : jsstring;
  s_name : jsstring;
  s_phone : option jsstring;
  s_departmentId : jsstring;
  s_photoUrl : option jsstring;
  s_role : option jsstring
}.

Record StaffActivity := {
  a_timestamp : jsstring
}.

(** [interface DetailedSale] with its two nullable parts. *)
Record SaleCompany := {
  sc_id : jsstring;
  sc_name : jsstring;
  sc_logoUrl : option jsstring
}.

Record SaleCollaborator := {
  sl_id : jsstring;
  sl_name : jsstring;
  sl_photoUrl : option jsstring;
  sl_collaboratorCode : jsstring
}.

Record DetailedSale := {
  marca : jsstring;
  model : jsstring;
  placa : option jsstring;
  updatedAt : jsstring;
  company : option SaleCompany;
  collaborator : option SaleCollaborator
}.

(** [interface RankedSeller] *)
Record RankedSeller := {
  rs_id : jsstring;
  rs_name : jsstring;
  rs_photoUrl : option jsstring;
  rs_collaboratorCode : jsstring;
  rs_companyName : jsstring;
  rs_companyId : jsstring;
  rs_salesCount : Z
}.

(** [type ChartData] *)
Record ChartData := {
  label : jsstring;
  value : Z;
  logoUrl : option jsstring
}.

(** An entry of [rankedCompaniesBySales]. *)
Record RankedCompany := {
  rc_id : jsstring;
  rc_name : jsstring;
  rc_salesCount : Z;
  rc_logoUrl : option jsstring
}.

(** An entry of [companyInfoMap]. *)
Record CompanyInfo := {
  ci_name : jsstring;
  ci_logoUrl : option jsstring
}.

(** ** fetchData

    The part of [fetchData] that builds the [activities] state: one
    property per staff member, holding the array of the activities fetched
    for it. A staff member whose id is [__proto__] replaces the prototype
    of the dictionary instead ([None]). *)
Definition activitiesMap (staffData : list Staff)
    (activitiesData : list (list StaffActivity))
    : option (Obj (list StaffActivity)) :=
  fold_left (fun acc sa =>
               match acc with
               | Some activitiesMap =>
                   setObject activitiesMap (s_id (fst sa)) (snd sa)
               | None => None
               end)
            (combine staffData activitiesData) (Some empty).

(** ** The date filter *)

Definition isSameDay (dateString filterDate : jsstring) : bool :=
  if negb (truthy dateString) || negb (truthy filterDate) then false
  else startsWith dateString filterDate.

Definition filteredReports (reports : list ReportSubmission)
    (dateFilter : jsstring) : list ReportSubmission :=
  if negb (truthy dateFilter) then reports
  else filter (fun r => isSameDay (r_timestamp r) dateFilter) reports.

(** The loop [for (const staffId in activities)] visits the own keys of
    [activities] (a dictionary with the prototype of [{}] has no other
    enumerable property) and assigns an array under each. *)
Definition filteredActivities (activities : Obj (list StaffActivity))
    (dateFilter : jsstring) : option (Obj (list StaffActivity)) :=
  if negb (truthy dateFilter) then Some activities
  else
    fold_left
      (fun acc kv =>
         match acc with
         | Some filtered =>
             setObject filtered (fst kv)
               (filter (fun a => isSameDay (a_timestamp a) dateFilter)
                       (snd kv))
         | None => None
         end)
      (entries activities) (Some empty).

Definition filteredDetailedSales (detailedSales : list DetailedSale)
    (dateFilter : jsstring) : list DetailedSale :=
  if negb (truthy dateFilter) then detailedSales
  else filter (fun s => isSameDay (updatedAt s) dateFilter) detailedSales.

(** ** The rankings *)

(** The values are objects: a company whose booth code is [__proto__]
    replaces the prototype of the dictionary ([None]). *)
Definition companyInfoMap (companies : list ParticipantCompany)
    : option (Obj CompanyInfo) :=
  fold_left
    (fun acc company =>
       match acc with
       | Some acc =>
           setObject acc (c_boothCode company)
             {| ci_name := c_name company; ci_logoUrl := c_logoUrl company |}
       | None => None
       end)
    companies (Some empty).

(** [companyInfoMap[boothCode]?.name]: an inherited function has a name
    of its own. *)
Definition companyNameAt (companyInfoMap : Obj CompanyInfo)
    (boothCode : jsstring) : option jsstring :=
  match get companyInfoMap boothCode with
  | Own ci => Some (ci_name ci)
  | Inherited name => inheritedFunctionName name
  | Undefined => None
  end.

(** [companyInfoMap[boothCode]?.logoUrl]: an inherited value has none. *)
Definition companyLogoAt (companyInfoMap : Obj CompanyInfo)
    (boothCode : jsstring) : option jsstring :=
  match get companyInfoMap boothCode with
  | Own ci => ci_logoUrl ci
  | Inherited _ => None
  | Undefined => None
  end.

(** The comparator [(a, b) => b.value - a.value]. *)
Definition byValueDesc (a b : ChartData) : Z := value b - value a.

Definition visitsCounts (filteredReports : list ReportSubmission)
    : Obj Count :=
  fold_left (fun acc report => countUp acc (r_boothCode report))
            filteredReports empty.

(** The ranking, when every count is a number. *)
Definition visitsData (filteredReports : list ReportSubmission)
    (companyInfoMap : Obj CompanyInfo) : option (list ChartData) :=
  let counts := visitsCounts filteredReports in
  option_map
    (fun es =>
       sort byValueDesc
         (map (fun e =>
                 let boothCode := fst e in
                 {| label := or_else (companyNameAt companyInfoMap boothCode)
                                     boothCode;
                    value := snd e;
                    logoUrl := companyLogoAt companyInfoMap boothCode |})
              es))
    (numbers (entries counts)).

(** Labels of the form [__...__] are internal markers. *)
Definition isHiddenLabel (l : jsstring) : bool :=
  startsWith l (lit "__") && endsWith l (lit "__").

Definition occurrencesCounts (filteredReports : list ReportSubmission)
    : Obj Count :=
  fold_left
    (fun acc report =>
       if isHiddenLabel (r_reportLabel report) then acc
       else countUp acc (r_reportLabel report))
    filteredReports empty.

Definition occurrencesData (filteredReports : list ReportSubmission)
    : option (list ChartData) :=
  let counts := occurrencesCounts filteredReports in
  option_map
    (fun es =>
       sort byValueDesc
         (map (fun e => {| label := fst e; value := snd e; logoUrl := None |})
              es))
    (numbers (entries counts)).

(** [(filteredActivities[staff.id] || []).length]. Under an inherited name
    the value is a function, and its [length] the number of its
    parameters; [Object.prototype] has no [length], and [undefined > 0] is
    as false as [0 > 0]. *)
Definition activityCount (filteredActivities : Obj (list StaffActivity))
    (staff : Staff) : Z :=
  match get filteredActivities (s_id staff) with
  | Own l => Z.of_nat (length l)
  | Inherited name =>
      match inheritedFunctionLength name with Some n => n | None => 0 end
  | Undefined => 0
  end.

Definition staffItem (filteredActivities : Obj (list StaffActivity))
    (staff : Staff) : ChartData :=
  {| label := s_name staff;
     value := activityCount filteredActivities staff;
     logoUrl := s_photoUrl staff |}.

Definition staffData (staffList : list Staff)
    (filteredActivities : Obj (list StaffActivity)) : list ChartData :=
  sort byValueDesc
    (filter (fun item => (0 <? value item)%Z)
       (map (staffItem filteredActivities) staffList)).

Definition totalSalesCount (filteredDetailedSales : list DetailedSale) : Z :=
  Z.of_nat (length filteredDetailedSales).

(** [sale.company?.id] *)
Definition companyIdOf (sale : DetailedSale) : option jsstring :=
  option_map sc_id (company sale).

Definition salesByCompany (filteredDetailedSales : list DetailedSale)
    : Obj Count :=
  fold_left
    (fun acc sale =>
       match companyIdOf sale with
       | Some companyId =>
           if truthy companyId then countUp acc companyId else acc
       | None => acc
       end)
    filteredDetailedSales empty.

(** [new Map(companies.map(c => [c.id, c]))]: a later company with the
    same id replaces an earlier one. *)
Definition companyMap (companies : list ParticipantCompany)
    : JsMap ParticipantCompany :=
  map_of (map (fun c => (c_id c, c)) companies).

(** The ranking, when every count is a number. *)
Definition rankedCompaniesBySales (filteredDetailedSales : list DetailedSale)
    (companies : list ParticipantCompany) : option (list RankedCompany) :=
  let salesByCompany := salesByCompany filteredDetailedSales in
  let companyMap := companyMap companies in
  option_map
    (fun es =>
       sort (fun a b => rc_salesCount b - rc_salesCount a)%Z
         (map (fun e =>
                 let companyId := fst e in
                 let company := map_get companyMap companyId in
                 {| rc_id := companyId;
                    rc_name := or_else (option_map c_name company)
                                       (lit "Empresa Desconhecida");
                    rc_salesCount := snd e;
                    rc_logoUrl := match company with
                                  | Some c => c_logoUrl c
                                  | None => None
                                  end |})
              es))
    (numbers (entries salesByCompany)).

(** The seller record created at the first sale of a collaborator. *)
Definition newSeller (sale : DetailedSale) (c : SaleCollaborator)
    : RankedSeller :=
  {| rs_id := sl_id c;
     rs_name := sl_name c;
     rs_photoUrl := sl_photoUrl c;
     rs_collaboratorCode := sl_collaboratorCode c;
     rs_companyName := or_else (option_map sc_name (company sale)) (lit "N/A");
     rs_companyId := or_else (option_map sc_id (company sale)) (lit "N/A");
     rs_salesCount := 0 |}.

(** [seller.salesCount++] *)
Definition incrSales (r : RankedSeller) : RankedSeller :=
  {| rs_id := rs_id r;
     rs_name := rs_name r;
     rs_photoUrl := rs_photoUrl r;
     rs_collaboratorCode := rs_collaboratorCode r;
     rs_companyName := rs_companyName r;
     rs_companyId := rs_companyId r;
     rs_salesCount := rs_salesCount r + 1 |}.

(** The reducer of [salesByCollaborator]: a sale with a collaborator id
    creates the seller at its first sale and then counts one more. Under
    an inherited name [acc[collabId]] is truthy from the start: no seller
    is created, and [salesCount++] lands on the inherited function or on
    [Object.prototype], not on a property of [acc]. That write, on an
    object shared with the rest of the page, leaves [acc] and the ranking
    made of it as they are; it is not followed further here. *)
Definition sellerStep (acc : Obj RankedSeller) (sale : DetailedSale)
    : Obj RankedSeller :=
  match collaborator sale with
  | Some c =>
      if truthy (sl_id c) then
        let collabId := sl_id c in
        let acc1 := match get acc collabId with
                    | Undefined => store acc collabId (newSeller sale c)
                    | Own _ => acc
                    | Inherited _ => acc
                    end in
        match get acc1 collabId with
        | Own seller => store acc1 collabId (incrSales seller)
        | Inherited _ => acc1
        | Undefined => acc1
        end
      else acc
  | None => acc
  end.

Definition salesByCollaborator (filteredDetailedSales : list DetailedSale)
    : Obj RankedSeller :=
  fold_left sellerStep filteredDetailedSales empty.

Definition rankedSellers (filteredDetailedSales : list DetailedSale)
    (sellerCompanyFilter : jsstring) : list RankedSeller :=
  let allSellers := values (salesByCollaborator filteredDetailedSales) in
  let filtered :=
    if str_eqb sellerCompanyFilter (lit "all") then allSellers
    else filter (fun seller => str_eqb (rs_companyId seller) sellerCompanyFilter)
                     allSellers in
  sort (fun a b => rs_salesCount b - rs_salesCount a)%Z filtered.

(** [sale.model || sale.marca || 'Desconhecido'] *)
Definition modelName (sale : DetailedSale) : jsstring :=
  if truthy (model sale) then model sale
  else if truthy (marca sale) then marca sale
  else lit "Desconhecido".

Definition salesMapCounts (filteredDetailedSales : list DetailedSale)
    : Obj Count :=
  fold_left (fun acc sale => let modelName := modelName sale in
                             countUp acc modelName)
            filteredDetailedSales empty.

(** The ranking, when every count is a number. *)
Definition salesMapData (filteredDetailedSales : list DetailedSale)
    : option (list ChartData) :=
  let counts := salesMapCounts filteredDetailedSales in
  option_map
    (fun es =>
       sort byValueDesc
         (map (fun e => {| label := fst e; value := snd e; logoUrl := None |})
              es))
    (numbers (entries counts)).

End Ranking.

(* ================================================================== *)
(** * EmitirAlertaView: the alert broadcast *)
(* ================================================================== *)

(** ** The outside world of the [async] handlers *)

Module Async.
Import Js.

(** The object handed to [JSON.stringify] as the request body; the
    serialisation itself is not modelled. *)
Inductive Body :=
| StaffPayload (staffName : jsstring) (staffPhone : option jsstring)
               (alertMessage : jsstring)
| GroupPayload (message : jsstring).

Record Request := {
  url : jsstring;
  method : jsstring;
  headers : list (jsstring * jsstring);
  body : Body
}.

Record Response := { ok : bool }.

(** Modelled from the spec: the argument of [addAlertLog] ([AlertLog] of
    [types.ts] without the fields the server adds), "a persisted record of
    a broadcast message, its sender, target department (or group), and
    recipient list". *)
Record Recipient := {
  staffId : jsstring;
  staffName : jsstring;
  staffPhone : option jsstring
}.

Record AlertLogInput := {
  eventId : jsstring;
  senderUserId : jsstring;
  departmentId : option jsstring;
  message : jsstring;
  recipients : list Recipient
}.

Inductive Error :=
| NetworkError          (* fetch rejected *)
| SendFailed            (* 'Uma ou mais notificações falharam ao enviar.' *)
| GroupWebhookFailed    (* 'Webhook para grupo falhou.' *)
| LogServiceError.      (* addAlertLog rejected *)

(** What the environment decides: the outcome of the n-th [fetch] (no
    response when the request fails on the network) and whether the log
    service accepts an entry. *)
Record Network := {
  respond : nat -> Request -> option Response;
  accepts : AlertLogInput -> bool
}.

Inductive Result (A : Type) :=
| Fulfilled (a : A)
| Rejected (e : Error).
Arguments Fulfilled {A} a.
Arguments Rejected {A} e.

(** A promise, as the outcome it settles to. *)
Definition Promise (A : Type) := Result A.

Section Monad.
Context {S : Type}.

(** The requests sent, the alert logs persisted and the timers set. *)
Record World := {
  sent : list Request;
  alertLogs : list AlertLogInput;
  timers : list (Z * (S -> S))
}.

(** An [async] function body: it reads the environment, updates the
    component state and the world, and returns or throws. *)
Definition M (A : Type) : Type :=
  Network -> S -> World -> Result A * S * World.

Definition ret {A} (a : A) : M A := fun _ st w => (Fulfilled a, st, w).

Definition bind {A B} (m : M A) (k : A -> M B) : M B := fun net st w =>
  match m net st w with
  | (Fulfilled a, st', w') => k a net st' w'
  | (Rejected e, st', w') => (Rejected e, st', w')
  end.

Definition throw {A} (e : Error) : M A := fun _ st w => (Rejected e, st, w).

(** [try { body } catch (e) { handler } finally { final }] *)
Definition tryCatchFinally (body : M unit) (handler : Error -> M unit)
    (final : M unit) : M unit := fun net st w =>
  match body net st w with
  | (Fulfilled _, st', w') => final net st' w'
  | (Rejected e, st', w') =>
      match handler e net st' w' with
      | (Fulfilled _, st'', w'') => final net st'' w''
      | (Rejected e', st'', w'') =>
          match final net st'' w'' with
          | (Fulfilled _, st3, w3) => (Rejected e', st3, w3)
          | r => r
          end
      end
  end.

(** A state setter called from the handler. *)
Definition update (f : S -> S) : M unit := fun _ st w => (Fulfilled tt, f st, w).

(** [fetch(url, init)]: the request leaves at once; the promise settles
    as the environment decides. *)
Definition fetch (req : Request) : M (Promise Response) := fun net st w =>
  let p := match respond net (length (sent w)) req with
           | Some res => Fulfilled res
           | None => Rejected NetworkError
           end in
  (Fulfilled p, st,
   {| sent := sent w ++ [req]; alertLogs := alertLogs w; timers := timers w |}).

(** [await p] *)
Definition await {A} (p : Promise A) : M A := fun _ st w => (p, st, w).

(** [Promise.all(ps)]: all the values, or the rejection of a promise that
    rejects. *)
Fixpoint Promise_all {A} (ps : list (Promise A)) : Promise (list A) :=
  match ps with
  | [] => Fulfilled []
  | Fulfilled a :: ps' =>
      match Promise_all ps' with
      | Fulfilled l => Fulfilled (a :: l)
      | Rejected e => Rejected e
      end
  | Rejected e :: _ => Rejected e
  end.

(** [xs.map(x => f(x))] for an [f] with effects. *)
Fixpoint mapM {A B} (f : A -> M B) (xs : list A) : M (list B) :=
  match xs with
  | [] => ret []
  | x :: xs' =>
      bind (f x) (fun y => bind (mapM f xs') (fun ys => ret (y :: ys)))
  end.

(** Modelled from the spec: [addAlertLog] of [services/api.ts], which is
    not part of the sources. It persists the entry, or rejects and
    persists nothing. *)
Definition addAlertLog (entry : AlertLogInput) : M (Promise unit) :=
  fun net st w =>
  if accepts net entry then
    (Fulfilled (Fulfilled tt), st,
     {| sent := sent w; alertLogs := alertLogs w ++ [entry];
        timers := timers w |})
  else (Fulfilled (Rejected LogServiceError), st, w).

(** [setTimeout(callback, delay)] *)
Definition setTimeout (callback : S -> S) (delay : Z) : M unit :=
  fun _ st w =>
  (Fulfilled tt, st,
   {| sent := sent w; alertLogs := alertLogs w;
      timers := timers w ++ [(delay, callback)] |}).

End Monad.
Arguments World : clear implicits.
Arguments M : clear implicits.

Declare Scope async_scope.
Delimit Scope async_scope with async.
Notation "x <- m ;; k" := (bind m (fun x => k))
  (at level 61, m at next level, right associativity) : async_scope.
Notation "m ;; k" := (bind m (fun _ => k))
  (at level 61, right associativity) : async_scope.

End Async.

(** ** The staff form, common to both versions of the component *)

Module StaffFlow.
Import Js Async.
Export Ranking(Staff, s_id, s_name, s_phone, s_departmentId, s_photoUrl, s_role).

(** Modelled from the spec: [Department] of [types.ts] and the user of the
    authentication context, neither part of the sources; of the user only
    the id is read. *)
Record Department := { d_id : jsstring; d_name : jsstring }.
Record User := { u_id : jsstring }.

Inductive SubmitStatus := idle | success | error.

(** The state hooks of the staff form and of its confirmation. *)
Record StaffForm := {
  step : Z;                                  (* 1: Dept, 2: Staff, 3: Message *)
  selectedDepartment : option Department;
  selectedStaffIds : JsSet;
  alertMessage : jsstring;
  isConfirmModalOpen : bool;
  isSubmitting : bool;
  submitStatus : SubmitStatus
}.

Definition initialStaffForm : StaffForm :=
  {| step := 1; selectedDepartment := None; selectedStaffIds := [];
     alertMessage := []; isConfirmModalOpen := false; isSubmitting := false;
     submitStatus := idle |}.

(** The setters; the [...With] ones take an updater function. *)
Definition setStepWith (f : Z -> Z) (s : StaffForm) : StaffForm :=
  {| step := f (step s); selectedDepartment := selectedDepartment s;
     selectedStaffIds := selectedStaffIds s; alertMessage := alertMessage s;
     isConfirmModalOpen := isConfirmModalOpen s;
     isSubmitting := isSubmitting s; submitStatus := submitStatus s |}.

Definition setStep (v : Z) : StaffForm -> StaffForm := setStepWith (fun _ => v).

Definition setSelectedDepartment (v : option Department) (s : StaffForm)
    : StaffForm :=
  {| step := step s; selectedDepartment := v;
     selectedStaffIds := selectedStaffIds s; alertMessage := alertMessage s;
     isConfirmModalOpen := isConfirmModalOpen s;
     isSubmitting := isSubmitting s; submitStatus := submitStatus s |}.

Definition setSelectedStaffIdsWith (f : JsSet -> JsSet)
    (s : StaffForm) : StaffForm :=
  {| step := step s; selectedDepartment := selectedDepartment s;
     selectedStaffIds := f (selectedStaffIds s);
     alertMessage := alertMessage s;
     isConfirmModalOpen := isConfirmModalOpen s;
     isSubmitting := isSubmitting s; submitStatus := submitStatus s |}.

Definition setSelectedStaffIds (v : JsSet) : StaffForm -> StaffForm :=
  setSelectedStaffIdsWith (fun _ => v).

Definition setAlertMessage (v : jsstring) (s : StaffForm) : StaffForm :=
  {| step := step s; selectedDepartment := selectedDepartment s;
     selectedStaffIds := selectedStaffIds s; alertMessage := v;
     isConfirmModalOpen := isConfirmModalOpen s;
     isSubmitting := isSubmitting s; submitStatus := submitStatus s |}.

Definition setIsConfirmModalOpen (v : bool) (s : StaffForm) : StaffForm :=
  {| step := step s; selectedDepartment := selectedDepartment s;
     selectedStaffIds := selectedStaffIds s; alertMessage := alertMessage s;
     isConfirmModalOpen := v;
     isSubmitting := isSubmitting s; submitStatus := submitStatus s |}.

Definition setIsSubmitting (v : bool) (s : StaffForm) : StaffForm :=
  {| step := step s; selectedDepartment := selectedDepartment s;
     selectedStaffIds := selectedStaffIds s; alertMessage := alertMessage s;
     isConfirmModalOpen := isConfirmModalOpen s;
     isSubmitting := v; submitStatus := submitStatus s |}.

Definition setSubmitStatus (v : SubmitStatus) (s : StaffForm) : StaffForm :=
  {| step := step s; selectedDepartment := selectedDepartment s;
     selectedStaffIds := selectedStaffIds s; alertMessage := alertMessage s;
     isConfirmModalOpen := isConfirmModalOpen s;
     isSubmitting := isSubmitting s; submitStatus := v |}.

(** *** Memoized lists *)

Definition staffInSelectedDepartment (selectedDepartment : option Department)
    (staffList : list Staff) : list Staff :=
  match selectedDepartment with
  | None => []
  | Some d => filter (fun s => str_eqb (s_departmentId s) (d_id d)) staffList
  end.

Definition selectedStaffDetails (selectedStaffIds : JsSet)
    (staffList : list Staff) : list Staff :=
  filter (fun s => set_has selectedStaffIds (s_id s)) staffList.

(** *** Handlers for the form flow *)

Definition handleDepartmentSelect (department : Department) (s : StaffForm)
    : StaffForm :=
  let s := setSelectedDepartment (Some department) s in
  let s := setSelectedStaffIds [] s in
  setStep 2 s.

Definition handleStaffToggle (staffId : jsstring) : StaffForm -> StaffForm :=
  setSelectedStaffIdsWith (fun prev =>
    let newSet := prev in
    if set_has newSet staffId then set_delete newSet staffId
    else set_add newSet staffId).

Definition handleBack (s : StaffForm) : StaffForm :=
  if (1 <? step s)%Z then setStepWith (fun prev => prev - 1)%Z s else s.

Definition handleProceedToMessage (s : StaffForm) : StaffForm :=
  if (0 <? set_size (selectedStaffIds s))%Z then setStep 3 s else s.

Definition handleOpenConfirmModal (s : StaffForm) : StaffForm :=
  if truthy (trim (alertMessage s)) then setIsConfirmModalOpen true s else s.

(** [resetForm] in the first version, [resetStaffForm] in the second. *)
Definition resetStaffForm (s : StaffForm) : StaffForm :=
  let s := setStep 1 s in
  let s := setSelectedDepartment None s in
  let s := setSelectedStaffIds [] s in
  let s := setAlertMessage [] s in
  let s := setIsConfirmModalOpen false s in
  setSubmitStatus idle s.

(** *** The final submission *)

Definition webhookUrl : jsstring :=
  lit "https://webhook.triad3.io/webhook/emitiralerta-staffs".

Definition jsonHeaders : list (jsstring * jsstring) :=
  [(lit "Content-Type", lit "application/json")].

(** The staff members a send addresses: the selected ones that have a
    phone number. *)
Definition targetsOf (s : StaffForm) (staffList : list Staff) : list Staff :=
  filter (fun st => truthy_opt (s_phone st))
              (selectedStaffDetails (selectedStaffIds s) staffList).

Definition staffRequest (alertMessage : jsstring) (staff : Staff) : Request :=
  {| url := webhookUrl;
     method := lit "POST";
     headers := jsonHeaders;
     body := StaffPayload (s_name staff) (s_phone staff) alertMessage |}.

(** *** What the user and the asynchronous parts can do to the form

    A control acts only while it is rendered. The effects of a pending
    submission on the form (its start, its settling) are events of their
    own, free to happen between any two user actions. *)
Inductive StaffEvent :=
| DepartmentSelect (department : Department)
| StaffToggle (staffId : jsstring)
| GoBack
| ProceedToMessage
| ChangeMessage (text : jsstring)
| SubmitMessage
| CloseConfirmModal
| SendStarted
| SendSettled (status : SubmitStatus).

Definition staffEnabled (e : StaffEvent) (s : StaffForm) : bool :=
  match e with
  | DepartmentSelect _ => (step s =? 1)%Z
  | StaffToggle _ => (step s =? 2)%Z
  | GoBack => (step s =? 2)%Z || (step s =? 3)%Z
  | ProceedToMessage => (step s =? 2)%Z
  | ChangeMessage _ => (step s =? 3)%Z
  | SubmitMessage => (step s =? 3)%Z
  | CloseConfirmModal => isConfirmModalOpen s
  | SendStarted => isConfirmModalOpen s && negb (isSubmitting s)
  | SendSettled _ => true
  end.

Definition staffHandler (e : StaffEvent) (s : StaffForm) : StaffForm :=
  match e with
  | DepartmentSelect d => handleDepartmentSelect d s
  | StaffToggle i => handleStaffToggle i s
  | GoBack => handleBack s
  | ProceedToMessage => handleProceedToMessage s
  | ChangeMessage m => setAlertMessage m s
  | SubmitMessage => handleOpenConfirmModal s
  | CloseConfirmModal => setIsConfirmModalOpen false s
  | SendStarted => setSubmitStatus idle (setIsSubmitting true s)
  | SendSettled st => setIsSubmitting false (setSubmitStatus st s)
  end.

Definition staffDispatch (e : StaffEvent) (s : StaffForm) : StaffForm :=
  if staffEnabled e s then staffHandler e s else s.

End StaffFlow.

(** ** [components/Admin/EmitirAlertaView.tsx]: alerts to staff only *)

Module EmitirAlertaStaffOnly.
Import Js Async.
Export StaffFlow.

(** The component state is the staff form. *)
Definition handleConfirmAndSend (staffList : list Staff) (s : StaffForm)
    : M StaffForm unit :=
  (update (setIsSubmitting true);;
   update (setSubmitStatus idle);;
   let targets := targetsOf s staffList in
   if (length targets =? 0)%nat then
     update (setSubmitStatus error);;
     update (setIsSubmitting false)
   else
     requests <- mapM (fun staff =>
                         fetch (staffRequest (alertMessage s) staff))
                      targets;;
     tryCatchFinally
       (responses <- await (Promise_all requests);;
        (if existsb (fun res => negb (ok res)) responses
         then throw SendFailed else ret tt);;
        update (setSubmitStatus success);;
        setTimeout resetStaffForm 3000)
       (fun _ => update (setSubmitStatus error))
       (update (setIsSubmitting false)))%async.

Inductive Event :=
| Form (e : StaffEvent)
| ResetTimerFires.

Definition dispatch (e : Event) (s : StaffForm) : StaffForm :=
  match e with
  | Form e => staffDispatch e s
  | ResetTimerFires => resetStaffForm s
  end.

(** The state after a sequence of events, from the initial render. *)
Definition run (events : list Event) : StaffForm :=
  fold_left (fun s e => dispatch e s) events initialStaffForm.

End EmitirAlertaStaffOnly.

(** ** The later [EmitirAlertaView]: staff or group alerts, with logs *)

Module EmitirAlerta.
Import Js Async.
Export StaffFlow.

Inductive AlertType := staff | group.
Inductive View := form | logs.

(** The state hooks of the group form. *)
Record GroupForm := {
  groupAlertMessage : jsstring;
  isGroupConfirmModalOpen : bool;
  isSubmittingGroup : bool;
  groupSubmitStatus : SubmitStatus
}.

Definition setGroupAlertMessage (v : jsstring) (g : GroupForm) : GroupForm :=
  {| groupAlertMessage := v;
     isGroupConfirmModalOpen := isGroupConfirmModalOpen g;
     isSubmittingGroup := isSubmittingGroup g;
     groupSubmitStatus := groupSubmitStatus g |}.

Definition setIsGroupConfirmModalOpen (v : bool) (g : GroupForm) : GroupForm :=
  {| groupAlertMessage := groupAlertMessage g;
     isGroupConfirmModalOpen := v;
     isSubmittingGroup := isSubmittingGroup g;
     groupSubmitStatus := groupSubmitStatus g |}.

Definition setIsSubmittingGroup (v : bool) (g : GroupForm) : GroupForm :=
  {| groupAlertMessage := groupAlertMessage g;
     isGroupConfirmModalOpen := isGroupConfirmModalOpen g;
     isSubmittingGroup := v;
     groupSubmitStatus := groupSubmitStatus g |}.

Definition setGroupSubmitStatus (v : SubmitStatus) (g : GroupForm) : GroupForm :=
  {| groupAlertMessage := groupAlertMessage g;
     isGroupConfirmModalOpen := isGroupConfirmModalOpen g;
     isSubmittingGroup := isSubmittingGroup g;
     groupSubmitStatus := v |}.

(** The component state (the fetched lists and the loaded logs apart). *)
Record State := {
  alertType : option AlertType;
  staffForm : StaffForm;
  groupForm : GroupForm;
  view : View
}.

Definition initialState : State :=
  {| alertType := None;
     staffForm := initialStaffForm;
     groupForm := {| groupAlertMessage := []; isGroupConfirmModalOpen := false;
                     isSubmittingGroup := false; groupSubmitStatus := idle |};
     view := form |}.

Definition setAlertType (v : option AlertType) (s : State) : State :=
  {| alertType := v; staffForm := staffForm s; groupForm := groupForm s;
     view := view s |}.

Definition setView (v : View) (s : State) : State :=
  {| alertType := alertType s; staffForm := staffForm s;
     groupForm := groupForm s; view := v |}.

(** A setter of the staff form, or of the group form, in the component. *)
Definition onStaff (f : StaffForm -> StaffForm) (s : State) : State :=
  {| alertType := alertType s; staffForm := f (staffForm s);
     groupForm := groupForm s; view := view s |}.

Definition onGroup (f : GroupForm -> GroupForm) (s : State) : State :=
  {| alertType := alertType s; staffForm := staffForm s;
     groupForm := f (groupForm s); view := view s |}.

Definition resetGroupForm (g : GroupForm) : GroupForm :=
  let g := setGroupAlertMessage [] g in
  let g := setIsGroupConfirmModalOpen false g in
  let g := setGroupSubmitStatus idle g in
  setIsSubmittingGroup false g.

Definition handleBackToChoice (s : State) : State :=
  let s := onStaff resetStaffForm s in
  let s := onGroup resetGroupForm s in
  setAlertType None s.

Definition handleOpenGroupConfirmModal (g : GroupForm) : GroupForm :=
  if truthy (trim (groupAlertMessage g))
  then setIsGroupConfirmModalOpen true g else g.

Definition toRecipient (s : Staff) : Recipient :=
  {| staffId := s_id s; staffName := s_name s; staffPhone := s_phone s |}.

(** Handler for the staff final submission. [s] is the state of the
    render whose button was clicked; [eventId] is the component's prop and
    [user] the value of the authentication context. *)
Definition handleConfirmAndSend (eventId : jsstring) (user : option User)
    (staffList : list Staff) (s : State) : M State unit :=
  (update (onStaff (setIsSubmitting true));;
   update (onStaff (setSubmitStatus idle));;
   let targets := targetsOf (staffForm s) staffList in
   if (length targets =? 0)%nat then
     update (onStaff (setSubmitStatus error));;
     update (onStaff (setIsSubmitting false))
   else
     requests <- mapM (fun staff =>
                         fetch (staffRequest (alertMessage (staffForm s)) staff))
                      targets;;
     tryCatchFinally
       (responses <- await (Promise_all requests);;
        (if existsb (fun res => negb (ok res)) responses
         then throw SendFailed else ret tt);;
        match user, selectedDepartment (staffForm s) with
        | Some user, Some selectedDepartment =>
            p <- addAlertLog
                   {| eventId := eventId;
                      senderUserId := u_id user;
                      departmentId := Some (d_id selectedDepartment);
                      message := alertMessage (staffForm s);
                      recipients := map toRecipient targets |};;
            await p
        | _, _ => ret tt
        end;;
        update (onStaff (setSubmitStatus success));;
        setTimeout (fun s => handleBackToChoice (onStaff resetStaffForm s))
                   3000)
       (fun _ => update (onStaff (setSubmitStatus error)))
       (update (onStaff (setIsSubmitting false))))%async.

Definition groupWebhookUrl : jsstring :=
  lit "https://webhook.triad3.io/webhook/aca7d18d-8c37-49ae-92a4-03285bc6729a".

Definition groupRecipient : Recipient :=
  {| staffId := lit "GROUP"; staffName := lit "Alerta para Grupo";
     staffPhone := Some [] |}.

(** Handler for the group final submission. *)
Definition handleGroupAlertSend (eventId : jsstring) (user : option User)
    (s : State) : M State unit :=
  (update (onGroup (setIsSubmittingGroup true));;
   update (onGroup (setGroupSubmitStatus idle));;
   tryCatchFinally
     (p <- fetch {| url := groupWebhookUrl; method := lit "POST";
                    headers := jsonHeaders;
                    body := GroupPayload (groupAlertMessage (groupForm s)) |};;
      response <- await p;;
      (if negb (ok response) then throw GroupWebhookFailed else ret tt);;
      match user with
      | Some user =>
          p <- addAlertLog
                 {| eventId := eventId;
                    senderUserId := u_id user;
                    departmentId := None;
                    message := groupAlertMessage (groupForm s);
                    recipients := [groupRecipient] |};;
          await p
      | None => ret tt
      end;;
      update (onGroup (setGroupSubmitStatus success));;
      setTimeout (fun s => handleBackToChoice (onGroup resetGroupForm s))
                 3000)
     (fun _ => update (onGroup (setGroupSubmitStatus error)))
     (update (onGroup (setIsSubmittingGroup false))))%async.

(** *** Events of the component *)

Inductive Event :=
| ChooseAlertType (t : AlertType)
| ViewLogs
| BackFromLogs
| BackToChoice
| InStaffForm (e : StaffEvent)
| StaffTimerFires
| ChangeGroupMessage (text : jsstring)
| SubmitGroupMessage
| CloseGroupConfirmModal
| GroupSendStarted
| GroupSendSettled (status : SubmitStatus)
| GroupTimerFires.

(** The controls of the three steps; the modal and the effects of a
    pending submission do not depend on the screen shown. *)
Definition isStepControl (e : StaffEvent) : bool :=
  match e with
  | CloseConfirmModal | SendStarted | SendSettled _ => false
  | _ => true
  end.

Definition showsStaffForm (s : State) : bool :=
  match view s, alertType s with form, Some staff => true | _, _ => false end.

Definition showsGroupForm (s : State) : bool :=
  match view s, alertType s with form, Some group => true | _, _ => false end.

Definition showsChoice (s : State) : bool :=
  match view s, alertType s with form, None => true | _, _ => false end.

Definition enabled (e : Event) (s : State) : bool :=
  match e with
  | ChooseAlertType _ | ViewLogs => showsChoice s
  | BackFromLogs => match view s with logs => true | form => false end
  | BackToChoice => showsStaffForm s || showsGroupForm s
  | InStaffForm e =>
      (if isStepControl e then showsStaffForm s else true)
      && staffEnabled e (staffForm s)
  | ChangeGroupMessage _ | SubmitGroupMessage => showsGroupForm s
  | CloseGroupConfirmModal => isGroupConfirmModalOpen (groupForm s)
  | GroupSendStarted =>
      isGroupConfirmModalOpen (groupForm s)
      && negb (isSubmittingGroup (groupForm s))
  | StaffTimerFires | GroupSendSettled _ | GroupTimerFires => true
  end.

Definition handler (e : Event) (s : State) : State :=
  match e with
  | ChooseAlertType t => setAlertType (Some t) s
  | ViewLogs => setView logs s
  | BackFromLogs => handleBackToChoice (setView form s)
  | BackToChoice => handleBackToChoice s
  | InStaffForm e => onStaff (staffHandler e) s
  | StaffTimerFires => handleBackToChoice (onStaff resetStaffForm s)
  | ChangeGroupMessage m => onGroup (setGroupAlertMessage m) s
  | SubmitGroupMessage => onGroup handleOpenGroupConfirmModal s
  | CloseGroupConfirmModal => onGroup (setIsGroupConfirmModalOpen false) s
  | GroupSendStarted =>
      onGroup (fun g => setGroupSubmitStatus idle (setIsSubmittingGroup true g)) s
  | GroupSendSettled st =>
      onGroup (fun g => setIsSubmittingGroup false (setGroupSubmitStatus st g)) s
  | GroupTimerFires => handleBackToChoice (onGroup resetGroupForm s)
  end.

Definition dispatch (e : Event) (s : State) : State :=
  if enabled e s then handler e s else s.

(** The state after a sequence of events, from the initial render. *)
Definition run (events : list Event) : State :=
  fold_left (fun s e => dispatch e s) events initialState.

End EmitirAlerta.

(* ================================================================== *)
(** * RankingView: what is drawn and exported *)
(* ================================================================== *)

Module RankingDisplay.
Import Js Ranking.

(** The tabs of the component. *)
Inductive View :=
| v_visits | v_occurrences | v_staff
| v_salesByCompany | v_salesBySeller | v_salesMap.

(** The ranking of the three tabs that share the bar chart; the
    occurrences are the default. *)
Definition chartData (view : View)
    (visitsData occurrencesData staffData : list ChartData) : list ChartData :=
  match view with
  | v_visits => visitsData
  | v_staff => staffData
  | _ => occurrencesData
  end.

(** [Math.max(...values, 0)] *)
Definition Math_max0 (values : list Z) : Z := fold_right Z.max 0%Z values.

Definition maxValue (chartData : list ChartData) : Z :=
  Math_max0 (map value chartData).

Definition maxSalesCompanyValue (rankedCompaniesBySales : list RankedCompany)
    : Z :=
  Math_max0 (map rc_salesCount rankedCompaniesBySales).

Definition maxSellerValue (rankedSellers : list RankedSeller) : Z :=
  Math_max0 (map rs_salesCount rankedSellers).

(** [salesMapData[0].value], the full bar of the sales-by-model tab; it is
    read while an item of the list is drawn. *)
Definition maxSalesMapValue (salesMapData : list ChartData) : option Z :=
  option_map value (hd_error salesMapData).

(** The rows of the visits, staff and sales-by-model PDF tables:
    position, label, value. *)
Fixpoint tableRowsFrom (index : Z) (data : list ChartData)
    : list (Z * jsstring * Z) :=
  match data with
  | [] => []
  | item :: rest =>
      (index + 1, label item, value item)%Z :: tableRowsFrom (index + 1) rest
  end.

Definition tableRows (data : list ChartData) : list (Z * jsstring * Z) :=
  tableRowsFrom 0 data.

(** The class [\w] of a regular expression without flags. *)
Definition isWordChar (c : N) : bool :=
  ((48 <=? c) && (c <=? 57) || (65 <=? c) && (c <=? 90) || (c =? 95)
   || (97 <=? c) && (c <=? 122))%N.

(** [s.replace(/[^\w]/g, '_')] *)
Definition replaceNonWord (s : jsstring) : jsstring :=
  map (fun c => if isWordChar c then c else 95%N) s.

(** [s.toLowerCase()] on the ASCII range, where it turns [A-Z] into [a-z]
    and leaves the rest; code units from 128 on are outside this model (the
    replacement that runs before it leaves none). *)
Definition toLowerCaseAscii (s : jsstring) : jsstring :=
  map (fun c => if ((65 <=? c) && (c <=? 90))%N then (c + 32)%N else c) s.

(** The name [handleDownloadOccurrencesPdf] saves the report under; with
    no label it returns before anything is made. *)
Definition occurrencesFileName (occurrenceLabels : list jsstring)
    : option jsstring :=
  match occurrenceLabels with
  | [] => None
  | first :: rest =>
      let safeLabel := toLowerCaseAscii (replaceNonWord first) in
      Some (if (length occurrenceLabels =? 1)%nat
            then lit "relatorio_" ++ safeLabel ++ lit ".pdf"
            else lit "relatorio_completo_ocorrencias.pdf")
  end.

(** A [ReportButtonConfig], of which the label and the question are read. *)
Record ReportButtonConfig := {
  b_label : jsstring;
  b_question : jsstring
}.

(** The values are strings: a label [__proto__] leaves no entry. *)
Definition questionMap (buttonConfigs : list ReportButtonConfig)
    : Obj jsstring :=
  fold_left (fun acc config => set acc (b_label config) (b_question config))
            buttonConfigs empty.

(** [questionMap[report.reportLabel] || report.reportLabel], as the text
    the template literal makes of it. Under an inherited name the value is
    a function or [Object.prototype], whose text is up to the engine:
    [None]. *)
Definition questionOf (questionMap : Obj jsstring) (reportLabel : jsstring)
    : option jsstring :=
  match get questionMap reportLabel with
  | Own question => Some (or_else (Some question) reportLabel)
  | Inherited _ => None
  | Undefined => Some reportLabel
  end.

(** A row of an occurrence table: booth, question and response, staff,
    date and time. [toLocaleString] stands for
    [new Date(t).toLocaleString('pt-BR')]. *)
Definition occurrenceRow (toLocaleString : jsstring -> jsstring)
    (questionMap : Obj jsstring) (companyInfoMap : Obj CompanyInfo)
    (report : ReportSubmission) : option (list jsstring) :=
  option_map
    (fun question =>
       let responseText := question ++ lit (String "010" (String "010" ""))
                           ++ r_response report in
       [ or_else (companyNameAt companyInfoMap (r_boothCode report))
                 (r_boothCode report);
         responseText;
         r_staffName report;
         toLocaleString (r_timestamp report) ])
    (questionOf questionMap (r_reportLabel report)).

(** The rows of a table, when each of them has a text. *)
Fixpoint allRows (rows : list (option (list jsstring)))
    : option (list (list jsstring)) :=
  match rows with
  | [] => Some []
  | Some row :: rest => option_map (cons row) (allRows rest)
  | None :: _ => None
  end.

(** The tables of the occurrences PDF: one per label that has reports,
    in the order of the labels. *)
Fixpoint occurrenceTables (toLocaleString : jsstring -> jsstring)
    (questionMap : Obj jsstring) (companyInfoMap : Obj CompanyInfo)
    (filteredReports : list ReportSubmission)
    (occurrenceLabels : list jsstring)
    : option (list (jsstring * list (list jsstring))) :=
  match occurrenceLabels with
  | [] => Some []
  | label :: rest =>
      let reportsForOccurrence :=
        filter (fun r => str_eqb (r_reportLabel r) label) filteredReports in
      let tables :=
        occurrenceTables toLocaleString questionMap companyInfoMap
                         filteredReports rest in
      if (length reportsForOccurrence =? 0)%nat then tables
      else
        match allRows (map (occurrenceRow toLocaleString questionMap
                                          companyInfoMap)
                           reportsForOccurrence), tables with
        | Some tableRows, Some tables => Some ((label, tableRows) :: tables)
        | _, _ => None
        end
  end.

(** The rows of the sales CSV; nothing is exported when there is no sale. *)
Definition salesCsvRows (toLocaleString : jsstring -> jsstring)
    (filteredDetailedSales : list DetailedSale) : option (list (list jsstring)) :=
  if (length filteredDetailedSales =? 0)%nat then None
  else
    Some (map (fun sale =>
                 [ marca sale;
                   model sale;
                   or_else (placa sale) (lit "N/D");
                   or_else (option_map sc_name (company sale)) (lit "N/A");
                   or_else (option_map sl_name (collaborator sale)) (lit "N/A");
                   toLocaleString (updatedAt sale) ])
              filteredDetailedSales).

End RankingDisplay.

(* ================================================================== *)
(** * EmitirAlertaView: the staff offered and the report of the logs *)
(* ================================================================== *)

Module AlertReport.
Import Js Async StaffFlow.

(** The staff buttons of step 2 are those of [staffInSelectedDepartment]:
    a toggle reaches the form only for a staff member drawn there. *)
Definition toggleOffered (staffList : list Staff) (form : StaffForm)
    (e : StaffEvent) : bool :=
  match e with
  | StaffToggle staffId =>
      existsb (fun st => str_eqb (s_id st) staffId)
              (staffInSelectedDepartment (selectedDepartment form) staffList)
  | _ => true
  end.

(** The later version, run on the events its screen offers. *)
Definition dispatchOffered (staffList : list Staff) (e : EmitirAlerta.Event)
    (s : EmitirAlerta.State) : EmitirAlerta.State :=
  match e with
  | EmitirAlerta.InStaffForm e' =>
      if toggleOffered staffList (EmitirAlerta.staffForm s) e'
      then EmitirAlerta.dispatch e s else s
  | _ => EmitirAlerta.dispatch e s
  end.

Definition runOffered (staffList : list Staff)
    (events : list EmitirAlerta.Event) : EmitirAlerta.State :=
  fold_left (fun s e => dispatchOffered staffList e s) events
            EmitirAlerta.initialState.

(** The first version, likewise. *)
Definition staffOnlyDispatchOffered (staffList : list Staff)
    (e : EmitirAlertaStaffOnly.Event) (s : StaffForm) : StaffForm :=
  match e with
  | EmitirAlertaStaffOnly.Form e' =>
      if toggleOffered staffList s e'
      then EmitirAlertaStaffOnly.dispatch e s else s
  | _ => EmitirAlertaStaffOnly.dispatch e s
  end.

Definition staffOnlyRunOffered (staffList : list Staff)
    (events : list EmitirAlertaStaffOnly.Event) : StaffForm :=
  fold_left (fun s e => staffOnlyDispatchOffered staffList e s) events
            initialStaffForm.

(** Modelled from the spec: an [AlertLog] as [getAlertLogsByEvent] returns
    it ([types.ts] is not part of the sources): the persisted record with
    the sender and the department resolved by the server; the fields are
    those [handleDownloadPdf] and the log list read. *)
Record AlertLog := {
  l_id : jsstring;
  l_createdAt : jsstring;
  l_senderName : option jsstring;       (* log.sender?.name *)
  l_departmentName : option jsstring;   (* log.department?.name *)
  l_message : jsstring;
  l_recipients : list Recipient
}.

(** [parts.join(separator)] *)
Fixpoint join (separator : jsstring) (parts : list jsstring) : jsstring :=
  match parts with
  | [] => []
  | [p] => p
  | p :: rest => p ++ separator ++ join separator rest
  end.

(** The rows of the first table of [handleDownloadPdf], one per log. *)
Definition logRows (toLocaleString : jsstring -> jsstring)
    (logs : list AlertLog) : list (list jsstring) :=
  map (fun log =>
         [ toLocaleString (l_createdAt log);
           or_else (l_senderName log) (lit "N/A");
           or_else (l_departmentName log) (lit "Grupo");
           l_message log;
           join (lit (String "," (String "010" "")))
                (map staffName (l_recipients log)) ])
      logs.

(** How many alerts each recipient name received. *)
Definition staffAlertCounts (logs : list AlertLog) : Obj Count :=
  fold_left
    (fun counts log =>
       fold_left (fun counts recipient => countUp counts (staffName recipient))
                 (l_recipients log) counts)
    logs empty.

(** The rows of the second table, by descending count, when every count
    is a number; the table is drawn only when there is a row. *)
Definition summaryRows (logs : list AlertLog) : option (list (jsstring * Z)) :=
  option_map (sort (fun a b => snd b - snd a)%Z)
             (numbers (entries (staffAlertCounts logs))).

(** [summaryRows.length > 0]; sorting and mapping keep the length of
    [Object.entries(staffAlertCounts)], whatever the counts are. *)
Definition hasSummary (logs : list AlertLog) : bool :=
  (0 <? length (entries (staffAlertCounts logs)))%nat.

End AlertReport.

(* ================================================================== *)
(** * Vocabulary of the properties *)
(* ================================================================== *)

Module Spec.
Import Js.

(** Descending order of a key. *)
Definition desc {A} (key : A -> Z) (a b : A) : Prop := (key b <= key a)%Z.

(** A list in descending order of a key. *)
Definition sortedDesc {A} (key : A -> Z) (l : list A) : Prop :=
  StronglySorted (desc key) l.

(** An object has each own key once. *)
Definition uniqueKeys {V} (o : Obj V) : Prop := NoDup (map fst o).

(** The counting step of the ranking reductions,
    [acc[k] = (acc[k] || 0) + 1]. *)
Definition bump (acc : Obj Z) (k : jsstring) : Obj Z :=
  store acc k (or_zero (lookup acc k) + 1)%Z.

(** A reduction that counts the elements of a list under the key each one
    has, skipping those without a key. *)
Definition tally {A} (key : A -> option jsstring) (l : list A) (acc : Obj Z)
    : Obj Z :=
  fold_left (fun acc x => match key x with
                          | Some k => bump acc k
                          | None => acc
                          end) l acc.

Definition hasKey {A} (key : A -> option jsstring) (k : jsstring) (x : A)
    : bool :=
  match key x with Some k' => str_eqb k' k | None => false end.

(** How many elements of the list have the key [k]. *)
Definition occurrences {A} (key : A -> option jsstring) (k : jsstring)
    (l : list A) : Z :=
  Z.of_nat (length (filter (hasKey key k) l)).

Definition keysOf {A} (key : A -> option jsstring) (l : list A)
    : list jsstring :=
  flat_map (fun x => match key x with Some k => [k] | None => [] end) l.

(** The keys that occur in the list, each once. *)
Definition distinctKeys {A} (key : A -> option jsstring) (l : list A)
    : list jsstring :=
  nodup (list_eq_dec N.eq_dec) (keysOf key l).

(** No key of the list is a name objects inherit ([constructor],
    [toString], [__proto__], ...). *)
Definition plainKeys (keys : list jsstring) : Prop :=
  Forall (fun k => isInherited k = false) keys.

(** A dictionary of numbers, as a dictionary of counts. *)
Definition asCounts (o : Obj Z) : Obj Count :=
  map (fun e => (fst e, Number (snd e))) o.

(** The dictionary that holds, under each key of a list, the value
    listed last with it. *)
Definition dictOf {A V} (kf : A -> jsstring) (vf : A -> V) (l : list A)
    : Obj V :=
  fold_left (fun o x => store o (kf x) (vf x)) l empty.

(** The number a count holds; a string holds none. *)
Definition numberOf (c : Count) : Z :=
  match c with Number n => n | Text => 0%Z end.

(** The sum of a numeric field over a list. *)
Definition total {A} (f : A -> Z) (l : list A) : Z :=
  fold_right (fun x acc => (f x + acc)%Z) 0%Z l.

(** ** Rankings *)
Import Ranking.


(** The company a booth code stands for: the one listed last with it. *)
Definition companyAt (companies : list ParticipantCompany)
    (boothCode : jsstring) : option ParticipantCompany :=
  find (fun c => str_eqb (c_boothCode c) boothCode) (rev companies).

(** What the dictionary of the companies keeps of a company. *)
Definition companyInfoOf (c : ParticipantCompany) : CompanyInfo :=
  {| ci_name := c_name c; ci_logoUrl := c_logoUrl c |}.

Definition boothOf (r : ReportSubmission) : option jsstring :=
  Some (r_boothCode r).

(** The label a report is counted under in the occurrences ranking. *)
Definition countedLabel (r : ReportSubmission) : option jsstring :=
  if isHiddenLabel (r_reportLabel r) then None else Some (r_reportLabel r).

(** The reports that bear a label. *)
Definition labelled (l : jsstring) (reports : list ReportSubmission)
    : list ReportSubmission :=
  filter (fun r => str_eqb (r_reportLabel r) l) reports.

(** The company a sale is counted under, when it has one. *)
Definition countedCompany (s : DetailedSale) : option jsstring :=
  match companyIdOf s with
  | Some i => if truthy i then Some i else None
  | None => None
  end.

(** The seller a sale is counted under, when it has one. *)
Definition countedSeller (s : DetailedSale) : option jsstring :=
  match collaborator s with
  | Some c => if truthy (sl_id c) then Some (sl_id c) else None
  | None => None
  end.

Definition isSome {A} (o : option A) : bool :=
  match o with Some _ => true | None => false end.

(** The activities recorded for a staff member. *)
Definition activitiesOf (activities : Obj (list StaffActivity)) (s : Staff)
    : list StaffActivity :=
  match lookup activities (s_id s) with Some l => l | None => [] end.

(** The label the description gives a visits group: the name of the
    company of the booth code, the booth code when there is no company. *)
Definition describedVisitsLabel (companies : list ParticipantCompany)
    (boothCode : jsstring) : jsstring :=
  match companyAt companies boothCode with
  | Some c => c_name c
  | None => boothCode
  end.

End Spec.

(** ** Vocabulary of the alert properties *)

Module AlertSpec.
Import Js Async StaffFlow.

(** A world in which nothing has happened yet. *)
Definition initialWorld {S : Type} : World S :=
  {| sent := []; alertLogs := []; timers := [] |}.

(** The batch of requests reaches its recipients: every request, the
    first of them being the [n]-th of the world, gets a response, and the
    response is ok. *)
Fixpoint delivered (net : Network) (n : nat) (requests : list Request)
    : bool :=
  match requests with
  | [] => true
  | r :: rs =>
      match respond net n r with
      | Some res => ok res && delivered net (S n) rs
      | None => false
      end
  end.

(** The promises the batch of requests gives. *)
Fixpoint promisesOf (net : Network) (n : nat) (requests : list Request)
    : list (Promise Response) :=
  match requests with
  | [] => []
  | r :: rs =>
      match respond net n r with
      | Some res => Fulfilled res
      | None => Rejected NetworkError
      end :: promisesOf net (S n) rs
  end.

(** The state, the world and the outcome a handler ends with. *)
Definition finalState {S A} (r : Result A * S * World S) : S := snd (fst r).
Definition finalWorld {S A} (r : Result A * S * World S) : World S := snd r.
Definition outcome {S A} (r : Result A * S * World S) : Result A :=
  fst (fst r).

(** The message is blank: empty or white space only. *)
Definition blank (message : jsstring) : bool := forallb isWhiteSpace message.

(** The step counter shows one of the three steps. *)
Definition validStep (form : StaffForm) : Prop :=
  step form = 1%Z \/ step form = 2%Z \/ step form = 3%Z.

(** The world after the batch of a send has left. *)
Definition afterBatch {S} (w : World S) (requests : list Request) : World S :=
  {| sent := sent w ++ requests; alertLogs := alertLogs w;
     timers := timers w |}.

(** The world after a send that succeeded: the entry, if one was made, is
    persisted and the reset of the form is scheduled. *)
Definition afterSuccess {S} (w : World S) (requests : list Request)
    (entry : option AlertLogInput) (reset : S -> S) : World S :=
  {| sent := sent w ++ requests;
     alertLogs := match entry with
                  | Some e => alertLogs w ++ [e]
                  | None => alertLogs w
                  end;
     timers := timers w ++ [(3000%Z, reset)] |}.

(** The log entry of a staff alert. *)
Definition staffEntry (eventId : jsstring) (user : User)
    (department : Department) (message : jsstring) (targets : list Staff)
    : AlertLogInput :=
  {| eventId := eventId;
     senderUserId := u_id user;
     departmentId := Some (d_id department);
     message := message;
     recipients :=
       map (fun s => {| staffId := s_id s; staffName := s_name s;
                        staffPhone := s_phone s |}) targets |}.

(** The log entry of a group alert. *)
Definition groupEntry (eventId : jsstring) (user : User) (message : jsstring)
    : AlertLogInput :=
  {| eventId := eventId;
     senderUserId := u_id user;
     departmentId := None;
     message := message;
     recipients := [ {| staffId := lit "GROUP";
                        staffName := lit "Alerta para Grupo";
                        staffPhone := Some [] |} ] |}.

End AlertSpec.

(** ** Sample data *)

Module Samples.
Import Js Ranking.

Definition may1 : jsstring := lit "2024-05-01".

Definition report (timestamp boothCode reportLabel : string)
    : ReportSubmission :=
  {| r_timestamp := lit timestamp; r_boothCode := lit boothCode;
     r_reportLabel := lit reportLabel; r_response := lit "ok";
     r_staffName := lit "Ana" |}.

Definition reports : list ReportSubmission :=
  [ report "2024-05-01T10:00:00.000Z" "A1" "Visita";
    report "2024-05-02T09:00:00.000Z" "7" "__checkin__";
    report "2024-05-01T11:00:00.000Z" "7" "Visita";
    report "2024-05-01T12:00:00.000Z" "7" "Agua" ].

Definition acme : ParticipantCompany :=
  {| c_id := lit "c1"; c_boothCode := lit "A1"; c_name := lit "Acme";
     c_logoUrl := None |}.

(** A company registered with an empty name. *)
Definition unnamed : ParticipantCompany :=
  {| c_id := lit "c2"; c_boothCode := lit "7"; c_name := [];
     c_logoUrl := None |}.

Definition companies : list ParticipantCompany := [acme; unnamed].

Definition ana : Staff :=
  {| s_id := lit "s1"; s_name := lit "Ana"; s_phone := Some (lit "5511999990001");
     s_departmentId := lit "d1"; s_photoUrl := None; s_role := None |}.

Definition bruno : Staff :=
  {| s_id := lit "s2"; s_name := lit "Bruno"; s_phone := None;
     s_departmentId := lit "d1"; s_photoUrl := None; s_role := None |}.

Definition carla : Staff :=
  {| s_id := lit "s3"; s_name := lit "Carla"; s_phone := Some (lit "5511999990003");
     s_departmentId := lit "d1"; s_photoUrl := None; s_role := None |}.

Definition staffList : list Staff := [ana; bruno; carla].

Definition activity (timestamp : string) : StaffActivity :=
  {| a_timestamp := lit timestamp |}.

Definition activitiesData : list (list StaffActivity) :=
  [ [activity "2024-05-01T10:00:00.000Z"; activity "2024-05-02T10:00:00.000Z"];
    [];
    [activity "2024-05-02T08:00:00.000Z"] ].

Definition seller : SaleCollaborator :=
  {| sl_id := lit "v1"; sl_name := lit "Davi"; sl_photoUrl := None;
     sl_collaboratorCode := lit "V-1" |}.

Definition soldByAcme : DetailedSale :=
  {| marca := lit "Fiat"; model := lit "Uno"; placa := None;
     updatedAt := lit "2024-05-01T15:00:00.000Z";
     company := Some {| sc_id := lit "c1"; sc_name := lit "Acme";
                        sc_logoUrl := None |};
     collaborator := Some seller |}.

(** A sale with neither company nor collaborator. *)
Definition orphanSale : DetailedSale :=
  {| marca := lit "Ford"; model := lit "Ka"; placa := None;
     updatedAt := lit "2024-05-01T16:00:00.000Z";
     company := None; collaborator := None |}.

Definition buttons : list RankingDisplay.ReportButtonConfig :=
  [ {| RankingDisplay.b_label := lit "Agua";
       RankingDisplay.b_question := lit "Precisa de agua?" |};
    {| RankingDisplay.b_label := lit "Agua";
       RankingDisplay.b_question := lit "Falta agua?" |} ].

(** Two reports under a label that is also the name of a method every
    object has, and one under an ordinary label. *)
Definition reportsAboutToString : list ReportSubmission :=
  [ report "2024-05-01T10:00:00.000Z" "A1" "toString";
    report "2024-05-01T11:00:00.000Z" "7" "toString";
    report "2024-05-01T12:00:00.000Z" "7" "Visita" ].



(** A staff member whose id is the name of the accessor of the
    prototype. *)
Definition dunder : Staff :=
  {| s_id := lit "__proto__"; s_name := lit "Davi"; s_phone := None;
     s_departmentId := lit "d1"; s_photoUrl := None; s_role := None |}.


End Samples.

Module AlertSamples.
Import Js Async StaffFlow EmitirAlerta.

Definition sales : Department := {| d_id := lit "d1"; d_name := lit "Vendas" |}.

Definition admin : User := {| u_id := lit "u1" |}.

Definition text : jsstring := lit "Reuniao as 15h".

(** The wizard, walked to the confirmation of an alert to Ana and Bruno. *)
Definition walk : list Event :=
  [ ChooseAlertType staff;
    InStaffForm (DepartmentSelect sales);
    InStaffForm (StaffToggle (lit "s1"));
    InStaffForm (StaffToggle (lit "s2"));
    InStaffForm ProceedToMessage;
    InStaffForm (ChangeMessage text);
    InStaffForm SubmitMessage ].

Definition walk1 : list EmitirAlertaStaffOnly.Event :=
  map EmitirAlertaStaffOnly.Form
      [ DepartmentSelect sales; StaffToggle (lit "s1"); ProceedToMessage;
        ChangeMessage text; SubmitMessage ].

(** The group form, walked to its confirmation. *)
Definition groupWalk : list Event :=
  [ ChooseAlertType group; ChangeGroupMessage text; SubmitGroupMessage ].

(** A network on which every request is answered ok and a log service
    that accepts every entry. *)
Definition fine : Network :=
  {| respond := fun _ _ => Some {| ok := true |};
     accepts := fun _ => true |}.

(** A network on which the second request gets no response. *)
Definition flaky : Network :=
  {| respond := fun n _ => match n with
                           | 1%nat => None
                           | _ => Some {| ok := true |}
                           end;
     accepts := fun _ => true |}.

(** A log of an alert sent to the recipients of these names. *)
Definition logTo (names : list string) : AlertReport.AlertLog :=
  {| AlertReport.l_id := lit "l1";
     AlertReport.l_createdAt := lit "2024-05-01T10:00:00.000Z";
     AlertReport.l_senderName := Some (lit "Admin");
     AlertReport.l_departmentName := None;
     AlertReport.l_message := text;
     AlertReport.l_recipients :=
       map (fun name => {| staffId := lit name; staffName := lit name;
                           staffPhone := None |}) names |}.

Definition logsTo (names : list string) : list AlertReport.AlertLog :=
  [logTo names].

Definition logs : list AlertReport.AlertLog :=
  [logTo ["Ana"; "Bruno"]%string; logTo ["Ana"]%string].

End AlertSamples.

(** ** Further vocabulary *)

Module MoreSpec.
Import Js Spec Ranking Async StaffFlow.

(** The key a sale is counted under in the sales-by-model tab. *)
Definition countedModel (s : DetailedSale) : option jsstring :=
  Some (modelName s).

(** The first sale counted for a seller. *)
Definition firstSaleOf (sellerId : jsstring) (sales : list DetailedSale)
    : option DetailedSale :=
  find (hasKey countedSeller sellerId) sales.

(** A seller with a number of sales. *)
Definition withSales (r : RankedSeller) (n : Z) : RankedSeller :=
  {| rs_id := rs_id r;
     rs_name := rs_name r;
     rs_photoUrl := rs_photoUrl r;
     rs_collaboratorCode := rs_collaboratorCode r;
     rs_companyName := rs_companyName r;
     rs_companyId := rs_companyId r;
     rs_salesCount := n |}.

(** The entry of a seller in the ranking: made from the first sale
    counted for the seller, with the number of all of them. *)
Definition sellerEntry (sellerId : jsstring) (sales : list DetailedSale)
    : option RankedSeller :=
  match firstSaleOf sellerId sales with
  | Some sale =>
      match collaborator sale with
      | Some c => Some (withSales (newSeller sale c)
                                   (occurrences countedSeller sellerId sales))
      | None => None
      end
  | None => None
  end.

(** The participant company an id stands for: the one listed last. *)
Definition participantWithId (companies : list ParticipantCompany)
    (companyId : jsstring) : option ParticipantCompany :=
  find (fun c => str_eqb (c_id c) companyId) (rev companies).

(** The reports counted in the occurrences ranking. *)
Definition countedReports (reports : list ReportSubmission)
    : list ReportSubmission :=
  filter (fun r => negb (isHiddenLabel (r_reportLabel r))) reports.

(** The characters of a safe file name: lower-case letters, digits and
    the underscore. *)
Definition isSafeChar (c : N) : bool :=
  ((48 <=? c) && (c <=? 57) || (c =? 95) || (97 <=? c) && (c <=? 122))%N.

(** What the name of the occurrences report makes of a character of the
    label: lower-case letters, digits and the underscore stand, a capital
    letter is lowered, anything else is an underscore. *)
Definition safeChar (c : N) : N :=
  if ((48 <=? c) && (c <=? 57) || (c =? 95) || (97 <=? c) && (c <=? 122))%N
  then c
  else if ((65 <=? c) && (c <=? 90))%N then (c + 32)%N
  else 95%N.

(** The row of the occurrences PDF for a report: the booth, the question
    the dictionary owns for the label (the label without one) and the
    response, the staff member, the date. *)
Definition plainRow (toLocaleString : jsstring -> jsstring)
    (questionMap : Obj jsstring) (companyInfoMap : Obj CompanyInfo)
    (report : ReportSubmission) : list jsstring :=
  [ or_else (companyNameAt companyInfoMap (r_boothCode report))
            (r_boothCode report);
    or_else (lookup questionMap (r_reportLabel report)) (r_reportLabel report)
    ++ lit (String "010" (String "010" "")) ++ r_response report;
    r_staffName report;
    toLocaleString (r_timestamp report) ].

(** All the recipients of a list of logs, in order. *)
Definition allRecipients (logs : list AlertReport.AlertLog) : list Recipient :=
  flat_map AlertReport.l_recipients logs.

Definition recipientName (r : Recipient) : option jsstring :=
  Some (staffName r).

(** Every selected id is the id of a staff member of the selected
    department. *)
Definition selectionInDepartment (staffList : list Staff) (form : StaffForm)
    : Prop :=
  forall staffId, set_has (selectedStaffIds form) staffId = true ->
    exists d st,
      selectedDepartment form = Some d
      /\ In st staffList
      /\ s_id st = staffId
      /\ s_departmentId st = d_id d.

(** The message step has what a send needs: steps 2 and 3 have a
    department, step 3 has a selection. *)
Definition stepHasItsInputs (form : StaffForm) : Prop :=
  ((2 <= step form)%Z -> selectedDepartment form <> None)
  /\ (step form = 3%Z -> selectedStaffIds form <> []).

End MoreSpec.

(* ================================================================== *)
(** * Facts about the JavaScript operations *)
(* ================================================================== *)

Module JsFacts.
Import Js Spec.

Lemma str_eqb_eq (a b : jsstring) : str_eqb a b = true <-> a = b.
Proof.
  revert b. induction a as [|c a IH]; intros [|d b]; simpl;
    try (split; congruence).
  rewrite andb_true_iff, N.eqb_eq, IH. split.
  - intros [-> ->]. reflexivity.
  - intros [= -> ->]. auto.
Qed.

Lemma str_eqb_refl (a : jsstring) : str_eqb a a = true.
Proof. now apply str_eqb_eq. Qed.

Lemma str_eqb_neq (a b : jsstring) : str_eqb a b = false <-> a <> b.
Proof.
  rewrite <- str_eqb_eq. destruct (str_eqb a b); split; congruence.
Qed.

Lemma str_eqb_sym (a b : jsstring) : str_eqb a b = str_eqb b a.
Proof.
  destruct (str_eqb b a) eqn:E.
  - apply str_eqb_eq in E as ->. apply str_eqb_refl.
  - apply str_eqb_neq. apply str_eqb_neq in E. congruence.
Qed.

Lemma truthy_nil (s : jsstring) : truthy s = false <-> s = [].
Proof. destruct s; simpl; split; congruence. Qed.

Lemma startsWith_firstn (s p : jsstring) :
  startsWith s p = true <-> firstn (length p) s = p.
Proof.
  revert s. induction p as [|c p IH]; intros s; simpl.
  - split; reflexivity.
  - destruct s as [|d s]; simpl; [split; congruence|].
    rewrite andb_true_iff, N.eqb_eq, IH. split.
    + intros [-> ->]. reflexivity.
    + intros [= -> ->]. auto.
Qed.

Lemma startsWith_app (s p : jsstring) :
  startsWith s p = true <-> exists t, s = p ++ t.
Proof.
  rewrite startsWith_firstn. split.
  - intros H. exists (skipn (length p) s).
    rewrite <- H at 1. symmetry. apply firstn_skipn.
  - intros [t ->]. rewrite firstn_app, firstn_all, Nat.sub_diag. simpl.
    apply app_nil_r.
Qed.

Lemma endsWith_app (s p : jsstring) :
  endsWith s p = true <-> exists t, s = t ++ p.
Proof.
  unfold endsWith. rewrite startsWith_app. split.
  - intros [t H]. exists (rev t).
    rewrite <- (rev_involutive s), H, rev_app_distr, rev_involutive.
    reflexivity.
  - intros [t ->]. exists (rev t). apply rev_app_distr.
Qed.

(** ** trim *)

Lemma trimStart_blank (s : jsstring) :
  trimStart s = [] <-> forallb isWhiteSpace s = true.
Proof.
  induction s as [|c s IH]; simpl; [split; reflexivity|].
  destruct (isWhiteSpace c); simpl; [exact IH|]. split; discriminate.
Qed.

Lemma trimStart_nonblank (s : jsstring) :
  forallb isWhiteSpace s = false -> forallb isWhiteSpace (trimStart s) = false.
Proof.
  induction s as [|c s IH]; simpl; [auto|].
  destruct (isWhiteSpace c) eqn:E; simpl; [exact IH|].
  intros _. now rewrite E.
Qed.

Lemma forallb_rev {A} (f : A -> bool) (l : list A) :
  forallb f (rev l) = forallb f l.
Proof.
  induction l as [|x l IH]; simpl; [reflexivity|].
  rewrite forallb_app, IH. simpl. rewrite andb_true_r. apply andb_comm.
Qed.

(** [s.trim()] is the empty (falsy) string exactly when [s] holds nothing
    but white space. *)
Lemma trim_blank (s : jsstring) :
  truthy (trim s) = false <-> forallb isWhiteSpace s = true.
Proof.
  unfold trim, trimEnd. rewrite truthy_nil. split.
  - intros H. apply (f_equal (@rev N)) in H. rewrite rev_involutive in H.
    simpl in H. apply trimStart_blank in H. rewrite forallb_rev in H.
    destruct (forallb isWhiteSpace s) eqn:E; [reflexivity|].
    apply trimStart_nonblank in E. congruence.
  - intros H. apply trimStart_blank in H. now rewrite H.
Qed.

(** ** sort *)

Section SortFacts.
Context {A : Type} (cmp : A -> A -> Z).

Lemma insert_sorted_perm (x : A) (l : list A) :
  Permutation (insert_sorted cmp x l) (x :: l).
Proof.
  induction l as [|y l IH]; simpl; [reflexivity|].
  destruct (0 <? cmp x y)%Z; [|reflexivity].
  rewrite IH. apply perm_swap.
Qed.

Lemma sort_perm (l : list A) : Permutation (sort cmp l) l.
Proof.
  induction l as [|x l IH]; simpl; [reflexivity|].
  rewrite insert_sorted_perm. now constructor.
Qed.

Lemma sort_In (l : list A) (x : A) : In x (sort cmp l) <-> In x l.
Proof.
  split; apply Permutation_in; [|symmetry]; apply sort_perm.
Qed.

Lemma sort_length (l : list A) : length (sort cmp l) = length l.
Proof. apply Permutation_length, sort_perm. Qed.

(** With the comparator [(a, b) => key(b) - key(a)] the result is in
    descending order of the key. *)
Context (key : A -> Z) (cmp_key : forall a b, cmp a b = (key b - key a)%Z).

Lemma insert_sorted_desc (x : A) (l : list A) :
  sortedDesc key l -> sortedDesc key (insert_sorted cmp x l).
Proof.
  unfold sortedDesc. induction 1 as [|y l Hs IH Hy]; simpl.
  - repeat constructor.
  - rewrite cmp_key. destruct (0 <? key y - key x)%Z eqn:E.
    + apply Z.ltb_lt in E. constructor; [assumption|].
      apply Forall_forall. intros z Hz.
      apply (Permutation_in _ (insert_sorted_perm x l)) in Hz.
      destruct Hz as [<-|Hz]; [unfold desc; lia|].
      rewrite Forall_forall in Hy. now apply Hy.
    + apply Z.ltb_ge in E. constructor; [now constructor|].
      constructor; [unfold desc; lia|].
      eapply Forall_impl; [|exact Hy]. unfold desc. intros; lia.
Qed.

Lemma sort_desc (l : list A) : sortedDesc key (sort cmp l).
Proof.
  induction l as [|x l IH]; simpl; [constructor|].
  now apply insert_sorted_desc.
Qed.

End SortFacts.

(** ** Objects *)

Section ObjFacts.
Context {V : Type}.
Implicit Types (o : Obj V) (k : jsstring) (v : V).

Lemma get_set o k v k' :
  lookup (store o k v) k' = if str_eqb k k' then Some v else lookup o k'.
Proof.
  induction o as [|[k0 v0] o IH]; simpl.
  - now destruct (str_eqb k k').
  - destruct (str_eqb k0 k) eqn:E; simpl.
    + apply str_eqb_eq in E as ->. now destruct (str_eqb k k').
    + destruct (str_eqb k0 k') eqn:E'; [|exact IH].
      apply str_eqb_eq in E' as ->.
      destruct (str_eqb k k') eqn:E2; [|reflexivity].
      apply str_eqb_eq in E2 as ->. now rewrite str_eqb_refl in E.
Qed.

Lemma get_In o k v : lookup o k = Some v -> In (k, v) o.
Proof.
  induction o as [|[k0 v0] o IH]; simpl; [discriminate|].
  destruct (str_eqb k0 k) eqn:E.
  - apply str_eqb_eq in E as ->. intros [= ->]. now left.
  - intros H. right. now apply IH.
Qed.

Lemma get_None o k : lookup o k = None <-> ~ In k (map fst o).
Proof.
  induction o as [|[k0 v0] o IH]; simpl; [tauto|].
  destruct (str_eqb k0 k) eqn:E.
  - apply str_eqb_eq in E. split; [discriminate|]. intros H. destruct H.
    now left.
  - apply str_eqb_neq in E. rewrite IH. tauto.
Qed.

Lemma In_get o k v : uniqueKeys o -> In (k, v) o -> lookup o k = Some v.
Proof.
  unfold uniqueKeys. induction o as [|[k0 v0] o IH]; simpl; [tauto|].
  intros Hnd [H|H]; apply NoDup_cons_iff in Hnd as [Hk Hnd].
  - injection H as -> ->. now rewrite str_eqb_refl.
  - destruct (str_eqb k0 k) eqn:E; [|now apply IH].
    apply str_eqb_eq in E as ->. destruct Hk.
    apply in_map_iff. now exists (k, v).
Qed.

Lemma set_keys o k v :
  map fst (store o k v)
  = match lookup o k with Some _ => map fst o | None => map fst o ++ [k] end.
Proof.
  induction o as [|[k0 v0] o IH]; simpl; [reflexivity|].
  destruct (str_eqb k0 k) eqn:E; simpl; [reflexivity|].
  rewrite IH. now destruct (lookup o k).
Qed.

Lemma set_uniqueKeys o k v : uniqueKeys o -> uniqueKeys (store o k v).
Proof.
  unfold uniqueKeys. rewrite set_keys. intros H.
  destruct (lookup o k) eqn:E; [assumption|].
  apply get_None in E.
  apply (Permutation_NoDup (l := k :: map fst o)).
  - apply Permutation_cons_append.
  - now constructor.
Qed.

Lemma filter_split {A} (p : A -> bool) (l : list A) :
  Permutation (filter p l ++ filter (fun x => negb (p x)) l) l.
Proof.
  induction l as [|x l IH]; simpl; [reflexivity|].
  destruct (p x); simpl.
  - now constructor.
  - rewrite <- Permutation_middle. now constructor.
Qed.

Lemma entries_perm o : Permutation (entries o) o.
Proof.
  unfold entries. rewrite sort_perm. apply filter_split.
Qed.

Lemma entries_uniqueKeys o : uniqueKeys o -> uniqueKeys (entries o).
Proof.
  unfold uniqueKeys. intros H.
  eapply Permutation_NoDup; [|exact H].
  apply Permutation_map. symmetry. apply entries_perm.
Qed.

Lemma In_entries o k v :
  uniqueKeys o -> In (k, v) (entries o) <-> lookup o k = Some v.
Proof.
  intros Hu. split.
  - intros H. apply In_get; [assumption|].
    eapply Permutation_in; [apply entries_perm|assumption].
  - intros H. apply get_In in H.
    eapply Permutation_in; [symmetry; apply entries_perm|assumption].
Qed.

End ObjFacts.

(** ** Counting reductions *)

Lemma or_zero_Some (v : Z) : or_zero (Some v) = v.
Proof. simpl. destruct (v =? 0)%Z eqn:E; [|reflexivity]. lia. Qed.

Lemma fold_left_ext {A B} (f g : A -> B -> A) (l : list B) (a : A) :
  (forall a b, f a b = g a b) -> fold_left f l a = fold_left g l a.
Proof.
  intros H. revert a. induction l as [|b l IH]; intros a; simpl;
    [reflexivity|]. now rewrite H, IH.
Qed.

Section TallyFacts.
Context {A : Type} (key : A -> option jsstring).
Implicit Types (l : list A) (acc : Obj Z) (k : jsstring).

Lemma bump_get acc k k' :
  lookup (bump acc k) k'
  = if str_eqb k k' then Some (or_zero (lookup acc k) + 1)%Z else lookup acc k'.
Proof. apply get_set. Qed.

Lemma occurrences_cons x l k :
  occurrences key k (x :: l)
  = ((if hasKey key k x then 1 else 0) + occurrences key k l)%Z.
Proof.
  unfold occurrences. cbn [filter]. destruct (hasKey key k x); [|lia].
  cbn [length]. lia.
Qed.

Lemma occurrences_nonneg l k : (0 <= occurrences key k l)%Z.
Proof. unfold occurrences. lia. Qed.

Lemma tally_count l acc k :
  or_zero (lookup (tally key l acc) k)
  = (or_zero (lookup acc k) + occurrences key k l)%Z.
Proof.
  revert acc. induction l as [|x l IH]; intros acc.
  - unfold occurrences. simpl. lia.
  - rewrite occurrences_cons. unfold tally in *. simpl. rewrite IH.
    unfold hasKey. destruct (key x) as [k'|]; [|lia].
    rewrite bump_get. destruct (str_eqb k' k) eqn:E.
    + apply str_eqb_eq in E as ->. rewrite or_zero_Some. lia.
    + lia.
Qed.

Lemma tally_absent l acc k :
  lookup (tally key l acc) k = None
  <-> lookup acc k = None /\ occurrences key k l = 0%Z.
Proof.
  revert acc. induction l as [|x l IH]; intros acc.
  - unfold occurrences. simpl. tauto.
  - rewrite occurrences_cons. unfold tally in *. simpl. rewrite IH.
    pose proof (occurrences_nonneg l k).
    unfold hasKey. destruct (key x) as [k'|]; [|tauto].
    rewrite bump_get. destruct (str_eqb k' k) eqn:E.
    + split; [intros [? _]; discriminate|intros [_ ?]; lia].
    + tauto.
Qed.

Lemma tally_get l k :
  lookup (tally key l empty) k
  = if (occurrences key k l =? 0)%Z then None
    else Some (occurrences key k l).
Proof.
  pose proof (tally_count l empty k) as Hc.
  pose proof (tally_absent l empty k) as Ha.
  simpl in Hc.
  destruct (lookup (tally key l empty) k) as [v|] eqn:E.
  - rewrite or_zero_Some in Hc. subst v.
    destruct (occurrences key k l =? 0)%Z eqn:E0; [|reflexivity].
    apply Z.eqb_eq in E0.
    assert (Some (occurrences key k l) = None) as H by (apply Ha; auto).
    discriminate.
  - destruct Ha as [Ha _]. destruct (Ha eq_refl) as [_ ->]. reflexivity.
Qed.

Lemma tally_uniqueKeys l acc :
  uniqueKeys acc -> uniqueKeys (tally key l acc).
Proof.
  revert acc. induction l as [|x l IH]; intros acc H; [exact H|].
  unfold tally in *. simpl. apply IH.
  destruct (key x); [|exact H]. now apply set_uniqueKeys.
Qed.

Lemma In_keysOf l k :
  In k (keysOf key l) <-> (0 < occurrences key k l)%Z.
Proof.
  induction l as [|x l IH].
  - unfold occurrences. simpl. lia.
  - rewrite occurrences_cons. pose proof (occurrences_nonneg l k).
    unfold keysOf in *. simpl. rewrite in_app_iff, IH.
    unfold hasKey. destruct (key x) as [k'|]; simpl.
    + destruct (str_eqb k' k) eqn:E.
      * apply str_eqb_eq in E. split; [lia|auto].
      * apply str_eqb_neq in E. split; [intros [[?|[]]|?]|]; try tauto; lia.
    + split; [intros [[]|?]|]; try tauto; lia.
Qed.

(** The entries of a tally: one per distinct key, with the number of
    elements that have the key. *)
Lemma tally_entries l :
  Permutation (entries (tally key l empty))
              (map (fun k => (k, occurrences key k l)) (distinctKeys key l)).
Proof.
  assert (Hu : uniqueKeys (tally key l empty)).
  { apply tally_uniqueKeys. constructor. }
  apply NoDup_Permutation.
  - apply (NoDup_map_inv fst). now apply entries_uniqueKeys.
  - apply (NoDup_map_inv fst). rewrite map_map. simpl. rewrite map_id.
    apply NoDup_nodup.
  - intros [k v]. rewrite In_entries by assumption. rewrite tally_get.
    rewrite in_map_iff. unfold distinctKeys. split.
    + destruct (occurrences key k l =? 0)%Z eqn:E; [discriminate|].
      intros [= <-]. exists k. split; [reflexivity|].
      apply nodup_In, In_keysOf. apply Z.eqb_neq in E.
      pose proof (occurrences_nonneg l k). lia.
    + intros [k' [[= -> <-] H]]. apply nodup_In, In_keysOf in H.
      destruct (occurrences key k l =? 0)%Z eqn:E; [|reflexivity].
      apply Z.eqb_eq in E. lia.
Qed.

End TallyFacts.

(** ** Sums *)

Lemma total_app {A} (f : A -> Z) (l1 l2 : list A) :
  total f (l1 ++ l2) = (total f l1 + total f l2)%Z.
Proof.
  induction l1 as [|x l1 IH]; simpl; [reflexivity|]. rewrite IH. lia.
Qed.

Lemma total_perm {A} (f : A -> Z) (l1 l2 : list A) :
  Permutation l1 l2 -> total f l1 = total f l2.
Proof.
  induction 1; simpl; lia.
Qed.

Lemma total_map {A B} (g : A -> B) (f : B -> Z) (l : list A) :
  total f (map g l) = total (fun x => f (g x)) l.
Proof.
  induction l as [|x l IH]; simpl; [reflexivity|]. now rewrite IH.
Qed.

Lemma total_filter_le {A} (f : A -> Z) (p : A -> bool) (l : list A) :
  (forall x, In x l -> 0 <= f x)%Z -> (total f (filter p l) <= total f l)%Z.
Proof.
  induction l as [|x l IH]; simpl; intros H; [lia|].
  assert (0 <= f x)%Z by (apply H; auto).
  assert (total f (filter p l) <= total f l)%Z by (apply IH; auto).
  destruct (p x); simpl; lia.
Qed.

(** Assigning to a key changes the sum of a field by the difference
    between the new value and the one replaced. *)
Lemma total_set {V} (g : V -> Z) (o : Obj V) (k : jsstring) (v : V) :
  total (fun e => g (snd e)) (store o k v)
  = (total (fun e => g (snd e)) o + g v
     - match lookup o k with Some v0 => g v0 | None => 0 end)%Z.
Proof.
  induction o as [|[k0 v0] o IH]; simpl; [lia|].
  destruct (str_eqb k0 k); simpl; [lia|]. rewrite IH. lia.
Qed.

(** ** Reads and assignments under keys that are no inherited names *)

Lemma protoKey_inherited : isInherited protoKey = true.
Proof. reflexivity. Qed.

Lemma plain_not_protoKey (k : jsstring) :
  isInherited k = false -> str_eqb k protoKey = false.
Proof.
  intros H. destruct (str_eqb k protoKey) eqn:E; [|reflexivity].
  apply str_eqb_eq in E. subst k. now rewrite protoKey_inherited in H.
Qed.

Lemma get_plain {V} (o : Obj V) (k : jsstring) :
  isInherited k = false ->
  get o k = match lookup o k with Some v => Own v | None => Undefined end.
Proof. intros H. unfold get. now rewrite H. Qed.

Lemma get_own {V} (o : Obj V) (k : jsstring) (v : V) :
  lookup o k = Some v -> get o k = Own v.
Proof. intros H. unfold get. now rewrite H. Qed.

Lemma set_plain {V} (o : Obj V) (k : jsstring) (v : V) :
  isInherited k = false -> set o k v = store o k v.
Proof.
  intros H. unfold set. rewrite (plain_not_protoKey k H).
  now destruct (lookup o k).
Qed.

Lemma setObject_plain {V} (o : Obj V) (k : jsstring) (v : V) :
  isInherited k = false -> setObject o k v = Some (store o k v).
Proof.
  intros H. unfold setObject. rewrite (plain_not_protoKey k H).
  now destruct (lookup o k).
Qed.

(** Closes [~ In protoKey keys] for a list of given keys. *)
Ltac no_proto :=
  let H := fresh in intros H; vm_compute in H; intuition discriminate.

Lemma plainKeys_noProto (keys : list jsstring) :
  plainKeys keys -> ~ In protoKey keys.
Proof.
  unfold plainKeys. rewrite Forall_forall. intros H Hin.
  specialize (H _ Hin). now rewrite protoKey_inherited in H.
Qed.

(** Under any key but [__proto__] the assignment of an object makes or
    updates a property: the other inherited names are shadowed. *)
Lemma setObject_other {V} (o : Obj V) (k : jsstring) (v : V) :
  k <> protoKey -> setObject o k v = Some (store o k v).
Proof.
  intros H. unfold setObject. apply str_eqb_neq in H. rewrite H.
  now destruct (lookup o k).
Qed.

(** A fold of object assignments, none under [__proto__], is the fold of
    the stores. *)
Lemma fold_setObject_other {A V} (kf : A -> jsstring) (vf : A -> V)
    (l : list A) (acc : Obj V) :
  ~ In protoKey (map kf l) ->
  fold_left (fun acc x => match acc with
                          | Some o => setObject o (kf x) (vf x)
                          | None => None
                          end) l (Some acc)
  = Some (fold_left (fun o x => store o (kf x) (vf x)) l acc).
Proof.
  revert acc. induction l as [|x l IH]; intros acc Hp; [reflexivity|].
  cbn [fold_left]. rewrite (setObject_other acc (kf x) (vf x)).
  - apply IH. intros H. apply Hp. now right.
  - intros E. apply Hp. left. exact E.
Qed.

Lemma fold_set_plain {A V} (kf : A -> jsstring) (vf : A -> V)
    (l : list A) (acc : Obj V) :
  plainKeys (map kf l) ->
  fold_left (fun o x => set o (kf x) (vf x)) l acc
  = fold_left (fun o x => store o (kf x) (vf x)) l acc.
Proof.
  revert acc. induction l as [|x l IH]; intros acc Hp; [reflexivity|].
  apply Forall_cons_iff in Hp as [Hx Hp]. cbn [fold_left].
  rewrite (set_plain acc (kf x) (vf x) Hx). now apply IH.
Qed.

(** ** Counting under such keys *)

Lemma lookup_asCounts (o : Obj Z) (k : jsstring) :
  lookup (asCounts o) k = option_map Number (lookup o k).
Proof.
  induction o as [|[k0 n] o IH]; [reflexivity|].
  cbn. destruct (str_eqb k0 k); [reflexivity|exact IH].
Qed.

Lemma store_asCounts (o : Obj Z) (k : jsstring) (n : Z) :
  store (asCounts o) k (Number n) = asCounts (store o k n).
Proof.
  induction o as [|[k0 n0] o IH]; [reflexivity|].
  cbn. destruct (str_eqb k0 k); [reflexivity|]. cbn. f_equal. exact IH.
Qed.

Lemma countUp_asCounts (o : Obj Z) (k : jsstring) :
  isInherited k = false -> countUp (asCounts o) k = asCounts (bump o k).
Proof.
  intros H. unfold countUp, bump.
  rewrite (set_plain _ _ _ H), (get_plain _ _ H), lookup_asCounts.
  destruct (lookup o k) as [n|]; cbn [option_map plusOne].
  - now rewrite or_zero_Some, store_asCounts.
  - apply store_asCounts.
Qed.

Lemma tally_asCounts {A} (key : A -> option jsstring) (l : list A)
    (acc : Obj Z) :
  plainKeys (keysOf key l) ->
  fold_left (fun acc x => match key x with
                          | Some k => countUp acc k
                          | None => acc
                          end) l (asCounts acc)
  = asCounts (tally key l acc).
Proof.
  revert acc. induction l as [|x l IH]; intros acc Hp; [reflexivity|].
  unfold keysOf in Hp. cbn [flat_map] in Hp.
  apply Forall_app in Hp as [Hx Hp].
  unfold tally. cbn [fold_left]. destruct (key x) as [k|].
  - apply Forall_cons_iff in Hx as [Hk _].
    rewrite (countUp_asCounts acc k Hk). now apply IH.
  - now apply IH.
Qed.

Lemma filter_asCounts (p : jsstring * Z -> bool)
    (q : jsstring * Count -> bool) (o : Obj Z) :
  (forall e, q (fst e, Number (snd e)) = p e) ->
  filter q (asCounts o) = asCounts (filter p o).
Proof.
  intros H. induction o as [|e o IH]; [reflexivity|].
  cbn [asCounts map filter]. fold (asCounts o). rewrite H, IH.
  now destruct (p e).
Qed.

Lemma insert_sorted_asCounts (cmp : jsstring * Z -> jsstring * Z -> Z)
    (cmp' : jsstring * Count -> jsstring * Count -> Z)
    (e : jsstring * Z) (l : list (jsstring * Z)) :
  (forall a b, cmp' (fst a, Number (snd a)) (fst b, Number (snd b)) = cmp a b) ->
  insert_sorted cmp' (fst e, Number (snd e)) (asCounts l)
  = asCounts (insert_sorted cmp e l).
Proof.
  intros H. induction l as [|y l IH]; [reflexivity|].
  cbn [asCounts map insert_sorted]. fold (asCounts l). rewrite H.
  destruct (0 <? cmp e y)%Z; [|reflexivity].
  cbn [map]. fold (asCounts (insert_sorted cmp e l)). now rewrite IH.
Qed.

Lemma sort_asCounts (cmp : jsstring * Z -> jsstring * Z -> Z)
    (cmp' : jsstring * Count -> jsstring * Count -> Z)
    (l : list (jsstring * Z)) :
  (forall a b, cmp' (fst a, Number (snd a)) (fst b, Number (snd b)) = cmp a b) ->
  sort cmp' (asCounts l) = asCounts (sort cmp l).
Proof.
  intros H. induction l as [|e l IH]; [reflexivity|].
  cbn [asCounts map sort]. fold (asCounts l). rewrite IH.
  now apply insert_sorted_asCounts.
Qed.

Lemma entries_asCounts (o : Obj Z) :
  entries (asCounts o) = asCounts (entries o).
Proof.
  unfold entries, asCounts at 3. rewrite map_app. f_equal.
  - rewrite (filter_asCounts isIndexKey isIndexKey) by reflexivity.
    now apply sort_asCounts.
  - now apply filter_asCounts.
Qed.

Lemma numbers_asCounts (l : list (jsstring * Z)) :
  numbers (asCounts l) = Some l.
Proof.
  induction l as [|[k n] l IH]; [reflexivity|]. cbn. fold (asCounts l).
  now rewrite IH.
Qed.

(** The entries of a counting dictionary that saw no inherited name. *)
Lemma numbers_entries_asCounts (o : Obj Z) :
  numbers (entries (asCounts o)) = Some (entries o).
Proof. rewrite entries_asCounts. apply numbers_asCounts. Qed.

(** ** Counting under any key

    Whatever the keys are, the numbers of a counting dictionary add up to
    no more than the number of times it counted. *)
Lemma countUp_total (o : Obj Count) (k : jsstring) :
  (total (fun e => numberOf (snd e)) (countUp o k)
   <= total (fun e => numberOf (snd e)) o + 1)%Z.
Proof.
  unfold countUp, set, get.
  destruct (lookup o k) as [c|] eqn:E.
  - rewrite (total_set numberOf), E. destruct c; cbn; lia.
  - destruct (isInherited k); cbn [plusOne].
    + destruct (str_eqb k protoKey); [lia|].
      rewrite (total_set numberOf), E. cbn. lia.
    + destruct (str_eqb k protoKey); [lia|].
      rewrite (total_set numberOf), E. cbn. lia.
Qed.

Lemma numbers_total (es : list (jsstring * Count)) (l : list (jsstring * Z)) :
  numbers es = Some l ->
  total snd l = total (fun e => numberOf (snd e)) es.
Proof.
  revert l. induction es as [|[k c] es IH]; intros l H.
  - injection H as <-. reflexivity.
  - cbn in H. destruct c as [n|]; [|discriminate].
    destruct (numbers es) as [l'|]; [|discriminate].
    injection H as <-. cbn [total fold_right snd numberOf].
    f_equal. exact (IH l' eq_refl).
Qed.

End JsFacts.

(* ================================================================== *)
(** * The rankings *)
(* ================================================================== *)

Module RankingFacts.
Import Js Spec JsFacts Ranking.

(** ** The date filter *)


Lemma filter_ext_all {A} (f g : A -> bool) (l : list A) :
  (forall x, f x = g x) -> filter f l = filter g l.
Proof. intros H. apply filter_ext_in. auto. Qed.



(** ** Dictionaries built by assignments from the empty object *)



(** The last assignment to a key is the one read back. *)
Lemma fold_set_find {A V} (kf : A -> jsstring) (vf : A -> V) (l : list A)
    (acc : Obj V) (k : jsstring) :
  lookup (fold_left (fun acc x => store acc (kf x) (vf x)) l acc) k
  = match find (fun x => str_eqb (kf x) k) (rev l) with
    | Some x => Some (vf x)
    | None => lookup acc k
    end.
Proof.
  induction l as [|x l IH] using rev_ind; simpl; [reflexivity|].
  rewrite fold_left_app, rev_app_distr. simpl.
  rewrite get_set. destruct (str_eqb (kf x) k); [reflexivity|exact IH].
Qed.

Lemma dictOf_keys {A V} (kf : A -> jsstring) (vf : A -> V) (l : list A)
    (k : jsstring) :
  In k (map fst (dictOf kf vf l)) -> In k (map kf l).
Proof.
  intros H. destruct (lookup (dictOf kf vf l) k) as [v|] eqn:E.
  - unfold dictOf in E. rewrite fold_set_find in E.
    destruct (find _ (rev l)) as [x|] eqn:Ef; [|discriminate].
    apply find_some in Ef as [Hx Hk]. apply str_eqb_eq in Hk as <-.
    apply in_map. now apply in_rev.
  - apply get_None in E. contradiction.
Qed.




(** ** The activities *)

Lemma noProto_combine (staffData : list Staff)
    (activitiesData : list (list StaffActivity)) :
  ~ In protoKey (map s_id staffData) ->
  ~ In protoKey (map (fun sa => s_id (fst sa))
                     (combine staffData activitiesData)).
Proof.
  intros H Hk. apply H.
  apply in_map_iff in Hk as [[s acts] [<- Hin]].
  apply in_map. now apply in_combine_l in Hin.
Qed.

(** With no staff id [__proto__], the dictionary of the activities holds,
    under each fetched id, the activities fetched last for it. *)
Lemma activitiesMap_plain staffData activitiesData :
  ~ In protoKey (map s_id staffData) ->
  activitiesMap staffData activitiesData
  = Some (dictOf (fun sa => s_id (fst sa)) snd
                 (combine staffData activitiesData)).
Proof.
  intros H. unfold activitiesMap, dictOf.
  apply (fold_setObject_other (fun sa : Staff * list StaffActivity =>
                                 s_id (fst sa)) snd).
  now apply noProto_combine.
Qed.




(** Under an id that is no inherited name the count is the length of the
    list the dictionary holds, and 0 when it holds none. *)
Lemma activityCount_plain activities s :
  isInherited (s_id s) = false ->
  activityCount activities s = Z.of_nat (length (activitiesOf activities s)).
Proof.
  intros H. unfold activityCount, activitiesOf. rewrite (get_plain _ _ H).
  now destruct (lookup activities (s_id s)).
Qed.




(** C4. A staff member whose id is [__proto__], fetched with an activity
    of May 1st. Under any other id [fetchData] keeps the activities in
    the dictionary, and the date filter those of the day. Under this id
    the assignment replaces the prototype of the dictionary and keeps no
    property: there is no dictionary of the activities for the filter to
    go through, its loop runs on the indices the object now inherits from
    the array, and finds there an activity where it expects a list. *)
Lemma date_filter_with_a_staff_id_proto :
  let fetched := [[Samples.activity "2024-05-01T10:00:00.000Z"]] in
  activitiesMap [Samples.ana] fetched
  = Some [(lit "s1", [Samples.activity "2024-05-01T10:00:00.000Z"])]
  /\ option_map (fun activities =>
                   filteredActivities activities Samples.may1)
                (activitiesMap [Samples.ana] fetched)
     = Some (Some [(lit "s1",
                    [Samples.activity "2024-05-01T10:00:00.000Z"])])
  /\ s_id Samples.dunder = protoKey
  /\ activitiesMap [Samples.dunder] fetched = None.
Proof. repeat split. Qed.

(** ** Shape of the rankings *)


Lemma keysOf_sub {A} (key : A -> option jsstring) (f : A -> jsstring)
    (l : list A) :
  (forall x k, key x = Some k -> k = f x) ->
  plainKeys (map f l) -> plainKeys (keysOf key l).
Proof.
  intros Hk. unfold plainKeys, keysOf. rewrite !Forall_forall.
  intros H k Hin. apply in_flat_map in Hin as [x [Hx Hin]].
  destruct (key x) as [k'|] eqn:E; [|destruct Hin].
  destruct Hin as [<-|[]]. rewrite (Hk x k' E). apply H. now apply in_map.
Qed.

Lemma distinctKeys_plain {A} (key : A -> option jsstring) (l : list A)
    (k : jsstring) :
  plainKeys (keysOf key l) -> In k (distinctKeys key l) ->
  isInherited k = false.
Proof.
  unfold plainKeys, distinctKeys. rewrite Forall_forall. intros H Hin.
  apply H. now apply nodup_In in Hin.
Qed.

(** With no company booth code [__proto__], the dictionary of the
    companies holds, under each booth code, the company listed last with
    it. *)
Lemma companyInfoMap_plain companies :
  ~ In protoKey (map c_boothCode companies) ->
  companyInfoMap companies = Some (dictOf c_boothCode companyInfoOf companies).
Proof.
  intros H. unfold companyInfoMap, dictOf.
  now apply (fold_setObject_other c_boothCode companyInfoOf).
Qed.

Lemma companyInfo_lookup companies boothCode :
  lookup (dictOf c_boothCode companyInfoOf companies) boothCode
  = option_map companyInfoOf (companyAt companies boothCode).
Proof.
  unfold dictOf, companyAt. rewrite (fold_set_find c_boothCode companyInfoOf).
  now destruct (find _ _).
Qed.

(** The label and the logo of a booth code that is no inherited name. *)
Lemma visitsLabel_plain companies boothCode :
  isInherited boothCode = false ->
  or_else (companyNameAt (dictOf c_boothCode companyInfoOf companies)
                         boothCode) boothCode
  = match companyAt companies boothCode with
    | Some c => if truthy (c_name c) then c_name c else boothCode
    | None => boothCode
    end
  /\ companyLogoAt (dictOf c_boothCode companyInfoOf companies) boothCode
     = match companyAt companies boothCode with
       | Some c => c_logoUrl c
       | None => None
       end.
Proof.
  intros H. unfold companyNameAt, companyLogoAt.
  rewrite (get_plain _ _ H), companyInfo_lookup.
  now destruct (companyAt companies boothCode).
Qed.

Lemma visitsCounts_tally shown :
  plainKeys (map r_boothCode shown) ->
  visitsCounts shown = asCounts (tally boothOf shown empty).
Proof.
  intros H. apply (tally_asCounts boothOf shown empty).
  apply (keysOf_sub boothOf r_boothCode); [|exact H].
  now intros r k [= <-].
Qed.

Lemma occurrencesCounts_tally shown :
  plainKeys (map r_reportLabel shown) ->
  occurrencesCounts shown = asCounts (tally countedLabel shown empty).
Proof.
  intros H. unfold occurrencesCounts.
  rewrite <- (tally_asCounts countedLabel shown empty).
  - apply fold_left_ext. intros acc r. unfold countedLabel.
    now destruct (isHiddenLabel (r_reportLabel r)).
  - apply (keysOf_sub countedLabel r_reportLabel); [|exact H].
    intros r k. unfold countedLabel.
    destruct (isHiddenLabel (r_reportLabel r)); [discriminate|].
    now intros [= <-].
Qed.

Lemma salesByCompany_tally sales :
  plainKeys (keysOf countedCompany sales) ->
  salesByCompany sales = asCounts (tally countedCompany sales empty).
Proof.
  intros H. unfold salesByCompany.
  rewrite <- (tally_asCounts countedCompany sales empty H).
  apply fold_left_ext. intros acc s. unfold countedCompany.
  destruct (companyIdOf s) as [i|]; [|reflexivity].
  now destruct (truthy i).
Qed.

Lemma byValueDesc_key a b : byValueDesc a b = (value b - value a)%Z.
Proof. reflexivity. Qed.

(** The visits ranking of reports whose booth codes are no inherited
    names. *)
Lemma visitsData_plain shown companyInfoMap :
  plainKeys (map r_boothCode shown) ->
  visitsData shown companyInfoMap
  = Some (sort byValueDesc
            (map (fun e =>
                    {| label := or_else (companyNameAt companyInfoMap (fst e))
                                        (fst e);
                       value := snd e;
                       logoUrl := companyLogoAt companyInfoMap (fst e) |})
                 (entries (tally boothOf shown empty)))).
Proof.
  intros H. unfold visitsData. cbv zeta.
  now rewrite (visitsCounts_tally shown H), numbers_entries_asCounts.
Qed.

(** The occurrences ranking of reports whose labels are no inherited
    names. *)
Lemma occurrencesData_plain shown :
  plainKeys (map r_reportLabel shown) ->
  occurrencesData shown
  = Some (sort byValueDesc
            (map (fun e => {| label := fst e; value := snd e;
                              logoUrl := None |})
                 (entries (tally countedLabel shown empty)))).
Proof.
  intros H. unfold occurrencesData. cbv zeta.
  now rewrite (occurrencesCounts_tally shown H), numbers_entries_asCounts.
Qed.

Lemma occurrences_countedLabel l shown :
  occurrences countedLabel l shown
  = if isHiddenLabel l then 0%Z else Z.of_nat (length (labelled l shown)).
Proof.
  unfold occurrences, labelled.
  destruct (isHiddenLabel l) eqn:Hl.
  - replace (filter (hasKey countedLabel l) shown) with (@nil ReportSubmission);
      [reflexivity|].
    symmetry. induction shown as [|r shown IH]; simpl; [reflexivity|].
    unfold hasKey at 1, countedLabel.
    destruct (isHiddenLabel (r_reportLabel r)) eqn:Hr; [exact IH|].
    destruct (str_eqb (r_reportLabel r) l) eqn:E; [|exact IH].
    apply str_eqb_eq in E. congruence.
  - do 2 f_equal. apply filter_ext_all. intros r.
    unfold hasKey, countedLabel.
    destruct (isHiddenLabel (r_reportLabel r)) eqn:Hr; [|reflexivity].
    symmetry. apply str_eqb_neq. congruence.
Qed.

(** C3, as amended. When no booth code of the reports shown is a name
    objects inherit and no booth code of a company is [__proto__]: the
    visits ranking has one group per booth code of the date-filtered
    reports, counting one per report; a group is labelled with the name of
    the participant company of that booth code (the last one listed with
    it), and with the booth code itself when no company has that booth
    code or when the name of the company is empty; the groups come in
    descending order of count. *)
Theorem visits_ranking_groups_by_booth
    (reports : list ReportSubmission) (companies : list ParticipantCompany)
    (dateFilter : jsstring) :
  let shown := filteredReports reports dateFilter in
  let group boothCode :=
    {| label := match companyAt companies boothCode with
                | Some c => if truthy (c_name c) then c_name c else boothCode
                | None => boothCode
                end;
       value := occurrences boothOf boothCode shown;
       logoUrl := match companyAt companies boothCode with
                  | Some c => c_logoUrl c
                  | None => None
                  end |} in
  plainKeys (map r_boothCode shown) ->
  ~ In protoKey (map c_boothCode companies) ->
  exists companyInfo ranking,
    companyInfoMap companies = Some companyInfo
    /\ visitsData shown companyInfo = Some ranking
    /\ sortedDesc value ranking
    /\ Permutation ranking (map group (distinctKeys boothOf shown)).
Proof.
  intros shown group Hr Hc. eexists. eexists.
  split; [now apply companyInfoMap_plain|].
  split; [now apply visitsData_plain|].
  split; [apply (sort_desc byValueDesc value byValueDesc_key)|].
  rewrite sort_perm, tally_entries, map_map.
  erewrite map_ext_in; [reflexivity|].
  intros b Hb. unfold group. cbn [fst snd].
  assert (Hplain : isInherited b = false).
  { apply (distinctKeys_plain boothOf shown); [|exact Hb].
    apply (keysOf_sub boothOf r_boothCode); [|exact Hr].
    now intros r k [= <-]. }
  destruct (visitsLabel_plain companies b Hplain) as [-> ->]. reflexivity.
Qed.

(** The occurrences ranking of reports whose labels are no names objects
    inherit leaves out every report whose label both starts and ends with
    [__]; every other label is listed once, with the number of
    (date-filtered) reports that bear it, in descending order of count. *)
Theorem occurrences_ranking_skips_hidden_labels
    (reports : list ReportSubmission) (dateFilter : jsstring) :
  let shown := filteredReports reports dateFilter in
  plainKeys (map r_reportLabel shown) ->
  exists ranking,
    occurrencesData shown = Some ranking
    /\ sortedDesc value ranking
    /\ NoDup (map label ranking)
    /\ (forall item, In item ranking ->
          (startsWith (label item) (lit "__")
           && endsWith (label item) (lit "__") = false)
          /\ value item = Z.of_nat (length (labelled (label item) shown))
          /\ (0 < value item)%Z)
    /\ (forall r, In r shown ->
          if startsWith (r_reportLabel r) (lit "__")
             && endsWith (r_reportLabel r) (lit "__")
          then ~ In (r_reportLabel r) (map label ranking)
          else In {| label := r_reportLabel r;
                     value := Z.of_nat
                                (length (labelled (r_reportLabel r) shown));
                     logoUrl := None |} ranking).
Proof.
  intros shown Hplain. eexists.
  split; [now apply occurrencesData_plain|].
  set (ranking := sort byValueDesc _).
  assert (Hperm : Permutation ranking
            (map (fun l => {| label := l;
                              value := occurrences countedLabel l shown;
                              logoUrl := None |})
                 (distinctKeys countedLabel shown))).
  { unfold ranking. rewrite sort_perm.
    rewrite tally_entries, map_map. reflexivity. }
  assert (Hin : forall item, In item ranking <->
            exists l, item = {| label := l;
                                value := occurrences countedLabel l shown;
                                logoUrl := None |}
                      /\ (0 < occurrences countedLabel l shown)%Z).
  { intros item. split.
    - intros H. apply (Permutation_in _ Hperm) in H.
      apply in_map_iff in H as [l [<- H]]. exists l. split; [reflexivity|].
      apply nodup_In in H. now apply In_keysOf in H.
    - intros [l [-> H]]. apply (Permutation_in _ (Permutation_sym Hperm)).
      apply in_map_iff. exists l. split; [reflexivity|].
      apply nodup_In. now apply In_keysOf. }
  split; [apply (sort_desc byValueDesc value byValueDesc_key)|].
  split.
  { eapply Permutation_NoDup.
    - symmetry. apply Permutation_map. exact Hperm.
    - rewrite map_map. simpl. rewrite map_id. apply NoDup_nodup. }
  split.
  - intros item H. apply Hin in H as [l [-> H]]. cbn [label value].
    rewrite occurrences_countedLabel in *. fold (isHiddenLabel l).
    destruct (isHiddenLabel l); [lia|]. auto.
  - intros r Hr. fold (isHiddenLabel (r_reportLabel r)).
    destruct (isHiddenLabel (r_reportLabel r)) eqn:Hl.
    + intros H. apply in_map_iff in H as [item [Hlab H]].
      apply Hin in H as [l [-> H]]. cbn [label] in Hlab. subst l.
      rewrite occurrences_countedLabel, Hl in H. lia.
    + apply Hin. exists (r_reportLabel r).
      rewrite occurrences_countedLabel, Hl. split; [reflexivity|].
      assert (In r (labelled (r_reportLabel r) shown)) as H.
      { apply filter_In. split; [assumption|apply str_eqb_refl]. }
      destruct (labelled (r_reportLabel r) shown); [destruct H|].
      cbn [length]. lia.
Qed.

(** C8. Two reports bear the label [toString] and one the label
    [Visita]. The count kept under [toString] is not the number 2: the
    first report finds the method every object inherits under that name,
    [|| 0] keeps it and [+ 1] makes a string of it; the second appends to
    the string. With a string among the counts the order of the ranking is
    no longer by count. *)
Lemma occurrences_count_of_an_inherited_label :
  let shown := filteredReports Samples.reportsAboutToString [] in
  length (labelled (lit "toString") shown) = 2%nat
  /\ isHiddenLabel (lit "toString") = false
  /\ occurrencesCounts shown
     = [(lit "toString", Text); (lit "Visita", Number 1)]
  /\ lookup (occurrencesCounts shown) (lit "toString") <> Some (Number 2)
  /\ occurrencesData shown = None.
Proof. repeat split. discriminate. Qed.

(** ** The staff-activity ranking *)

Lemma combine_key_unique (staffData : list Staff)
    (activitiesData : list (list StaffActivity)) x y :
  NoDup (map s_id staffData) ->
  In x (combine staffData activitiesData) ->
  In y (combine staffData activitiesData) ->
  s_id (fst x) = s_id (fst y) -> x = y.
Proof.
  revert activitiesData.
  induction staffData as [|s sd IH]; intros [|a ad] Hnd Hx Hy E;
    try (now destruct Hx).
  cbn [map] in Hnd. apply NoDup_cons_iff in Hnd as [Hs Hnd].
  assert (Hkey : forall z, In z (combine sd ad) -> s_id (fst z) <> s_id s).
  { intros [s' a'] Hz Ez. apply in_combine_l in Hz. apply Hs.
    cbn [fst] in Ez. rewrite <- Ez. now apply in_map. }
  destruct Hx as [<-|Hx], Hy as [<-|Hy].
  - reflexivity.
  - cbn [fst] in E. symmetry in E. now destruct (Hkey y Hy).
  - cbn [fst] in E. now destruct (Hkey x Hx).
  - now apply (IH ad).
Qed.

(** With ids that are all different, the dictionary holds for each fetched
    staff member the activities fetched for that member. *)
Lemma fetched_lookup (staffData : list Staff)
    (activitiesData : list (list StaffActivity)) sa :
  NoDup (map s_id staffData) ->
  In sa (combine staffData activitiesData) ->
  lookup (dictOf (fun sa => s_id (fst sa)) snd
                 (combine staffData activitiesData)) (s_id (fst sa))
  = Some (snd sa).
Proof.
  intros Hnd Hin. unfold dictOf.
  rewrite (fold_set_find (fun sa : Staff * list StaffActivity =>
                            s_id (fst sa)) snd).
  destruct (find _ (rev (combine staffData activitiesData))) as [sa'|] eqn:Ef.
  - apply find_some in Ef as [Hin' Hk]. apply str_eqb_eq in Hk.
    apply in_rev in Hin'.
    now rewrite (combine_key_unique staffData activitiesData sa' sa Hnd Hin' Hin Hk).
  - exfalso. apply in_rev in Hin.
    pose proof (find_none _ _ Ef sa Hin) as H. cbv beta in H.
    now rewrite str_eqb_refl in H.
Qed.


(** ** Sales *)

Lemma keysOf_length {A} (key : A -> option jsstring) (l : list A) :
  length (keysOf key l) = length (filter (fun x => isSome (key x)) l).
Proof.
  induction l as [|x l IH]; simpl; [reflexivity|].
  rewrite length_app, IH. now destruct (key x).
Qed.

(** Each counted element adds one to the sum of the counts. *)
Lemma tally_total {A} (key : A -> option jsstring) (l : list A)
    (acc : Obj Z) :
  total snd (tally key l acc)
  = (total snd acc
     + Z.of_nat (length (filter (fun x => isSome (key x)) l)))%Z.
Proof.
  revert acc. induction l as [|x l IH]; intros acc; [simpl; lia|].
  unfold tally in *. cbn [fold_left filter]. rewrite IH.
  destruct (key x) as [k|]; cbn [isSome]; [|lia].
  unfold bump. pose proof (total_set (fun v => v) acc k) as Hset.
  cbv beta in Hset. change (fun e : jsstring * Z => snd e) with (@snd jsstring Z) in Hset.
  rewrite Hset. cbn [length]. destruct (lookup acc k) as [v|].
  - rewrite or_zero_Some. lia.
  - simpl or_zero. lia.
Qed.

(** Whatever the company ids are, the numbers of the dictionary add up to
    no more than the number of sales that have a company id. *)
Lemma salesByCompany_total_le sales :
  (total (fun e => numberOf (snd e)) (salesByCompany sales)
   <= Z.of_nat (length (filter (fun s => isSome (countedCompany s)) sales)))%Z.
Proof.
  unfold salesByCompany.
  assert (H : forall acc,
    (total (fun e => numberOf (snd e))
       (fold_left (fun acc sale =>
                     match companyIdOf sale with
                     | Some companyId =>
                         if truthy companyId then countUp acc companyId else acc
                     | None => acc
                     end) sales acc)
     <= total (fun e => numberOf (snd e)) acc
        + Z.of_nat (length (filter (fun s => isSome (countedCompany s))
                                   sales)))%Z).
  { induction sales as [|s sales IH]; intros acc; [simpl; lia|].
    cbn [fold_left filter]. etransitivity; [apply IH|].
    unfold countedCompany at 2.
    destruct (companyIdOf s) as [i|]; cbn [isSome]; [|lia].
    destruct (truthy i); cbn [isSome length]; [|lia].
    pose proof (countUp_total acc i). lia. }
  specialize (H empty). simpl in *. lia.
Qed.

Lemma rankedCompanies_total_le sales companies ranking :
  rankedCompaniesBySales sales companies = Some ranking ->
  (total rc_salesCount ranking
   <= Z.of_nat (length (filter (fun s => isSome (countedCompany s)) sales)))%Z.
Proof.
  unfold rankedCompaniesBySales. cbv zeta.
  destruct (numbers (entries (salesByCompany sales))) as [es|] eqn:E;
    [|discriminate].
  intros [= <-].
  rewrite (total_perm _ _ _ (sort_perm _ _)), total_map. cbn [rc_salesCount].
  change (total (fun x : jsstring * Z => snd x) es) with (total snd es).
  rewrite (numbers_total _ _ E), (total_perm _ _ _ (entries_perm _)).
  apply salesByCompany_total_le.
Qed.

Lemma salesByCompany_skip before sale after :
  company sale = None ->
  salesByCompany (before ++ sale :: after) = salesByCompany (before ++ after).
Proof.
  intros H. unfold salesByCompany. rewrite !fold_left_app. cbn [fold_left].
  unfold companyIdOf at 2. now rewrite H.
Qed.

Lemma salesByCollaborator_fold sales :
  salesByCollaborator sales = fold_left sellerStep sales empty.
Proof. reflexivity. Qed.

Lemma salesByCollaborator_skip before sale after :
  collaborator sale = None ->
  salesByCollaborator (before ++ sale :: after)
  = salesByCollaborator (before ++ after).
Proof.
  intros H. rewrite !salesByCollaborator_fold, !fold_left_app.
  cbn [fold_left]. unfold sellerStep at 2. now rewrite H.
Qed.

(** The reducer of the sellers, by what the dictionary owns under the id
    of the collaborator. *)
Lemma sellerStep_cases acc sale c :
  collaborator sale = Some c -> truthy (sl_id c) = true ->
  sellerStep acc sale
  = match lookup acc (sl_id c) with
    | Some seller => store acc (sl_id c) (incrSales seller)
    | None =>
        if isInherited (sl_id c) then acc
        else store (store acc (sl_id c) (newSeller sale c)) (sl_id c)
                   (incrSales (newSeller sale c))
    end.
Proof.
  intros Hc Ht. unfold sellerStep. rewrite Hc, Ht. cbv zeta. unfold get.
  destruct (lookup acc (sl_id c)) as [seller|] eqn:E.
  - now rewrite E.
  - destruct (isInherited (sl_id c)) eqn:Ei.
    + now rewrite E.
    + now rewrite get_set, str_eqb_refl.
Qed.

Lemma sellerStep_total_le acc sale :
  (total (fun e => rs_salesCount (snd e)) (sellerStep acc sale)
   <= total (fun e => rs_salesCount (snd e)) acc
      + if isSome (countedSeller sale) then 1 else 0)%Z.
Proof.
  unfold countedSeller.
  destruct (collaborator sale) as [c|] eqn:Hc;
    [|unfold sellerStep; rewrite Hc; cbn; lia].
  destruct (truthy (sl_id c)) eqn:Ht;
    [|unfold sellerStep; rewrite Hc, Ht; cbn; lia].
  rewrite (sellerStep_cases acc sale c Hc Ht). cbn [isSome].
  destruct (lookup acc (sl_id c)) as [seller|] eqn:E.
  - rewrite (total_set rs_salesCount), E. simpl. lia.
  - destruct (isInherited (sl_id c)); [lia|].
    rewrite !(total_set rs_salesCount), E, get_set, str_eqb_refl. simpl. lia.
Qed.

Lemma In_set {V} (o : Obj V) (k : jsstring) (v : V) (e : jsstring * V) :
  In e (store o k v) -> e = (k, v) \/ In e o.
Proof.
  induction o as [|[k0 v0] o IH]; simpl.
  - intros [<-|[]]. now left.
  - destruct (str_eqb k0 k) eqn:E; simpl.
    + apply str_eqb_eq in E as ->. intros [<-|H]; auto.
    + intros [<-|H]; auto. destruct (IH H); auto.
Qed.

Lemma sellerStep_nonneg acc sale :
  (forall e, In e acc -> 0 <= rs_salesCount (snd e))%Z ->
  (forall e, In e (sellerStep acc sale) -> 0 <= rs_salesCount (snd e))%Z.
Proof.
  intros Hacc e.
  destruct (collaborator sale) as [c|] eqn:Hc;
    [|unfold sellerStep; rewrite Hc; apply Hacc].
  destruct (truthy (sl_id c)) eqn:Ht;
    [|unfold sellerStep; rewrite Hc, Ht; apply Hacc].
  rewrite (sellerStep_cases acc sale c Hc Ht).
  destruct (lookup acc (sl_id c)) as [seller|] eqn:E.
  - intros H. apply In_set in H as [->|H]; [|now apply Hacc].
    apply get_In, Hacc in E. simpl in *. lia.
  - destruct (isInherited (sl_id c)); [apply Hacc|]. intros H.
    apply In_set in H as [->|H]; [simpl; lia|].
    apply In_set in H as [->|H]; [simpl; lia|now apply Hacc].
Qed.

Lemma salesByCollaborator_total_le sales :
  (total (fun e => rs_salesCount (snd e)) (salesByCollaborator sales)
   <= Z.of_nat (length (filter (fun s => isSome (countedSeller s)) sales)))%Z.
Proof.
  rewrite salesByCollaborator_fold.
  assert (H : forall acc,
    (total (fun e => rs_salesCount (snd e)) (fold_left sellerStep sales acc)
     <= total (fun e => rs_salesCount (snd e)) acc
        + Z.of_nat (length (filter (fun s => isSome (countedSeller s))
                                   sales)))%Z).
  { induction sales as [|s sales IH]; intros acc; [simpl; lia|].
    cbn [fold_left filter]. etransitivity; [apply IH|].
    pose proof (sellerStep_total_le acc s).
    destruct (isSome (countedSeller s)); cbn [length]; lia. }
  specialize (H empty). simpl in *. lia.
Qed.

Lemma salesByCollaborator_nonneg sales e :
  In e (salesByCollaborator sales) -> (0 <= rs_salesCount (snd e))%Z.
Proof.
  rewrite salesByCollaborator_fold.
  assert (H : forall acc,
    (forall e, In e acc -> 0 <= rs_salesCount (snd e))%Z ->
    (forall e, In e (fold_left sellerStep sales acc) ->
               0 <= rs_salesCount (snd e))%Z).
  { induction sales as [|s sales IH]; intros acc Hacc; [exact Hacc|].
    cbn [fold_left]. apply IH. now apply sellerStep_nonneg. }
  apply H. intros ? [].
Qed.

Lemma rankedSellers_total_le sales sellerCompanyFilter :
  (total rs_salesCount (rankedSellers sales sellerCompanyFilter)
   <= Z.of_nat (length (filter (fun s => isSome (countedSeller s)) sales)))%Z.
Proof.
  unfold rankedSellers.
  rewrite (total_perm _ _ _ (sort_perm _ _)).
  etransitivity; [|apply salesByCollaborator_total_le].
  assert (Hall : total rs_salesCount (values (salesByCollaborator sales))
                 = total (fun e => rs_salesCount (snd e))
                         (salesByCollaborator sales)).
  { unfold values. rewrite total_map. apply total_perm, entries_perm. }
  destruct (str_eqb sellerCompanyFilter (lit "all")); [lia|].
  rewrite <- Hall. apply total_filter_le.
  intros seller H. unfold values in H.
  apply in_map_iff in H as [e [<- H]].
  apply (salesByCollaborator_nonneg sales).
  eapply Permutation_in; [apply entries_perm|exact H].
Qed.

Lemma filter_length_le {A} (p : A -> bool) (l : list A) :
  (length (filter p l) <= length l)%nat.
Proof.
  induction l as [|x l IH]; simpl; [lia|]. destruct (p x); simpl; lia.
Qed.

Lemma filter_length_lt {A} (p : A -> bool) (before after : list A) (x : A) :
  p x = false ->
  (length (filter p (before ++ x :: after))
   < length (before ++ x :: after))%nat.
Proof.
  intros H. rewrite filter_app, !length_app. cbn [filter length].
  rewrite H. pose proof (filter_length_le p before).
  pose proof (filter_length_le p after). lia.
Qed.

(** C9. A detailed sale whose company is null counts in the displayed
    total of sales and adds to no entry of the sales-by-company ranking;
    a sale whose collaborator is null adds to no entry of the
    sales-by-seller ranking; with such a sale the counts of the ranking
    sum to strictly less than the displayed total. [sales] is the list of
    (date-filtered) sales both the total and the rankings are computed
    from. For the companies the bound is on the numbers the dictionary of
    the counts holds, and so on the counts of the ranking made of them. *)
Theorem sale_without_company_or_seller
    (before after : list DetailedSale) (sale : DetailedSale)
    (companies : list ParticipantCompany) (sellerCompanyFilter : jsstring) :
  let sales := before ++ sale :: after in
  let others := before ++ after in
  totalSalesCount sales = (totalSalesCount others + 1)%Z
  /\ (company sale = None ->
      rankedCompaniesBySales sales companies
      = rankedCompaniesBySales others companies
      /\ (total (fun e => numberOf (snd e)) (salesByCompany sales)
          < totalSalesCount sales)%Z
      /\ forall ranking,
           rankedCompaniesBySales sales companies = Some ranking ->
           (total rc_salesCount ranking < totalSalesCount sales)%Z)
  /\ (collaborator sale = None ->
      rankedSellers sales sellerCompanyFilter
      = rankedSellers others sellerCompanyFilter
      /\ (total rs_salesCount (rankedSellers sales sellerCompanyFilter)
          < totalSalesCount sales)%Z).
Proof.
  intros sales others. split; [|split].
  - unfold totalSalesCount, sales, others. rewrite !length_app.
    cbn [length]. lia.
  - intros H.
    assert (Hlt : (Z.of_nat (length (filter (fun s => isSome (countedCompany s))
                                            sales))
                   < totalSalesCount sales)%Z).
    { unfold totalSalesCount, sales. apply inj_lt, filter_length_lt.
      unfold countedCompany, companyIdOf. now rewrite H. }
    split; [|split].
    + unfold rankedCompaniesBySales, sales, others. cbv zeta.
      now rewrite (salesByCompany_skip before sale after H).
    + eapply Z.le_lt_trans; [apply salesByCompany_total_le|exact Hlt].
    + intros ranking Hr.
      eapply Z.le_lt_trans; [apply (rankedCompanies_total_le _ _ _ Hr)|].
      exact Hlt.
  - intros H. split.
    + unfold rankedSellers, sales, others. cbv zeta.
      now rewrite (salesByCollaborator_skip before sale after H).
    + eapply Z.le_lt_trans; [apply rankedSellers_total_le|].
      unfold totalSalesCount, sales. apply inj_lt, filter_length_lt.
      unfold countedSeller. now rewrite H.
Qed.

(** ** Checks on sample data *)

Example visits_sample :
  option_map (fun companyInfo =>
    option_map (map (fun i => (label i, value i)))
      (visitsData (filteredReports Samples.reports []) companyInfo))
    (companyInfoMap Samples.companies)
  = Some (Some [(lit "7", 3%Z); (lit "Acme", 1%Z)]).
Proof. reflexivity. Qed.

Example visits_sample_day :
  option_map (fun companyInfo =>
    option_map (map (fun i => (label i, value i)))
      (visitsData (filteredReports Samples.reports Samples.may1) companyInfo))
    (companyInfoMap Samples.companies)
  = Some (Some [(lit "7", 2%Z); (lit "Acme", 1%Z)]).
Proof. reflexivity. Qed.

Example occurrences_sample :
  option_map (map (fun i => (label i, value i)))
             (occurrencesData (filteredReports Samples.reports []))
  = Some [(lit "Visita", 2%Z); (lit "Agua", 1%Z)].
Proof. reflexivity. Qed.

Example staff_sample :
  match activitiesMap Samples.staffList Samples.activitiesData with
  | Some activities =>
      option_map (fun kept => map (fun i => (label i, value i))
                                  (staffData Samples.staffList kept))
                 (filteredActivities activities [])
  | None => None
  end
  = Some [(lit "Ana", 2%Z); (lit "Carla", 1%Z)].
Proof. reflexivity. Qed.

Example staff_sample_day :
  match activitiesMap Samples.staffList Samples.activitiesData with
  | Some activities =>
      option_map (fun kept => map (fun i => (label i, value i))
                                  (staffData Samples.staffList kept))
                 (filteredActivities activities Samples.may1)
  | None => None
  end
  = Some [(lit "Ana", 1%Z)].
Proof. reflexivity. Qed.

Example sales_sample :
  let sales := [Samples.soldByAcme; Samples.orphanSale; Samples.soldByAcme] in
  totalSalesCount sales = 3%Z
  /\ option_map (map (fun c => (rc_name c, rc_salesCount c)))
                (rankedCompaniesBySales sales Samples.companies)
     = Some [(lit "Acme", 2%Z)]
  /\ map (fun r => (rs_name r, rs_companyName r, rs_salesCount r))
         (rankedSellers sales (lit "all"))
     = [(lit "Davi", lit "Acme", 2%Z)].
Proof. repeat split. Qed.

(** A staff member whose id is [constructor], with no activity fetched for
    it: the dictionary owns nothing under the id, the read finds the
    constructor every object inherits, and its [length] is 1. *)
Example activityCount_of_an_inherited_id :
  activityCount empty
    {| s_id := lit "constructor"; s_name := lit "Caio"; s_phone := None;
       s_departmentId := lit "d1"; s_photoUrl := None; s_role := None |}
  = 1%Z.
Proof. reflexivity. Qed.

(** A report under the booth code [__proto__] leaves no count. *)
Example visits_count_under_proto :
  visitsCounts [ Samples.report "2024-05-01T10:00:00.000Z" "A1" "Visita";
                 Samples.report "2024-05-01T11:00:00.000Z" "__proto__" "Visita";
                 Samples.report "2024-05-01T12:00:00.000Z" "__proto__" "Visita" ]
  = [(lit "A1", Number 1)].
Proof. reflexivity. Qed.


(** A sale without company and collaborator among the sample sales (C9). *)
Lemma orphan_sale_sample :
  company Samples.orphanSale = None
  /\ collaborator Samples.orphanSale = None
  /\ rankedCompaniesBySales
       [Samples.soldByAcme; Samples.orphanSale] Samples.companies
     = rankedCompaniesBySales [Samples.soldByAcme] Samples.companies
  /\ rankedSellers [Samples.soldByAcme; Samples.orphanSale] (lit "all")
     = rankedSellers [Samples.soldByAcme] (lit "all").
Proof.
  destruct (sale_without_company_or_seller [Samples.soldByAcme] []
              Samples.orphanSale Samples.companies (lit "all"))
    as (_ & Hc & Hs).
  split; [reflexivity|]. split; [reflexivity|].
  split; [apply (Hc eq_refl)|apply (Hs eq_refl)].
Defined.

(** The visits ranking at work on the sample reports (C3). *)
Lemma visits_sample_ranking :
  plainKeys (map r_boothCode (filteredReports Samples.reports []))
  /\ ~ In protoKey (map c_boothCode Samples.companies)
  /\ exists companyInfo ranking,
       companyInfoMap Samples.companies = Some companyInfo
       /\ visitsData (filteredReports Samples.reports []) companyInfo
          = Some ranking
       /\ sortedDesc value ranking.
Proof.
  assert (Hr : plainKeys (map r_boothCode (filteredReports Samples.reports [])))
    by (repeat constructor).
  assert (Hc : ~ In protoKey (map c_boothCode Samples.companies))
    by no_proto.
  split; [exact Hr|]. split; [exact Hc|].
  destruct (visits_ranking_groups_by_booth Samples.reports Samples.companies
              [] Hr Hc) as (companyInfo & ranking & H1 & H2 & H3 & _).
  now exists companyInfo, ranking.
Defined.

(** The described label of a visits group fails for a company whose name
    is empty: the group of booth 7 is labelled with the booth code, not
    with the (empty) name of the company of that booth. *)
Lemma visits_label_of_unnamed_company :
  let shown := filteredReports [Samples.report "2024-05-01T11:00:00.000Z"
                                               "7" "Visita"] [] in
  let labels :=
    match companyInfoMap [Samples.unnamed] with
    | Some companyInfo => option_map (map label) (visitsData shown companyInfo)
    | None => None
    end in
  companyAt [Samples.unnamed] (lit "7") = Some Samples.unnamed
  /\ labels = Some [lit "7"]
  /\ map (describedVisitsLabel [Samples.unnamed]) (distinctKeys boothOf shown)
     = [[]]
  /\ labels
     <> Some (map (describedVisitsLabel [Samples.unnamed])
                  (distinctKeys boothOf shown)).
Proof. repeat split. discriminate. Qed.

(** The occurrences ranking at work on the sample reports. *)
Lemma occurrences_sample_entry :
  let shown := filteredReports Samples.reports [] in
  let item := {| label := lit "Visita"; value := 2%Z; logoUrl := None |} in
  plainKeys (map r_reportLabel shown)
  /\ exists ranking,
       occurrencesData shown = Some ranking
       /\ In item ranking
       /\ value item = Z.of_nat (length (labelled (label item) shown))
       /\ (0 < value item)%Z.
Proof.
  intros shown item.
  assert (Hp : plainKeys (map r_reportLabel shown)) by (repeat constructor).
  split; [exact Hp|].
  destruct (occurrences_ranking_skips_hidden_labels Samples.reports [] Hp)
    as (ranking & Hr & _ & _ & H & _).
  exists ranking. split; [exact Hr|].
  assert (Hin : In item ranking).
  { change (occurrencesData shown) with (Some [item;
      {| label := lit "Agua"; value := 1%Z; logoUrl := None |}]) in Hr.
    injection Hr as <-. now left. }
  split; [exact Hin|]. exact (proj2 (H item Hin)).
Defined.



End RankingFacts.

(* ================================================================== *)
(** * The alert broadcast *)
(* ================================================================== *)

Module AlertFacts.
Import Js Spec AlertSpec JsFacts Async StaffFlow.

(** ** The batch of requests *)

Section Batch.
Context {St : Type}.

Lemma mapM_fetch {X} (f : X -> Request) (xs : list X) (net : Network)
    (st : St) (w : World St) :
  mapM (fun x => fetch (f x)) xs net st w
  = (Fulfilled (promisesOf net (length (sent w)) (map f xs)), st,
     {| sent := sent w ++ map f xs; alertLogs := alertLogs w;
        timers := timers w |}).
Proof.
  revert w. induction xs as [|x xs IH]; intros w.
  - simpl. unfold ret. rewrite app_nil_r. now destruct w.
  - cbn [mapM map promisesOf]. unfold bind at 1. unfold fetch at 1.
    unfold bind at 1. rewrite IH. cbn [sent alertLogs timers]. unfold ret.
    rewrite length_app, <- app_assoc. cbn [length app].
    now rewrite Nat.add_1_r.
Qed.

Lemma Promise_all_delivered (net : Network) (n : nat)
    (requests : list Request) :
  match Promise_all (promisesOf net n requests) with
  | Fulfilled responses => negb (existsb (fun res => negb (ok res)) responses)
  | Rejected _ => false
  end = delivered net n requests.
Proof.
  revert n. induction requests as [|r rs IH]; intros n; [reflexivity|].
  cbn [promisesOf delivered Promise_all].
  destruct (respond net n r) as [res|]; [|reflexivity].
  specialize (IH (S n)).
  destruct (Promise_all (promisesOf net (S n) rs)) as [responses|e].
  - cbn [existsb]. rewrite <- IH. now destruct (ok res).
  - rewrite <- IH. symmetry. apply andb_false_r.
Qed.

End Batch.

(** ** What a send does, case by case *)

Section Sends.
Import EmitirAlerta.

(** The staff submission of the later version, run to its end. *)
Lemma handleConfirmAndSend_run (eventId : jsstring) (user : option User)
    (staffList : list Staff) (s cur : State) (net : Network)
    (w : World State) :
  let form := staffForm s in
  let targets := targetsOf form staffList in
  let requests := map (staffRequest (alertMessage form)) targets in
  let entry :=
    match user, selectedDepartment form with
    | Some u, Some d =>
        Some (staffEntry eventId u d (alertMessage form) targets)
    | _, _ => None
    end in
  let settled status :=
    onStaff (setIsSubmitting false)
      (onStaff (setSubmitStatus status)
         (onStaff (setSubmitStatus idle)
            (onStaff (setIsSubmitting true) cur))) in
  let reset := fun s => handleBackToChoice (onStaff resetStaffForm s) in
  handleConfirmAndSend eventId user staffList s net cur w
  = match targets with
    | [] => (Fulfilled tt, settled error, w)
    | _ :: _ =>
        if delivered net (length (sent w)) requests then
          match entry with
          | Some e =>
              if accepts net e
              then (Fulfilled tt, settled success,
                    afterSuccess w requests entry reset)
              else (Fulfilled tt, settled error, afterBatch w requests)
          | None => (Fulfilled tt, settled success,
                     afterSuccess w requests None reset)
          end
        else (Fulfilled tt, settled error, afterBatch w requests)
    end.
Proof.
  intros form targets requests entry settled reset.
  unfold handleConfirmAndSend. fold form. fold targets.
  destruct targets as [|t ts] eqn:Et; [reflexivity|].
  cbn [length Nat.eqb]. unfold bind at 1 2 3. unfold update at 1 2.
  rewrite mapM_fetch. fold requests.
  pose proof (Promise_all_delivered net (length (sent w)) requests) as Hd.
  unfold tryCatchFinally, bind, await, update, throw, ret, setTimeout,
    addAlertLog.
  cbn [sent alertLogs timers].
  destruct (Promise_all (promisesOf net (length (sent w)) requests))
    as [responses|e]; rewrite <- Hd.
  - destruct (existsb (fun res => negb (ok res)) responses);
      cbn [negb]; [reflexivity|].
    unfold entry, staffEntry, toRecipient, afterSuccess, afterBatch.
    destruct user as [u|]; [|reflexivity].
    destruct (selectedDepartment form) as [d|]; [|reflexivity].
    now destruct (accepts net _).
  - reflexivity.
Qed.

(** The group submission, run to its end. *)
Lemma handleGroupAlertSend_run (eventId : jsstring) (user : option User)
    (s cur : State) (net : Network) (w : World State) :
  let request :=
    {| url := groupWebhookUrl; method := lit "POST"; headers := jsonHeaders;
       body := GroupPayload (groupAlertMessage (groupForm s)) |} in
  let entry :=
    match user with
    | Some u => Some (groupEntry eventId u (groupAlertMessage (groupForm s)))
    | None => None
    end in
  let settled status :=
    onGroup (setIsSubmittingGroup false)
      (onGroup (setGroupSubmitStatus status)
         (onGroup (setGroupSubmitStatus idle)
            (onGroup (setIsSubmittingGroup true) cur))) in
  let reset := fun s => handleBackToChoice (onGroup resetGroupForm s) in
  handleGroupAlertSend eventId user s net cur w
  = if delivered net (length (sent w)) [request] then
      match entry with
      | Some e =>
          if accepts net e
          then (Fulfilled tt, settled success,
                afterSuccess w [request] entry reset)
          else (Fulfilled tt, settled error, afterBatch w [request])
      | None => (Fulfilled tt, settled success,
                 afterSuccess w [request] None reset)
      end
    else (Fulfilled tt, settled error, afterBatch w [request]).
Proof.
  intros request entry settled reset.
  unfold handleGroupAlertSend. fold request.
  unfold tryCatchFinally, bind, fetch, await, update, throw, ret, setTimeout,
    addAlertLog.
  cbn [sent alertLogs timers delivered].
  unfold entry, groupEntry, groupRecipient, afterSuccess, afterBatch.
  destruct (respond net (length (sent w)) request) as [res|]; [|reflexivity].
  rewrite andb_true_r. destruct (ok res); cbn [negb]; [|reflexivity].
  destruct user as [u|]; [|reflexivity].
  now destruct (accepts net _).
Qed.

End Sends.

(** The staff submission of the first version, run to its end. *)
Lemma staffOnly_handleConfirmAndSend_run (staffList : list Staff)
    (s cur : StaffForm) (net : Network) (w : World StaffForm) :
  let targets := targetsOf s staffList in
  let requests := map (staffRequest (alertMessage s)) targets in
  let settled status :=
    setIsSubmitting false
      (setSubmitStatus status
         (setSubmitStatus idle (setIsSubmitting true cur))) in
  EmitirAlertaStaffOnly.handleConfirmAndSend staffList s net cur w
  = match targets with
    | [] => (Fulfilled tt, settled error, w)
    | _ :: _ =>
        if delivered net (length (sent w)) requests
        then (Fulfilled tt, settled success,
              afterSuccess w requests None resetStaffForm)
        else (Fulfilled tt, settled error, afterBatch w requests)
    end.
Proof.
  intros targets requests settled.
  unfold EmitirAlertaStaffOnly.handleConfirmAndSend. fold targets.
  destruct targets as [|t ts] eqn:Et; [reflexivity|].
  cbn [length Nat.eqb]. unfold bind at 1 2 3. unfold update at 1 2.
  rewrite mapM_fetch. fold requests.
  pose proof (Promise_all_delivered net (length (sent w)) requests) as Hd.
  unfold tryCatchFinally, bind, await, update, throw, ret, setTimeout.
  cbn [sent alertLogs timers].
  destruct (Promise_all (promisesOf net (length (sent w)) requests))
    as [responses|e]; rewrite <- Hd; [|reflexivity].
  now destruct (existsb (fun res => negb (ok res)) responses).
Qed.

Lemma filter_filter {A} (p q : A -> bool) (l : list A) :
  filter p (filter q l) = filter (fun x => q x && p x) l.
Proof.
  induction l as [|x l IH]; simpl; [reflexivity|].
  destruct (q x); simpl; [|exact IH]. now rewrite IH.
Qed.

Lemma targetsOf_filter (s : StaffForm) (staffList : list Staff) :
  targetsOf s staffList
  = filter (fun st => set_has (selectedStaffIds s) (s_id st)
                      && truthy_opt (s_phone st)) staffList.
Proof. apply filter_filter. Qed.

(** ** The submissions *)

Section Submissions.
Import EmitirAlerta.

(** The batch reaches its recipients when each request of it, at the place
    it left, gets a response that is ok. *)
Lemma delivered_nth (net : Network) (n : nat) (requests : list Request) :
  delivered net n requests = true
  <-> forall i request, nth_error requests i = Some request ->
        exists response,
          respond net (n + i) request = Some response /\ ok response = true.
Proof.
  revert n. induction requests as [|r rs IH]; intros n.
  - split; [intros _ [|i] request H; discriminate|reflexivity].
  - cbn [delivered]. split.
    + intros H [|i] request Hi.
      * injection Hi as <-. rewrite Nat.add_0_r.
        destruct (respond net n r) as [res|]; [|discriminate].
        apply andb_true_iff in H as [H _]. now exists res.
      * cbn [nth_error] in Hi. rewrite Nat.add_succ_r.
        destruct (respond net n r) as [res|]; [|discriminate].
        apply andb_true_iff in H as [_ H].
        exact (proj1 (IH (S n)) H i request Hi).
    + intros H. destruct (H 0%nat r eq_refl) as [res [Hres Hok]].
      rewrite Nat.add_0_r in Hres. rewrite Hres, Hok. cbn [andb].
      apply IH. intros i request Hi.
      specialize (H (S i) request Hi). now rewrite Nat.add_succ_r in H.
Qed.

(** C2. Confirming a staff alert issues one POST request per selected
    staff member that has a phone number, and none for the others; each
    carries the name and phone of its staff member and the composed
    message. The requests leave as one batch, all of them whatever the
    responses are, and are awaited together: the send ends only with the
    batch settled, and in success only when every request of the batch has
    been answered, and answered ok; a single request unanswered or
    refused, whichever it is, ends the send in error. Both versions of the
    component do so; in the first one nothing else decides between success
    and error. *)
Theorem one_request_per_selected_staff_with_phone
    (eventId : jsstring) (user : option User) (staffList : list Staff)
    (s cur : State) (cur1 : StaffForm) (net : Network)
    (w : World State) (w1 : World StaffForm) :
  let form := staffForm s in
  let addressed st :=
    set_has (selectedStaffIds form) (s_id st) && truthy_opt (s_phone st) in
  let request st :=
    {| url := lit "https://webhook.triad3.io/webhook/emitiralerta-staffs";
       method := lit "POST";
       headers := [(lit "Content-Type", lit "application/json")];
       body := StaffPayload (s_name st) (s_phone st) (alertMessage form) |} in
  let requests := map request (filter addressed staffList) in
  let allAnswered (first : nat) :=
    forall i r, nth_error requests i = Some r ->
      exists response,
        respond net (first + i) r = Some response /\ ok response = true in
  let final := handleConfirmAndSend eventId user staffList s net cur w in
  let final1 :=
    EmitirAlertaStaffOnly.handleConfirmAndSend staffList form net cur1 w1 in
  sent (finalWorld final) = sent w ++ requests
  /\ sent (finalWorld final1) = sent w1 ++ requests
  /\ (submitStatus (staffForm (finalState final)) = success ->
      requests <> [] /\ allAnswered (length (sent w)))
  /\ (submitStatus (finalState final1) = success
      <-> requests <> [] /\ allAnswered (length (sent w1)))
  /\ isSubmitting (staffForm (finalState final)) = false
  /\ isSubmitting (finalState final1) = false
  /\ (~ allAnswered (length (sent w)) ->
      submitStatus (staffForm (finalState final)) = error)
  /\ (~ allAnswered (length (sent w1)) ->
      submitStatus (finalState final1) = error).
Proof.
  intros form addressed request requests allAnswered final final1.
  unfold final, final1.
  rewrite handleConfirmAndSend_run, staffOnly_handleConfirmAndSend_run.
  fold form. rewrite (targetsOf_filter form staffList). fold addressed.
  change (staffRequest (alertMessage form)) with request.
  pose proof (delivered_nth net (length (sent w)) requests) as Hd.
  pose proof (delivered_nth net (length (sent w1)) requests) as Hd1.
  fold (allAnswered (length (sent w))) in Hd.
  fold (allAnswered (length (sent w1))) in Hd1.
  unfold requests in *.
  destruct (filter addressed staffList) as [|t ts].
  - cbn [map]. rewrite !app_nil_r.
    repeat split; try discriminate; try tauto.
  - cbn [map] in *.
    split; [|split; [|split; [|split; [|split; [|split; [|split]]]]]].
    + destruct (delivered net (length (sent w)) _); [|reflexivity].
      destruct user as [u|]; [|reflexivity].
      destruct (selectedDepartment form) as [d|]; [|reflexivity].
      now destruct (accepts net _).
    + now destruct (delivered net (length (sent w1)) _).
    + destruct (delivered net (length (sent w)) _); [|discriminate].
      intros _. split; [discriminate|]. now apply Hd.
    + destruct (delivered net (length (sent w1)) _).
      * split; [|reflexivity]. intros _. split; [discriminate|]. now apply Hd1.
      * split; [discriminate|]. intros [_ H]. apply Hd1 in H. discriminate.
    + destruct (delivered net (length (sent w)) _); [|reflexivity].
      destruct user as [u|]; [|reflexivity].
      destruct (selectedDepartment form) as [d|]; [|reflexivity].
      now destruct (accepts net _).
    + now destruct (delivered net (length (sent w1)) _).
    + destruct (delivered net (length (sent w)) _); [|reflexivity].
      intros H. exfalso. apply H. now apply Hd.
    + destruct (delivered net (length (sent w1)) _); [|reflexivity].
      intros H. exfalso. apply H. now apply Hd1.
Qed.

(** C1, as amended. Confirming a staff alert fires the webhook requests
    and then logs the result. The alert log entry is persisted exactly
    when at least one selected staff member has a phone number, every
    request gets a response that is ok, a user is signed in, a department
    is selected and the log service accepts the entry. When no selected
    staff member has a phone number, a request fails on the network or a
    response is not ok, the flow ends in the error state with no alert
    log added. It ends in the success state when the requests succeed and
    the entry, if there is one to persist, is accepted. *)
Theorem staff_send_outcome
    (eventId : jsstring) (user : option User) (staffList : list Staff)
    (s cur : State) (net : Network) (w : World State) :
  let form := staffForm s in
  let targets := targetsOf form staffList in
  let requests := map (staffRequest (alertMessage form)) targets in
  let sentOk :=
    negb (length targets =? 0)%nat
    && delivered net (length (sent w)) requests in
  let entry :=
    match user, selectedDepartment form with
    | Some u, Some d =>
        Some (staffEntry eventId u d (alertMessage form) targets)
    | _, _ => None
    end in
  let final := handleConfirmAndSend eventId user staffList s net cur w in
  sent (finalWorld final) = sent w ++ requests
  /\ alertLogs (finalWorld final)
     = match entry with
       | Some e => if sentOk && accepts net e then alertLogs w ++ [e]
                   else alertLogs w
       | None => alertLogs w
       end
  /\ submitStatus (staffForm (finalState final))
     = (if sentOk && match entry with
                     | Some e => accepts net e
                     | None => true
                     end
        then success else error)
  /\ isSubmitting (staffForm (finalState final)) = false
  /\ (sentOk = false ->
      submitStatus (staffForm (finalState final)) = error
      /\ alertLogs (finalWorld final) = alertLogs w).
Proof.
  intros form targets requests sentOk entry final.
  unfold final, sentOk. rewrite handleConfirmAndSend_run.
  fold form. fold targets. fold requests. fold entry.
  destruct targets as [|t ts] eqn:Et.
  - cbn [length Nat.eqb negb andb finalWorld finalState snd fst].
    unfold requests. rewrite app_nil_r. destruct entry; now repeat split.
  - cbn [length Nat.eqb negb andb].
    destruct (delivered net (length (sent w)) requests).
    + destruct entry as [e|].
      * destruct (accepts net e); repeat split; discriminate.
      * repeat split; discriminate.
    + destruct entry; now repeat split.
Qed.

(** C5. The alert log entry a send persists records the message sent,
    the id of the sender and the target with its recipients: for a staff
    alert the id of the selected department and one recipient (id, name,
    phone) per staff member a request was sent to; for a group alert no
    department and the single recipient marker [GROUP] with an empty
    phone. That entry is added to the logs, after the ones there, when the
    requests have all been answered ok, a user is signed in (and, for a
    staff alert, a department selected) and the log service accepts it;
    otherwise the logs are left as they are. *)
Theorem alert_log_entry_contents
    (eventId : jsstring) (user : option User) (staffList : list Staff)
    (s cur : State) (net : Network) (w : World State) :
  let form := staffForm s in
  let targets := targetsOf form staffList in
  let requests := map (staffRequest (alertMessage form)) targets in
  let groupRequest :=
    {| url := groupWebhookUrl; method := lit "POST"; headers := jsonHeaders;
       body := GroupPayload (groupAlertMessage (groupForm s)) |} in
  let staffLog (u : User) (d : Department) :=
    {| eventId := eventId;
       senderUserId := u_id u;
       departmentId := Some (d_id d);
       message := alertMessage form;
       recipients :=
         map (fun st => {| staffId := s_id st; staffName := s_name st;
                           staffPhone := s_phone st |})
             targets |} in
  let groupLog (u : User) :=
    {| eventId := eventId;
       senderUserId := u_id u;
       departmentId := None;
       message := groupAlertMessage (groupForm s);
       recipients := [ {| staffId := lit "GROUP";
                          staffName := lit "Alerta para Grupo";
                          staffPhone := Some [] |} ] |} in
  let staffSend := handleConfirmAndSend eventId user staffList s net cur w in
  let groupSend := handleGroupAlertSend eventId user s net cur w in
  sent (finalWorld staffSend) = sent w ++ requests
  /\ alertLogs (finalWorld staffSend)
     = match user, selectedDepartment form with
       | Some u, Some d =>
           if negb (length targets =? 0)%nat
              && delivered net (length (sent w)) requests
              && accepts net (staffLog u d)
           then alertLogs w ++ [staffLog u d]
           else alertLogs w
       | _, _ => alertLogs w
       end
  /\ sent (finalWorld groupSend) = sent w ++ [groupRequest]
  /\ alertLogs (finalWorld groupSend)
     = match user with
       | Some u =>
           if delivered net (length (sent w)) [groupRequest]
              && accepts net (groupLog u)
           then alertLogs w ++ [groupLog u]
           else alertLogs w
       | None => alertLogs w
       end.
Proof.
  intros form targets requests groupRequest staffLog groupLog
         staffSend groupSend.
  unfold staffSend, groupSend.
  rewrite handleConfirmAndSend_run, handleGroupAlertSend_run.
  fold form. fold targets. fold requests. fold groupRequest.
  change (staffEntry eventId) with
    (fun u d (m : jsstring) (ts : list Staff) =>
       {| eventId := eventId; senderUserId := u_id u;
          departmentId := Some (d_id d); message := m;
          recipients :=
            map (fun st => {| staffId := s_id st; staffName := s_name st;
                              staffPhone := s_phone st |}) ts |}).
  change (groupEntry eventId) with
    (fun u (m : jsstring) =>
       {| eventId := eventId; senderUserId := u_id u;
          departmentId := None; message := m;
          recipients := [ {| staffId := lit "GROUP";
                             staffName := lit "Alerta para Grupo";
                             staffPhone := Some [] |} ] |}).
  cbv beta. fold (staffLog). fold (groupLog).
  split; [|split; [|split]].
  - unfold requests. destruct targets as [|t ts].
    + cbn. now rewrite app_nil_r.
    + destruct (delivered net _ _); [|reflexivity].
      destruct user as [u|]; [|reflexivity].
      destruct (selectedDepartment form) as [d|]; [|reflexivity].
      now destruct (accepts net _).
  - unfold requests. destruct targets as [|t ts].
    + cbn. destruct user as [u|]; [|reflexivity].
      now destruct (selectedDepartment form).
    + cbn [length Nat.eqb negb andb].
      destruct (delivered net _ _); cbn [andb].
      * destruct user as [u|]; [|reflexivity].
        destruct (selectedDepartment form) as [d|]; [|reflexivity].
        now destruct (accepts net _).
      * destruct user as [u|]; [|reflexivity].
        now destruct (selectedDepartment form).
  - destruct (delivered net _ _); [|reflexivity].
    destruct user as [u|]; [|reflexivity].
    now destruct (accepts net _).
  - destruct (delivered net _ _); cbn [andb].
    + destruct user as [u|]; [|reflexivity].
      now destruct (accepts net _).
    + now destruct user.
Qed.

End Submissions.

(** ** The wizard *)

Lemma fold_left_invariant {A B} (P : A -> Prop) (f : A -> B -> A)
    (l : list B) (a : A) :
  P a -> (forall a b, P a -> P (f a b)) -> P (fold_left f l a).
Proof.
  intros Ha Hf. revert a Ha. induction l as [|b l IH]; intros a Ha; simpl;
    [exact Ha|]. apply IH. now apply Hf.
Qed.

(** Case analysis on the guards of the handlers. *)
Ltac handler_cases :=
  unfold handleBack, handleProceedToMessage, handleOpenConfirmModal in *;
  repeat match goal with
         | H : context [if ?c then _ else _] |- _ => destruct c eqn:?
         | |- context [if ?c then _ else _] => destruct c eqn:?
         end;
  cbn in *;
  repeat match goal with
         | H : (_ <? _)%Z = true |- _ => apply Z.ltb_lt in H
         | H : (_ <? _)%Z = false |- _ => apply Z.ltb_ge in H
         | H : (_ =? _)%Z = true |- _ => apply Z.eqb_eq in H
         | H : (_ || _)%bool = true |- _ => apply orb_true_iff in H
         end.

Lemma staffDispatch_validStep (e : StaffEvent) (form : StaffForm) :
  validStep form -> validStep (staffDispatch e form).
Proof.
  unfold validStep, staffDispatch. intros H.
  destruct e; cbn; handler_cases; lia.
Qed.

(** Between two states of the form, the step goes from 2 to 3 only by
    "Avançar" with a selection that is not empty. *)
Lemma staffDispatch_proceeds (e : StaffEvent) (form : StaffForm) :
  step form = 2%Z -> step (staffDispatch e form) = 3%Z ->
  e = ProceedToMessage /\ (0 < set_size (selectedStaffIds form))%Z.
Proof.
  unfold staffDispatch. intros H2 H3.
  destruct e; cbn in *; handler_cases; try lia.
  split; [reflexivity|assumption].
Qed.

Lemma handleBack_rendered (form : StaffForm) :
  staffEnabled GoBack form = true ->
  step (handleBack form) = (step form - 1)%Z
  /\ (1 <= step (handleBack form))%Z.
Proof.
  intros En. cbn in En. handler_cases; lia.
Qed.

Lemma truthy_trim_not_blank (m : jsstring) :
  truthy (trim m) = true -> blank m = false.
Proof.
  intros H. unfold blank. destruct (forallb isWhiteSpace m) eqn:E;
    [|reflexivity].
  apply trim_blank in E. congruence.
Qed.

(** The only event that opens the confirmation of the staff form is the
    submission of a message that is not blank. *)
Lemma staffDispatch_opens (e : StaffEvent) (form : StaffForm) :
  isConfirmModalOpen form = false ->
  isConfirmModalOpen (staffDispatch e form) = true ->
  e = SubmitMessage
  /\ blank (alertMessage form) = false
  /\ alertMessage (staffDispatch e form) = alertMessage form.
Proof.
  unfold staffDispatch. intros Hc Ho.
  destruct e; cbn in *; handler_cases; try congruence.
  split; [reflexivity|]. split; [|reflexivity].
  now apply truthy_trim_not_blank.
Qed.

(** A message was composed before a confirmation could open: in a
    machine whose confirmation opens only on a message that is not blank,
    an open confirmation has a moment in its past at which the message
    was not blank. *)
Lemma opened_after_message {St E} (dispatch : E -> St -> St) (init : St)
    (isOpen : St -> bool) (msg : St -> jsstring) :
  isOpen init = false ->
  (forall e s, isOpen s = false -> isOpen (dispatch e s) = true ->
               blank (msg s) = false) ->
  forall events,
    isOpen (fold_left (fun s e => dispatch e s) events init) = true ->
    exists earlier later,
      events = earlier ++ later
      /\ blank (msg (fold_left (fun s e => dispatch e s) earlier init)) = false.
Proof.
  intros Hinit Hopen events.
  induction events as [|e events IH] using rev_ind; [simpl; congruence|].
  rewrite fold_left_app. cbn [fold_left]. intros H.
  destruct (isOpen (fold_left (fun s e => dispatch e s) events init)) eqn:Ho.
  - destruct (IH eq_refl) as (earlier & later & -> & Hb).
    exists earlier, (later ++ [e]). now rewrite app_assoc.
  - exists events, [e]. split; [reflexivity|]. now apply (Hopen e).
Qed.

Section Wizard.
Import EmitirAlerta.

(** What an event of the later version does to the staff form: an event
    of the form acts as in the first version, any other event leaves the
    form as it is or resets it. *)
Lemma dispatch_staffForm (e : Event) (s : State) :
  staffForm (dispatch e s) = staffForm s
  \/ (exists e', e = InStaffForm e'
                 /\ enabled e s = true
                 /\ staffForm (dispatch e s) = staffDispatch e' (staffForm s))
  \/ (step (staffForm (dispatch e s)) = 1%Z
      /\ isConfirmModalOpen (staffForm (dispatch e s)) = false).
Proof.
  unfold dispatch. destruct (enabled e s) eqn:En; [|now left].
  destruct e; cbn; auto.
  right. left. exists e. split; [reflexivity|]. split; [reflexivity|].
  unfold staffDispatch. cbn in En. apply andb_true_iff in En as [_ ->].
  reflexivity.
Qed.

Lemma dispatch_validStep (e : Event) (s : State) :
  validStep (staffForm s) -> validStep (staffForm (dispatch e s)).
Proof.
  intros H. destruct (dispatch_staffForm e s) as [->|[(e' & _ & _ & ->)|[H1 _]]].
  - exact H.
  - now apply staffDispatch_validStep.
  - now left.
Qed.

Lemma run_validStep (events : list Event) : validStep (staffForm (run events)).
Proof.
  unfold run.
  apply (fold_left_invariant (fun s => validStep (staffForm s))).
  - now left.
  - intros s e. apply dispatch_validStep.
Qed.

Lemma staffOnly_run_validStep (events : list EmitirAlertaStaffOnly.Event) :
  validStep (EmitirAlertaStaffOnly.run events).
Proof.
  unfold EmitirAlertaStaffOnly.run. apply (fold_left_invariant validStep).
  - now left.
  - intros s [e|]; cbn; [apply staffDispatch_validStep|now left].
Qed.

(** The only event that opens the confirmation of the group form is the
    submission of a message that is not blank. *)
Lemma dispatch_opens_group (e : Event) (s : State) :
  isGroupConfirmModalOpen (groupForm s) = false ->
  isGroupConfirmModalOpen (groupForm (dispatch e s)) = true ->
  e = SubmitGroupMessage
  /\ blank (groupAlertMessage (groupForm s)) = false
  /\ groupAlertMessage (groupForm (dispatch e s))
     = groupAlertMessage (groupForm s).
Proof.
  unfold dispatch. intros Hc Ho.
  destruct (enabled e s) eqn:En; [|congruence].
  destruct e; cbn in *; try congruence.
  unfold handleOpenGroupConfirmModal in *.
  destruct (truthy (trim (groupAlertMessage (groupForm s)))) eqn:E;
    [|congruence].
  split; [reflexivity|]. split; [|reflexivity].
  now apply truthy_trim_not_blank.
Qed.

Lemma dispatch_opens_staff (e : Event) (s : State) :
  isConfirmModalOpen (staffForm s) = false ->
  isConfirmModalOpen (staffForm (dispatch e s)) = true ->
  e = InStaffForm SubmitMessage
  /\ blank (alertMessage (staffForm s)) = false
  /\ alertMessage (staffForm (dispatch e s)) = alertMessage (staffForm s).
Proof.
  intros Hc Ho.
  destruct (dispatch_staffForm e s) as [E|[(e' & -> & _ & E)|[_ E]]];
    rewrite E in *; try congruence.
  destruct (staffDispatch_opens e' (staffForm s) Hc Ho) as (-> & Hb & Hm).
  auto.
Qed.

Lemma staffOnly_dispatch_opens (e : EmitirAlertaStaffOnly.Event)
    (form : StaffForm) :
  isConfirmModalOpen form = false ->
  isConfirmModalOpen (EmitirAlertaStaffOnly.dispatch e form) = true ->
  e = EmitirAlertaStaffOnly.Form SubmitMessage
  /\ blank (alertMessage form) = false
  /\ alertMessage (EmitirAlertaStaffOnly.dispatch e form) = alertMessage form.
Proof.
  intros Hc Ho. destruct e as [e|]; cbn in *; [|congruence].
  destruct (staffDispatch_opens e form Hc Ho) as (-> & Hb & Hm). auto.
Qed.

End Wizard.

(** ** The wizard as a whole *)

Section WizardProperties.
Import EmitirAlerta.

(** C6. The staff alert wizard is a linear sequence: its step counter is
    always 1 (department), 2 (staff) or 3 (message); selecting a
    department moves to step 2 and clears the staff selection; the step
    goes from 2 to 3 only by "Avançar" with at least one staff member
    selected; going back takes exactly one off the step and never goes
    below 1. Both versions of the component behave so. *)
Theorem staff_wizard_is_linear
    (events : list Event) (event : Event)
    (events1 : list EmitirAlertaStaffOnly.Event)
    (event1 : EmitirAlertaStaffOnly.Event)
    (department : Department) (form : StaffForm) :
  let state := run events in
  let before := staffForm state in
  let after := staffForm (dispatch event state) in
  let before1 := EmitirAlertaStaffOnly.run events1 in
  let after1 := EmitirAlertaStaffOnly.dispatch event1 before1 in
  (validStep before /\ validStep before1)
  /\ (step (handleDepartmentSelect department form) = 2%Z
      /\ selectedStaffIds (handleDepartmentSelect department form) = []
      /\ selectedDepartment (handleDepartmentSelect department form)
         = Some department)
  /\ (step before = 2%Z -> step after = 3%Z ->
      event = InStaffForm ProceedToMessage
      /\ (0 < set_size (selectedStaffIds before))%Z)
  /\ (step before1 = 2%Z -> step after1 = 3%Z ->
      event1 = EmitirAlertaStaffOnly.Form ProceedToMessage
      /\ (0 < set_size (selectedStaffIds before1))%Z)
  /\ (event = InStaffForm GoBack ->
      (enabled event state = true -> step after = (step before - 1)%Z)
      /\ (enabled event state = false -> step after = step before)
      /\ (1 <= step after)%Z)
  /\ (event1 = EmitirAlertaStaffOnly.Form GoBack ->
      (staffEnabled GoBack before1 = true -> step after1 = (step before1 - 1)%Z)
      /\ (staffEnabled GoBack before1 = false -> step after1 = step before1)
      /\ (1 <= step after1)%Z)
  /\ step (handleBack form)
     = (if (1 <? step form)%Z then step form - 1 else step form)%Z.
Proof.
  intros state before after before1 after1.
  assert (Hv : validStep before) by apply run_validStep.
  assert (Hv1 : validStep before1) by apply staffOnly_run_validStep.
  split; [now split|]. split; [now repeat split|].
  split.
  { intros H2 H3. unfold after in *.
    destruct (dispatch_staffForm event state)
      as [E|[(e' & -> & _ & E)|[E _]]]; fold before in E;
      try (rewrite E in H3; lia).
    rewrite E in H3.
    destruct (staffDispatch_proceeds e' before H2 H3) as [-> Hs]. auto. }
  split.
  { intros H2 H3. unfold after1 in *. destruct event1 as [e|]; cbn in H3;
      [|lia].
    destruct (staffDispatch_proceeds e before1 H2 H3) as [-> Hs]. auto. }
  split.
  { intros ->. unfold after, dispatch.
    destruct (enabled (InStaffForm GoBack) state) eqn:En.
    - cbn [enabled] in En. apply andb_true_iff in En as [_ En].
      destruct (handleBack_rendered before En) as [Hs Hge].
      cbn [handler staffForm onStaff staffHandler]. fold state. fold before.
      split; [auto|]. split; [discriminate|exact Hge].
    - fold before. split; [discriminate|]. split; [reflexivity|].
      unfold validStep in Hv. lia. }
  split.
  { intros ->. unfold after1. cbn. unfold staffDispatch.
    destruct (staffEnabled GoBack before1) eqn:En.
    - destruct (handleBack_rendered before1 En) as [Hs Hge].
      cbn [staffHandler]. cbn in En.
      split; [auto|]. split; [congruence|exact Hge].
    - cbn in En. split; [congruence|]. split; [reflexivity|].
      unfold validStep in Hv1. lia. }
  unfold handleBack. now destruct (1 <? step form)%Z.
Qed.

(** C7. In the staff flow and in the group flow alike, the confirmation
    opens only on a composed message that is neither empty nor white
    space only, and an open confirmation was reached after such a message
    had been composed. *)
Theorem confirmation_needs_a_message
    (events : list Event) (event : Event)
    (events1 : list EmitirAlertaStaffOnly.Event)
    (event1 : EmitirAlertaStaffOnly.Event) :
  let state := run events in
  let next := dispatch event state in
  let form1 := EmitirAlertaStaffOnly.run events1 in
  let next1 := EmitirAlertaStaffOnly.dispatch event1 form1 in
  (isConfirmModalOpen (staffForm state) = false ->
   isConfirmModalOpen (staffForm next) = true ->
   blank (alertMessage (staffForm state)) = false
   /\ alertMessage (staffForm next) = alertMessage (staffForm state))
  /\ (isGroupConfirmModalOpen (groupForm state) = false ->
      isGroupConfirmModalOpen (groupForm next) = true ->
      blank (groupAlertMessage (groupForm state)) = false
      /\ groupAlertMessage (groupForm next)
         = groupAlertMessage (groupForm state))
  /\ (isConfirmModalOpen form1 = false ->
      isConfirmModalOpen next1 = true ->
      blank (alertMessage form1) = false
      /\ alertMessage next1 = alertMessage form1)
  /\ (isConfirmModalOpen (staffForm state) = true ->
      exists earlier later,
        events = earlier ++ later
        /\ blank (alertMessage (staffForm (run earlier))) = false)
  /\ (isGroupConfirmModalOpen (groupForm state) = true ->
      exists earlier later,
        events = earlier ++ later
        /\ blank (groupAlertMessage (groupForm (run earlier))) = false)
  /\ (isConfirmModalOpen form1 = true ->
      exists earlier later,
        events1 = earlier ++ later
        /\ blank (alertMessage (EmitirAlertaStaffOnly.run earlier)) = false).
Proof.
  intros state next form1 next1.
  split; [intros Hc Ho; now apply (dispatch_opens_staff event state Hc Ho)|].
  split; [intros Hc Ho; now apply (dispatch_opens_group event state Hc Ho)|].
  split; [intros Hc Ho; now apply (staffOnly_dispatch_opens event1 form1 Hc Ho)|].
  split; [|split].
  - apply (opened_after_message dispatch initialState
             (fun s => isConfirmModalOpen (staffForm s))
             (fun s => alertMessage (staffForm s))); [reflexivity|].
    intros e s Hc Ho. now apply (dispatch_opens_staff e s Hc Ho).
  - apply (opened_after_message dispatch initialState
             (fun s => isGroupConfirmModalOpen (groupForm s))
             (fun s => groupAlertMessage (groupForm s))); [reflexivity|].
    intros e s Hc Ho. now apply (dispatch_opens_group e s Hc Ho).
  - apply (opened_after_message EmitirAlertaStaffOnly.dispatch
             initialStaffForm isConfirmModalOpen alertMessage); [reflexivity|].
    intros e s Hc Ho. now apply (staffOnly_dispatch_opens e s Hc Ho).
Qed.

End WizardProperties.

(** ** Checks on sample data *)

Section AlertChecks.
Import EmitirAlerta AlertSamples.

Example walk_reaches_the_confirmation :
  step (staffForm (run walk)) = 3%Z
  /\ selectedStaffIds (staffForm (run walk)) = [lit "s1"; lit "s2"]
  /\ isConfirmModalOpen (staffForm (run walk)) = true.
Proof. repeat split. Qed.

Example toggle_twice_deselects :
  selectedStaffIds
    (staffForm (run [ ChooseAlertType staff;
                      InStaffForm (DepartmentSelect sales);
                      InStaffForm (StaffToggle (lit "s1"));
                      InStaffForm (StaffToggle (lit "s2"));
                      InStaffForm (StaffToggle (lit "s1")) ]))
  = [lit "s2"].
Proof. reflexivity. Qed.

(** Ana and Bruno are selected; Bruno has no phone, so one request goes
    out, to Ana, and the entry logged names her alone. *)
Example send_to_ana_and_bruno :
  let final := handleConfirmAndSend (lit "ev1") (Some admin)
                 Samples.staffList (run walk) fine (run walk) initialWorld in
  sent (finalWorld final) = [staffRequest text Samples.ana]
  /\ alertLogs (finalWorld final)
     = [staffEntry (lit "ev1") admin sales text [Samples.ana]]
  /\ submitStatus (staffForm (finalState final)) = success
  /\ outcome final = Fulfilled tt.
Proof. repeat split. Qed.

(** With Ana and Carla selected and the second request lost, both
    requests have left all the same, and the send ends in error. *)
Example send_on_flaky_network :
  let s := run [ ChooseAlertType staff;
                 InStaffForm (DepartmentSelect sales);
                 InStaffForm (StaffToggle (lit "s1"));
                 InStaffForm (StaffToggle (lit "s3"));
                 InStaffForm ProceedToMessage;
                 InStaffForm (ChangeMessage text);
                 InStaffForm SubmitMessage ] in
  let final := handleConfirmAndSend (lit "ev1") (Some admin)
                 Samples.staffList s flaky s initialWorld in
  sent (finalWorld final)
  = [staffRequest text Samples.ana; staffRequest text Samples.carla]
  /\ alertLogs (finalWorld final) = []
  /\ submitStatus (staffForm (finalState final)) = error.
Proof. repeat split. Qed.

Example group_send_sample :
  let final := handleGroupAlertSend (lit "ev1") (Some admin)
                 (run groupWalk) fine (run groupWalk) initialWorld in
  length (sent (finalWorld final)) = 1%nat
  /\ alertLogs (finalWorld final) = [groupEntry (lit "ev1") admin text]
  /\ groupSubmitStatus (groupForm (finalState final)) = success.
Proof. repeat split. Qed.

(** The reset scheduled by a successful send brings the component back
    to the choice of the alert type, with a fresh form. *)
Example reset_after_success :
  let final := handleConfirmAndSend (lit "ev1") (Some admin)
                 Samples.staffList (run walk) fine (run walk) initialWorld in
  map (fun t => (fst t, snd t (finalState final))) (timers (finalWorld final))
  = [(3000%Z, initialState)].
Proof. reflexivity. Qed.

(** The entries logged at work (C5): the staff alert to Ana and Bruno
    logs Ana, the one a request went to, under the department; the group
    alert logs the group marker under no department. *)
Lemma logged_entries_sample :
  let staffSend := handleConfirmAndSend (lit "ev1") (Some admin)
                     Samples.staffList (run walk) fine (run walk)
                     initialWorld in
  let groupSend := handleGroupAlertSend (lit "ev1") (Some admin)
                     (run groupWalk) fine (run groupWalk) initialWorld in
  alertLogs (finalWorld staffSend)
  = [ {| eventId := lit "ev1"; senderUserId := lit "u1";
         departmentId := Some (lit "d1"); message := text;
         recipients := [ {| staffId := lit "s1"; staffName := lit "Ana";
                            staffPhone := Some (lit "5511999990001") |} ] |} ]
  /\ alertLogs (finalWorld groupSend)
     = [ {| eventId := lit "ev1"; senderUserId := lit "u1";
            departmentId := None; message := text;
            recipients := [ {| staffId := lit "GROUP";
                               staffName := lit "Alerta para Grupo";
                               staffPhone := Some [] |} ] |} ].
Proof.
  destruct (alert_log_entry_contents (lit "ev1") (Some admin)
              Samples.staffList (run walk) (run walk) fine initialWorld)
    as (_ & Hs & _).
  destruct (alert_log_entry_contents (lit "ev1") (Some admin)
              Samples.staffList (run groupWalk) (run groupWalk) fine
              initialWorld)
    as (_ & _ & _ & Hg).
  split; [exact Hs|exact Hg].
Defined.

(** The batch at work (C2): with the second request lost, the first
    version has sent both requests and does not end in success. *)
Lemma batch_sample :
  let form := staffForm (run [ ChooseAlertType staff;
                               InStaffForm (DepartmentSelect sales);
                               InStaffForm (StaffToggle (lit "s1"));
                               InStaffForm (StaffToggle (lit "s3"));
                               InStaffForm ProceedToMessage;
                               InStaffForm (ChangeMessage text);
                               InStaffForm SubmitMessage ]) in
  let final1 :=
    EmitirAlertaStaffOnly.handleConfirmAndSend Samples.staffList form flaky
      form initialWorld in
  length (sent (finalWorld final1)) = 2%nat
  /\ respond flaky 1 (staffRequest text Samples.carla) = None
  /\ submitStatus (finalState final1) <> success.
Proof.
  intros form final1.
  destruct (one_request_per_selected_staff_with_phone (lit "ev1") (Some admin)
              Samples.staffList
              (run [ ChooseAlertType staff;
                     InStaffForm (DepartmentSelect sales);
                     InStaffForm (StaffToggle (lit "s1"));
                     InStaffForm (StaffToggle (lit "s3"));
                     InStaffForm ProceedToMessage;
                     InStaffForm (ChangeMessage text);
                     InStaffForm SubmitMessage ])
              initialState form flaky initialWorld initialWorld)
    as (_ & _ & _ & Hiff & _).
  split; [reflexivity|]. split; [reflexivity|].
  intros Hs. apply Hiff in Hs as [_ H].
  destruct (H 1%nat (staffRequest text Samples.carla) eq_refl)
    as [response [Hr _]].
  discriminate.
Defined.

(** Every webhook response is ok and yet no alert log entry is persisted:
    without a signed-in user the send succeeds and logs nothing. *)
Lemma send_without_user_logs_nothing :
  let form := staffForm (run walk) in
  let requests :=
    map (staffRequest (alertMessage form)) (targetsOf form Samples.staffList) in
  let final := handleConfirmAndSend (lit "ev1") None
                 Samples.staffList (run walk) fine (run walk) initialWorld in
  requests <> []
  /\ delivered fine 0 requests = true
  /\ sent (finalWorld final) = requests
  /\ submitStatus (staffForm (finalState final)) = success
  /\ alertLogs (finalWorld final) = [].
Proof. repeat split. discriminate. Qed.

(** A failed send at work (C1): the second request is lost, the flow ends
    in error and nothing is logged. *)
Lemma failed_send_sample :
  let s := run [ ChooseAlertType staff;
                 InStaffForm (DepartmentSelect sales);
                 InStaffForm (StaffToggle (lit "s1"));
                 InStaffForm (StaffToggle (lit "s3"));
                 InStaffForm ProceedToMessage;
                 InStaffForm (ChangeMessage text);
                 InStaffForm SubmitMessage ] in
  let requests :=
    map (staffRequest (alertMessage (staffForm s)))
        (targetsOf (staffForm s) Samples.staffList) in
  let final := handleConfirmAndSend (lit "ev1") (Some admin)
                 Samples.staffList s flaky s initialWorld in
  delivered flaky 0 requests = false
  /\ submitStatus (staffForm (finalState final)) = error
  /\ alertLogs (finalWorld final) = [].
Proof.
  intros s requests final. split; [reflexivity|].
  destruct (staff_send_outcome (lit "ev1") (Some admin) Samples.staffList
              s s flaky initialWorld) as (_ & _ & _ & _ & H).
  exact (H eq_refl).
Defined.

(** The wizard at work (C6): from step 2, with Ana and Bruno selected,
    "Avançar" leads to step 3. *)
Lemma proceed_sample :
  let events := [ ChooseAlertType staff;
                  InStaffForm (DepartmentSelect sales);
                  InStaffForm (StaffToggle (lit "s1"));
                  InStaffForm (StaffToggle (lit "s2")) ] in
  let before := staffForm (run events) in
  let after := staffForm (dispatch (InStaffForm ProceedToMessage) (run events)) in
  step before = 2%Z /\ step after = 3%Z
  /\ (0 < set_size (selectedStaffIds before))%Z.
Proof.
  intros events before after.
  destruct (staff_wizard_is_linear events (InStaffForm ProceedToMessage)
              walk1 (EmitirAlertaStaffOnly.Form GoBack) sales initialStaffForm)
    as (_ & _ & H & _).
  split; [reflexivity|]. split; [reflexivity|].
  exact (proj2 (H eq_refl eq_refl)).
Defined.

(** The confirmation at work (C7): it opens on the composed message. *)
Lemma confirmation_sample :
  let events := [ ChooseAlertType staff;
                  InStaffForm (DepartmentSelect sales);
                  InStaffForm (StaffToggle (lit "s1"));
                  InStaffForm ProceedToMessage;
                  InStaffForm (ChangeMessage text) ] in
  let state := run events in
  let next := dispatch (InStaffForm SubmitMessage) state in
  isConfirmModalOpen (staffForm state) = false
  /\ isConfirmModalOpen (staffForm next) = true
  /\ blank (alertMessage (staffForm state)) = false.
Proof.
  intros events state next.
  destruct (confirmation_needs_a_message events (InStaffForm SubmitMessage)
              walk1 (EmitirAlertaStaffOnly.Form GoBack))
    as (H & _).
  split; [reflexivity|]. split; [reflexivity|].
  exact (proj1 (H eq_refl eq_refl)).
Defined.

(** A blank message does not open the confirmation. *)
Example blank_message_stays_closed :
  let events := [ ChooseAlertType staff;
                  InStaffForm (DepartmentSelect sales);
                  InStaffForm (StaffToggle (lit "s1"));
                  InStaffForm ProceedToMessage;
                  InStaffForm (ChangeMessage [32%N; 10%N; 160%N; 8232%N]);
                  InStaffForm SubmitMessage ] in
  isConfirmModalOpen (staffForm (run events)) = false.
Proof. reflexivity. Qed.

End AlertChecks.

End AlertFacts.

(* ================================================================== *)
(** * More on the rankings *)
(* ================================================================== *)

Module RankingLaws.
Import Js Spec MoreSpec JsFacts Ranking RankingDisplay.

(** ** Every record is counted once *)

Lemma total_sorted_entries (counts : Obj Z) (mk : jsstring * Z -> ChartData) :
  (forall e, value (mk e) = snd e) ->
  total value (sort byValueDesc (map mk (entries counts))) = total snd counts.
Proof.
  intros Hmk. rewrite (total_perm _ _ _ (sort_perm _ _)), total_map.
  rewrite (total_perm _ _ _ (entries_perm _)).
  induction counts as [|e counts IH]; simpl; [reflexivity|].
  now rewrite Hmk, IH.
Qed.

Lemma tally_total_all {A} (key : A -> option jsstring) (l : list A) :
  total snd (tally key l empty)
  = Z.of_nat (length (filter (fun x => isSome (key x)) l)).
Proof.
  pose proof (RankingFacts.tally_total key l empty) as H. simpl in H.
  rewrite H. lia.
Qed.

Lemma filter_all {A} (p : A -> bool) (l : list A) :
  (forall x, p x = true) -> filter p l = l.
Proof.
  intros H. induction l as [|x l IH]; simpl; [reflexivity|].
  now rewrite H, IH.
Qed.

(** The sales-by-model ranking of sales whose model names are no
    inherited names. *)
Lemma salesMapData_plain sales :
  plainKeys (map modelName sales) ->
  salesMapData sales
  = Some (sort byValueDesc
            (map (fun e => {| label := fst e; value := snd e;
                              logoUrl := None |})
                 (entries (tally countedModel sales empty)))).
Proof.
  intros H. unfold salesMapData. cbv zeta.
  assert (Hc : salesMapCounts sales
               = asCounts (tally countedModel sales empty)).
  { apply (tally_asCounts countedModel sales empty).
    apply (RankingFacts.keysOf_sub countedModel modelName); [|exact H].
    now intros s k [= <-]. }
  now rewrite Hc, numbers_entries_asCounts.
Qed.

(** For booth codes that are no names objects inherit, the visits ranking
    loses no report and counts none twice: its counts add up to the number
    of (date-filtered) reports. *)
Theorem visits_counts_add_up
    (reports : list ReportSubmission) (companyInfoMap : Obj CompanyInfo)
    (dateFilter : jsstring) :
  let shown := filteredReports reports dateFilter in
  plainKeys (map r_boothCode shown) ->
  exists ranking,
    visitsData shown companyInfoMap = Some ranking
    /\ total value ranking = Z.of_nat (length shown).
Proof.
  intros shown Hp. eexists.
  split; [now apply RankingFacts.visitsData_plain|].
  rewrite total_sorted_entries by reflexivity.
  rewrite tally_total_all. now rewrite filter_all.
Qed.

Lemma visits_counts_of_the_samples :
  plainKeys (map r_boothCode (filteredReports Samples.reports []))
  /\ exists ranking,
       visitsData (filteredReports Samples.reports []) empty = Some ranking
       /\ total value ranking = 4%Z.
Proof.
  assert (Hp : plainKeys (map r_boothCode (filteredReports Samples.reports [])))
    by (repeat constructor).
  split; [exact Hp|].
  exact (visits_counts_add_up Samples.reports empty [] Hp).
Defined.

(** For labels that are no names objects inherit, the counts of the
    occurrences ranking add up to the number of (date-filtered) reports
    whose label is not of the form [__...__]. *)
Theorem occurrences_counts_add_up
    (reports : list ReportSubmission) (dateFilter : jsstring) :
  let shown := filteredReports reports dateFilter in
  plainKeys (map r_reportLabel shown) ->
  exists ranking,
    occurrencesData shown = Some ranking
    /\ total value ranking = Z.of_nat (length (countedReports shown)).
Proof.
  intros shown Hp. eexists.
  split; [now apply RankingFacts.occurrencesData_plain|].
  rewrite total_sorted_entries by reflexivity.
  rewrite tally_total_all.
  unfold countedReports. do 2 f_equal. apply RankingFacts.filter_ext_all.
  intros r. unfold countedLabel.
  now destruct (isHiddenLabel (r_reportLabel r)).
Qed.

Lemma occurrences_counts_of_the_samples :
  plainKeys (map r_reportLabel (filteredReports Samples.reports []))
  /\ exists ranking,
       occurrencesData (filteredReports Samples.reports []) = Some ranking
       /\ total value ranking = 3%Z.
Proof.
  assert (Hp : plainKeys (map r_reportLabel
                              (filteredReports Samples.reports [])))
    by (repeat constructor).
  split; [exact Hp|].
  exact (occurrences_counts_add_up Samples.reports [] Hp).
Defined.

(** ** The shape of a counting ranking *)

Lemma tally_ranking_In {A B} (key : A -> option jsstring) (l : list A)
    (cmp : B -> B -> Z) (mk : jsstring * Z -> B) (item : B) :
  In item (sort cmp (map mk (entries (tally key l empty))))
  <-> exists k, item = mk (k, occurrences key k l)
                /\ (0 < occurrences key k l)%Z.
Proof.
  rewrite sort_In, in_map_iff. split.
  - intros [[k v] [<- H]].
    apply (Permutation_in _ (tally_entries key l)) in H.
    apply in_map_iff in H as [k' [[= -> <-] H]].
    exists k. split; [reflexivity|].
    apply nodup_In in H. now apply In_keysOf.
  - intros [k [-> H]]. exists (k, occurrences key k l). split; [reflexivity|].
    apply (Permutation_in _ (Permutation_sym (tally_entries key l))).
    apply in_map_iff. exists k. split; [reflexivity|].
    apply nodup_In. now apply In_keysOf.
Qed.

Lemma modelName_truthy sale : truthy (modelName sale) = true.
Proof.
  unfold modelName. destruct (truthy (model sale)) eqn:E; [exact E|].
  destruct (truthy (marca sale)) eqn:E'; [exact E'|reflexivity].
Qed.

(** For model names that are no names objects inherit, the sales-by-model
    ranking counts every sale once, under its model, else its make, else
    ['Desconhecido']: no label is empty, the counts add up to the displayed
    total and come in descending order. *)
Theorem sales_by_model_counts_every_sale (sales : list DetailedSale) :
  plainKeys (map (fun sale => if truthy (model sale) then model sale
                              else if truthy (marca sale) then marca sale
                              else lit "Desconhecido") sales) ->
  exists ranking,
    salesMapData sales = Some ranking
    /\ total value ranking = totalSalesCount sales
    /\ sortedDesc value ranking
    /\ Permutation ranking
         (map (fun m => {| label := m;
                           value := occurrences countedModel m sales;
                           logoUrl := None |})
              (distinctKeys countedModel sales))
    /\ (forall sale, In sale sales ->
          In (if truthy (model sale) then model sale
              else if truthy (marca sale) then marca sale
              else lit "Desconhecido")
             (map label ranking))
    /\ (forall item, In item ranking -> label item <> []).
Proof.
  intros Hp. eexists. split; [now apply salesMapData_plain|].
  split; [|split; [|split; [|split]]].
  - rewrite total_sorted_entries by reflexivity.
    rewrite tally_total_all, filter_all by reflexivity. reflexivity.
  - apply (sort_desc byValueDesc value RankingFacts.byValueDesc_key).
  - rewrite sort_perm, tally_entries, map_map. reflexivity.
  - intros sale Hin. apply in_map_iff.
    exists {| label := modelName sale;
              value := occurrences countedModel (modelName sale) sales;
              logoUrl := None |}.
    split; [reflexivity|]. apply tally_ranking_In. exists (modelName sale).
    split; [reflexivity|]. apply In_keysOf. unfold keysOf.
    apply in_flat_map. exists sale. split; [exact Hin|]. now left.
  - intros item H. apply tally_ranking_In in H as [k [-> H]]. cbn [label].
    apply In_keysOf in H. unfold keysOf in H.
    apply in_flat_map in H as [sale [_ [<-|[]]]].
    pose proof (modelName_truthy sale) as Ht. cbn [fst]. intros E.
    rewrite E in Ht. discriminate.
Qed.

Lemma sales_by_model_of_the_samples :
  let sales := [Samples.soldByAcme; Samples.orphanSale; Samples.soldByAcme] in
  plainKeys (map modelName sales)
  /\ exists ranking,
       salesMapData sales = Some ranking /\ total value ranking = 3%Z.
Proof.
  intros sales.
  assert (Hp : plainKeys (map modelName sales)) by (repeat constructor).
  split; [exact Hp|].
  destruct (sales_by_model_counts_every_sale sales Hp)
    as (ranking & H1 & H2 & _).
  now exists ranking.
Defined.

(** ** The bars *)

Lemma Math_max0_sorted {A} (key : A -> Z) (l : list A) :
  sortedDesc key l -> (forall x, In x l -> 0 <= key x)%Z ->
  Math_max0 (map key l) = match l with [] => 0%Z | x :: _ => key x end.
Proof.
  unfold sortedDesc. intros Hs Hpos. destruct l as [|x l]; [reflexivity|].
  apply StronglySorted_inv in Hs as [_ Hx].
  assert (Hx0 : (0 <= key x)%Z) by (apply Hpos; now left).
  assert (Hle : (Math_max0 (map key l) <= key x)%Z).
  { clear Hpos. induction l as [|y l IH]; simpl; [exact Hx0|].
    apply Forall_cons_iff in Hx as [Hy Hx]. unfold desc in Hy.
    specialize (IH Hx). lia. }
  simpl. lia.
Qed.

Lemma Math_max0_bound (values : list Z) (v : Z) :
  In v values -> (v <= Math_max0 values)%Z.
Proof.
  induction values as [|y values IH]; simpl; [tauto|].
  intros [->|H]; [lia|]. specialize (IH H). lia.
Qed.

Lemma staffData_positive staffList activities item :
  In item (staffData staffList activities) -> (0 < value item)%Z.
Proof.
  unfold staffData. rewrite sort_In. intros H.
  apply filter_In in H as [_ H]. now apply Z.ltb_lt.
Qed.

(** A ranking made of the entries of a tally is in descending order and
    has positive counts only. *)
Lemma tally_ranking_bars {A} (key : A -> option jsstring) (l : list A)
    (mk : jsstring * Z -> ChartData) :
  (forall e, value (mk e) = snd e) ->
  let ranking := sort byValueDesc (map mk (entries (tally key l empty))) in
  sortedDesc value ranking
  /\ forall item, In item ranking -> (0 < value item)%Z.
Proof.
  intros Hmk ranking. split.
  - apply (sort_desc byValueDesc value RankingFacts.byValueDesc_key).
  - intros item H. apply tally_ranking_In in H as [k [-> H]].
    now rewrite Hmk.
Qed.

Lemma bars_of_sorted (data : list ChartData) :
  sortedDesc value data -> (forall item, In item data -> (0 < value item)%Z) ->
  maxValue data = match data with [] => 0%Z | first :: _ => value first end
  /\ (forall item, In item data ->
        (0 < value item)%Z /\ (value item <= maxValue data)%Z)
  /\ maxSalesMapValue data
     = match data with [] => None | _ :: _ => Some (maxValue data) end.
Proof.
  intros Hs Hp.
  assert (Hmax : maxValue data
                 = match data with [] => 0%Z | first :: _ => value first end).
  { apply Math_max0_sorted; [exact Hs|].
    intros x Hx. specialize (Hp x Hx). lia. }
  split; [exact Hmax|]. split.
  - intros item Hin. split; [now apply Hp|].
    apply Math_max0_bound. now apply in_map.
  - unfold maxSalesMapValue. rewrite Hmax. now destruct data.
Qed.

(** The bars fit, for booth codes, labels and model names that are no
    names objects inherit: on every tab of the bar chart the full bar
    ([maxValue]) is the count of the first item, every item has a count
    that is positive and no more than it, and with nothing to show it is
    0; the sales-by-model tab, which takes the first item as its full bar,
    agrees with the maximum. *)
Theorem bars_fit_the_full_bar
    (view : View) (reports : list ReportSubmission)
    (companyInfoMap : Obj CompanyInfo) (staffList : list Staff)
    (filteredActivities : Obj (list StaffActivity))
    (sales : list DetailedSale) (dateFilter : jsstring) :
  let shown := filteredReports reports dateFilter in
  let sold := filteredDetailedSales sales dateFilter in
  plainKeys (map r_boothCode shown) ->
  plainKeys (map r_reportLabel shown) ->
  plainKeys (map modelName sold) ->
  exists visits occurrences byModel,
    visitsData shown companyInfoMap = Some visits
    /\ occurrencesData shown = Some occurrences
    /\ salesMapData sold = Some byModel
    /\ let data := chartData view visits occurrences
                             (staffData staffList filteredActivities) in
       maxValue data = match data with [] => 0%Z | first :: _ => value first end
       /\ (forall item, In item data ->
             (0 < value item)%Z /\ (value item <= maxValue data)%Z)
       /\ maxSalesMapValue byModel
          = match byModel with
            | [] => None
            | _ :: _ => Some (maxValue byModel)
            end
       /\ (forall item, In item byModel ->
             (0 < value item)%Z /\ (value item <= maxValue byModel)%Z).
Proof.
  intros shown sold Hb Hl Hm. eexists. eexists. eexists.
  split; [now apply RankingFacts.visitsData_plain|].
  split; [now apply RankingFacts.occurrencesData_plain|].
  split; [now apply salesMapData_plain|].
  cbv zeta.
  match goal with
  | |- context [chartData view ?v ?o ?s] =>
      assert (Hdata : sortedDesc value (chartData view v o s)
                      /\ forall item, In item (chartData view v o s) ->
                                      (0 < value item)%Z)
  end.
  { destruct view; cbn [chartData];
      first [ now apply tally_ranking_bars
            | split; [apply (sort_desc byValueDesc value
                               RankingFacts.byValueDesc_key)
                     |apply staffData_positive] ]. }
  destruct Hdata as [Hs Hp].
  destruct (bars_of_sorted _ Hs Hp) as (H1 & H2 & _).
  split; [exact H1|]. split; [exact H2|].
  match goal with
  | |- context [maxSalesMapValue ?m] =>
      assert (Hmodel : sortedDesc value m
                       /\ forall item, In item m -> (0 < value item)%Z)
        by now apply tally_ranking_bars
  end.
  destruct Hmodel as [Hs' Hp'].
  destruct (bars_of_sorted _ Hs' Hp') as (_ & H3 & H4).
  split; [exact H4|exact H3].
Qed.

Lemma bars_of_the_samples :
  let shown := filteredReports Samples.reports [] in
  let sold := filteredDetailedSales [Samples.soldByAcme; Samples.orphanSale] [] in
  plainKeys (map r_boothCode shown)
  /\ plainKeys (map r_reportLabel shown)
  /\ plainKeys (map modelName sold)
  /\ exists visits,
       visitsData shown empty = Some visits /\ maxValue visits = 3%Z.
Proof.
  intros shown sold.
  assert (Hb : plainKeys (map r_boothCode shown)) by (repeat constructor).
  assert (Hl : plainKeys (map r_reportLabel shown)) by (repeat constructor).
  assert (Hm : plainKeys (map modelName sold)) by (repeat constructor).
  split; [exact Hb|]. split; [exact Hl|]. split; [exact Hm|].
  destruct (bars_fit_the_full_bar v_visits Samples.reports empty
              Samples.staffList empty
              [Samples.soldByAcme; Samples.orphanSale] [] Hb Hl Hm)
    as (visits & occurrences & byModel & Hv & _ & _ & Hmax & _).
  exists visits. split; [exact Hv|].
  cbn [chartData] in Hmax. rewrite Hmax.
  change (visitsData shown empty)
    with (Some [ {| label := lit "7"; value := 3%Z; logoUrl := None |};
                 {| label := lit "A1"; value := 1%Z; logoUrl := None |} ])
    in Hv.
  now injection Hv as <-.
Defined.

(** ** Sales by company *)

Lemma find_map {A B} (g : A -> B) (p : B -> bool) (l : list A) :
  find p (map g l) = option_map g (find (fun x => p (g x)) l).
Proof.
  induction l as [|x l IH]; simpl; [reflexivity|].
  now destruct (p (g x)).
Qed.

Lemma companyMap_get companies companyId :
  map_get (companyMap companies) companyId
  = participantWithId companies companyId.
Proof.
  unfold map_get, companyMap, map_of, map_set, participantWithId.
  rewrite (RankingFacts.fold_set_find fst snd). rewrite <- map_rev, find_map.
  cbn [fst snd]. now destruct (find _ (rev companies)).
Qed.

(** For company ids that are no names objects inherit, the
    sales-by-company ranking has one entry per company id of the sales,
    with the number of sales of that id, in descending order. The entry
    takes its name and logo from the participant company of that id (the
    last one listed), and is called ['Empresa Desconhecida'] when no
    participant has the id or the participant's name is empty; the name
    recorded in the sale is not used. The full bar of the tab is the
    count of the first entry. *)
Theorem sales_by_company_ranking
    (sales : list DetailedSale) (companies : list ParticipantCompany) :
  let entry companyId :=
    {| rc_id := companyId;
       rc_name := match participantWithId companies companyId with
                  | Some c => if truthy (c_name c) then c_name c
                              else lit "Empresa Desconhecida"
                  | None => lit "Empresa Desconhecida"
                  end;
       rc_salesCount := occurrences countedCompany companyId sales;
       rc_logoUrl := match participantWithId companies companyId with
                     | Some c => c_logoUrl c
                     | None => None
                     end |} in
  plainKeys (keysOf countedCompany sales) ->
  exists ranking,
    rankedCompaniesBySales sales companies = Some ranking
    /\ sortedDesc rc_salesCount ranking
    /\ Permutation ranking (map entry (distinctKeys countedCompany sales))
    /\ (forall item, In item ranking ->
          rc_id item <> [] /\ (0 < rc_salesCount item)%Z
          /\ (rc_salesCount item <= maxSalesCompanyValue ranking)%Z)
    /\ maxSalesCompanyValue ranking
       = match ranking with [] => 0%Z | first :: _ => rc_salesCount first end.
Proof.
  intros entry Hp. eexists. split.
  { unfold rankedCompaniesBySales. cbv zeta.
    rewrite (RankingFacts.salesByCompany_tally sales Hp).
    now rewrite numbers_entries_asCounts. }
  cbn [option_map].
  set (ranking := sort _ _).
  assert (Hs : sortedDesc rc_salesCount ranking).
  { apply (sort_desc _ rc_salesCount). reflexivity. }
  assert (Hin : forall item, In item ranking ->
                  rc_id item <> [] /\ (0 < rc_salesCount item)%Z).
  { intros item H. unfold ranking in H.
    apply tally_ranking_In in H as [k [-> H]]. cbn [rc_id rc_salesCount fst snd].
    split; [|exact H]. apply In_keysOf in H. unfold keysOf in H.
    apply in_flat_map in H as [sale [_ H]]. unfold countedCompany in H.
    destruct (companyIdOf sale) as [i|]; [|destruct H].
    destruct (truthy i) eqn:E; [|destruct H]. destruct H as [<-|[]].
    intros E0. now rewrite E0 in E. }
  split; [exact Hs|]. split; [|split].
  - unfold ranking.
    rewrite sort_perm, tally_entries, map_map.
    erewrite map_ext; [reflexivity|].
    intros i. unfold entry. cbn [fst snd]. rewrite companyMap_get.
    now destruct (participantWithId companies i).
  - intros item H. destruct (Hin item H) as [H1 H2].
    split; [exact H1|]. split; [exact H2|].
    apply Math_max0_bound. now apply in_map.
  - apply Math_max0_sorted; [exact Hs|].
    intros x Hx. destruct (Hin x Hx). lia.
Qed.

Lemma sales_by_company_of_the_samples :
  let sales := [Samples.soldByAcme; Samples.orphanSale; Samples.soldByAcme] in
  plainKeys (keysOf countedCompany sales)
  /\ exists ranking,
       rankedCompaniesBySales sales Samples.companies = Some ranking
       /\ sortedDesc rc_salesCount ranking.
Proof.
  intros sales.
  assert (Hp : plainKeys (keysOf countedCompany sales))
    by (repeat constructor).
  split; [exact Hp|].
  destruct (sales_by_company_ranking sales Samples.companies Hp)
    as (ranking & H1 & H2 & _).
  now exists ranking.
Defined.

(** ** Sales by seller *)

Lemma hasKey_countedSeller sellerId sale :
  hasKey countedSeller sellerId sale = true
  <-> exists c, collaborator sale = Some c /\ truthy (sl_id c) = true
                /\ sl_id c = sellerId.
Proof.
  unfold hasKey, countedSeller. destruct (collaborator sale) as [c|].
  - destruct (truthy (sl_id c)) eqn:E.
    + rewrite str_eqb_eq. split.
      * intros H. now exists c.
      * intros (c' & [= <-] & _ & H). exact H.
    + split; [discriminate|]. intros (c' & [= <-] & H & _). congruence.
  - split; [discriminate|]. intros (c' & H & _). discriminate.
Qed.

Lemma sellerStep_get_other acc sale sellerId :
  hasKey countedSeller sellerId sale = false ->
  lookup (sellerStep acc sale) sellerId = lookup acc sellerId.
Proof.
  intros H.
  destruct (collaborator sale) as [c|] eqn:Ec;
    [|unfold sellerStep; now rewrite Ec].
  destruct (truthy (sl_id c)) eqn:Et;
    [|unfold sellerStep; now rewrite Ec, Et].
  assert (Hne : str_eqb (sl_id c) sellerId = false).
  { unfold hasKey, countedSeller in H. now rewrite Ec, Et in H. }
  rewrite (RankingFacts.sellerStep_cases acc sale c Ec Et).
  destruct (lookup acc (sl_id c)) as [r|] eqn:E.
  - rewrite get_set. now rewrite Hne.
  - destruct (isInherited (sl_id c)); [reflexivity|].
    rewrite !get_set. now rewrite Hne.
Qed.

Lemma sellerStep_get_same acc sale c :
  collaborator sale = Some c -> truthy (sl_id c) = true ->
  isInherited (sl_id c) = false ->
  lookup (sellerStep acc sale) (sl_id c)
  = Some (incrSales match lookup acc (sl_id c) with
                    | Some r => r
                    | None => newSeller sale c
                    end).
Proof.
  intros Ec Et Ei. rewrite (RankingFacts.sellerStep_cases acc sale c Ec Et).
  destruct (lookup acc (sl_id c)) as [r|] eqn:E.
  - now rewrite get_set, str_eqb_refl.
  - now rewrite Ei, get_set, str_eqb_refl.
Qed.

Lemma salesByCollaborator_get_from acc sales sellerId :
  plainKeys (keysOf countedSeller sales) ->
  lookup (fold_left sellerStep sales acc) sellerId
  = match lookup acc sellerId with
    | Some r =>
        Some (withSales r (rs_salesCount r
                           + occurrences countedSeller sellerId sales))
    | None => sellerEntry sellerId sales
    end.
Proof.
  revert acc. induction sales as [|sale sales IH]; intros acc Hp.
  - unfold occurrences. cbn [fold_left filter length]. unfold sellerEntry.
    cbn [find]. destruct (lookup acc sellerId) as [r|]; [|reflexivity].
    destruct r. unfold withSales. cbn [rs_id rs_name rs_photoUrl
      rs_collaboratorCode rs_companyName rs_companyId rs_salesCount].
    do 2 f_equal. lia.
  - unfold keysOf in Hp. cbn [flat_map] in Hp.
    apply Forall_app in Hp as [Hsale Hp].
    cbn [fold_left]. rewrite (IH _ Hp), occurrences_cons.
    unfold sellerEntry, firstSaleOf. cbn [find]. rewrite occurrences_cons.
    destruct (hasKey countedSeller sellerId sale) eqn:Hk.
    + apply hasKey_countedSeller in Hk as (c & Ec & Et & <-).
      assert (Ei : isInherited (sl_id c) = false).
      { unfold countedSeller in Hsale. rewrite Ec, Et in Hsale.
        now apply Forall_cons_iff in Hsale as [Hsale _]. }
      rewrite (sellerStep_get_same acc sale c Ec Et Ei), Ec.
      destruct (lookup acc (sl_id c)) as [r|]; unfold withSales, incrSales;
        cbn [rs_id rs_name rs_photoUrl rs_collaboratorCode rs_companyName
             rs_companyId rs_salesCount newSeller];
        do 2 f_equal; lia.
    + rewrite (sellerStep_get_other acc sale sellerId Hk).
      destruct (lookup acc sellerId) as [r|]; [|reflexivity].
      do 2 f_equal.
Qed.

Lemma salesByCollaborator_get sales sellerId :
  plainKeys (keysOf countedSeller sales) ->
  lookup (salesByCollaborator sales) sellerId = sellerEntry sellerId sales.
Proof. apply (salesByCollaborator_get_from empty). Qed.

Lemma sellerEntry_id sellerId sales r :
  sellerEntry sellerId sales = Some r -> rs_id r = sellerId.
Proof.
  unfold sellerEntry, firstSaleOf.
  destruct (find _ sales) as [sale|] eqn:E; [|discriminate].
  apply find_some in E as [_ E].
  apply hasKey_countedSeller in E as (c & -> & _ & <-).
  now intros [= <-].
Qed.

Lemma salesByCollaborator_uniqueKeys sales :
  uniqueKeys (salesByCollaborator sales).
Proof.
  unfold salesByCollaborator.
  apply (AlertFacts.fold_left_invariant uniqueKeys); [constructor|].
  intros acc sale H.
  destruct (collaborator sale) as [c|] eqn:Ec;
    [|unfold sellerStep; now rewrite Ec].
  destruct (truthy (sl_id c)) eqn:Et;
    [|unfold sellerStep; now rewrite Ec, Et].
  rewrite (RankingFacts.sellerStep_cases acc sale c Ec Et).
  destruct (lookup acc (sl_id c)) as [r|] eqn:E.
  - now apply set_uniqueKeys.
  - destruct (isInherited (sl_id c)); [exact H|].
    now do 2 apply set_uniqueKeys.
Qed.

(** For seller ids that are no names objects inherit, the sales-by-seller
    ranking lists a seller once, with the number of all the sales that name
    the seller, in descending order of that number. The company shown for
    a seller is the company of the first such sale (['N/A'] when that sale
    has none), whatever the later sales say; under a company filter the
    seller is listed only when that first company is the one chosen. *)
Theorem sales_by_seller_ranking
    (sales : list DetailedSale) (sellerCompanyFilter : jsstring) :
  let ranking := rankedSellers sales sellerCompanyFilter in
  plainKeys (keysOf countedSeller sales) ->
  sortedDesc rs_salesCount ranking
  /\ NoDup (map rs_id ranking)
  /\ (forall seller,
        In seller ranking
        <-> sellerEntry (rs_id seller) sales = Some seller
            /\ (sellerCompanyFilter = lit "all"
                \/ rs_companyId seller = sellerCompanyFilter))
  /\ (forall seller, In seller ranking ->
        (0 < rs_salesCount seller)%Z
        /\ (rs_salesCount seller <= maxSellerValue ranking)%Z).
Proof.
  intros ranking Hp.
  assert (Hu : uniqueKeys (salesByCollaborator sales))
    by apply salesByCollaborator_uniqueKeys.
  assert (Hall : forall seller,
            In seller (values (salesByCollaborator sales))
            <-> sellerEntry (rs_id seller) sales = Some seller).
  { intros seller. unfold values. rewrite in_map_iff. split.
    - intros [[k v] [<- H]]. cbn [snd].
      apply In_entries in H; [|exact Hu].
      rewrite (salesByCollaborator_get sales k Hp) in H.
      now rewrite (sellerEntry_id k sales v H).
    - intros H. exists (rs_id seller, seller). split; [reflexivity|].
      apply In_entries; [exact Hu|].
      now rewrite (salesByCollaborator_get sales _ Hp). }
  assert (Hin : forall seller,
            In seller ranking
            <-> sellerEntry (rs_id seller) sales = Some seller
                /\ (sellerCompanyFilter = lit "all"
                    \/ rs_companyId seller = sellerCompanyFilter)).
  { intros seller. unfold ranking, rankedSellers. cbv zeta. rewrite sort_In.
    destruct (str_eqb sellerCompanyFilter (lit "all")) eqn:E.
    - apply str_eqb_eq in E. rewrite Hall. tauto.
    - apply str_eqb_neq in E. rewrite filter_In, Hall, str_eqb_eq. tauto. }
  assert (Hnd : NoDup (map rs_id (values (salesByCollaborator sales)))).
  { unfold values. rewrite map_map.
    assert (Hk : map (fun e => rs_id (snd e)) (entries (salesByCollaborator sales))
                 = map fst (entries (salesByCollaborator sales))).
    { apply map_ext_in. intros [k v] H. cbn [fst snd].
      apply In_entries in H; [|exact Hu].
      rewrite (salesByCollaborator_get sales k Hp) in H.
      now apply sellerEntry_id in H. }
    rewrite Hk. now apply entries_uniqueKeys. }
  split; [apply (sort_desc _ rs_salesCount); reflexivity|].
  split; [|split; [exact Hin|]].
  - unfold ranking, rankedSellers. cbv zeta.
    eapply Permutation_NoDup;
      [apply Permutation_map; symmetry; apply sort_perm|].
    destruct (str_eqb sellerCompanyFilter (lit "all")); [exact Hnd|].
    clear - Hnd. induction (values (salesByCollaborator sales)) as [|x l IH];
      [constructor|].
    cbn [map] in Hnd. apply NoDup_cons_iff in Hnd as [Hx Hl].
    cbn [filter]. destruct (str_eqb (rs_companyId x) sellerCompanyFilter).
    + cbn [map]. constructor; [|now apply IH].
      intros H. apply Hx. apply in_map_iff in H as [y [Hy H]].
      apply filter_In in H as [H _]. apply in_map_iff. now exists y.
    + now apply IH.
  - intros seller H. split.
    + apply Hin in H as [H _]. unfold sellerEntry in H.
      destruct (firstSaleOf (rs_id seller) sales) as [sale|] eqn:E;
        [|discriminate].
      destruct (collaborator sale); [|discriminate].
      injection H as <-. cbn [withSales rs_salesCount rs_id newSeller] in *.
      apply In_keysOf. unfold firstSaleOf in E. apply find_some in E as [E1 E2].
      unfold keysOf. apply in_flat_map. exists sale. split; [exact E1|].
      unfold hasKey in E2. destruct (countedSeller sale) as [k|]; [|discriminate].
      apply str_eqb_eq in E2 as ->. now left.
    + apply Math_max0_bound. now apply in_map.
Qed.

Lemma sales_by_seller_of_the_samples :
  let sales := [Samples.soldByAcme; Samples.orphanSale; Samples.soldByAcme] in
  plainKeys (keysOf countedSeller sales)
  /\ map (fun r => (rs_id r, rs_salesCount r)) (rankedSellers sales (lit "all"))
     = [(lit "v1", 2%Z)]
  /\ sortedDesc rs_salesCount (rankedSellers sales (lit "all")).
Proof.
  intros sales.
  assert (Hp : plainKeys (keysOf countedSeller sales))
    by (repeat constructor).
  split; [exact Hp|]. split; [reflexivity|].
  exact (proj1 (sales_by_seller_ranking sales (lit "all") Hp)).
Defined.

(** ** The activities fetched *)

Lemma nth_error_combine {A B} (l1 : list A) (l2 : list B) i a b :
  nth_error l1 i = Some a -> nth_error l2 i = Some b ->
  In (a, b) (combine l1 l2).
Proof.
  revert l2 i. induction l1 as [|x l1 IH]; intros [|y l2] [|i]; simpl;
    try discriminate.
  - intros [= ->] [= ->]. now left.
  - intros H1 H2. right. now apply (IH l2 i).
Qed.

(** With staff ids that are all different and none of which is
    [__proto__], a read under the id of a fetched staff member finds the
    activities fetched for that member, and they are the ones counted; a
    read under an id that no fetched member has, and that is no name
    objects inherit, finds nothing and counts as no activity. *)
Theorem activities_are_kept_by_staff_id
    (staffData : list Staff) (activitiesData : list (list StaffActivity)) :
  NoDup (map s_id staffData) ->
  ~ In protoKey (map s_id staffData) ->
  exists activities,
    activitiesMap staffData activitiesData = Some activities
    /\ (forall i s acts,
          nth_error staffData i = Some s ->
          nth_error activitiesData i = Some acts ->
          get activities (s_id s) = Own acts
          /\ activityCount activities s = Z.of_nat (length acts))
    /\ (forall s,
          ~ In (s_id s) (map s_id staffData) ->
          isInherited (s_id s) = false ->
          get activities (s_id s) = Undefined
          /\ activityCount activities s = 0%Z).
Proof.
  intros Hnd Hp. eexists.
  split; [now apply RankingFacts.activitiesMap_plain|]. split.
  - intros i s acts Hs Ha.
    pose proof (nth_error_combine _ _ _ _ _ Hs Ha) as Hin.
    pose proof (RankingFacts.fetched_lookup staffData activitiesData
                  (s, acts) Hnd Hin) as Hl.
    cbn [fst snd] in Hl.
    unfold activityCount. now rewrite (get_own _ _ _ Hl).
  - intros s Hs Hi.
    assert (H : lookup (dictOf (fun sa : Staff * list StaffActivity =>
                                  s_id (fst sa)) snd
                               (combine staffData activitiesData)) (s_id s)
                = None).
    { apply get_None. intros Hk. apply RankingFacts.dictOf_keys in Hk.
      apply Hs. apply in_map_iff in Hk as [[s' a'] [E Hin]].
      cbn [fst] in E. rewrite <- E. apply in_map.
      now apply in_combine_l in Hin. }
    unfold activityCount. now rewrite (get_plain _ _ Hi), H.
Qed.

(** The sample staff have three different ids. *)
Lemma activities_of_sample_staff :
  NoDup (map s_id Samples.staffList)
  /\ ~ In protoKey (map s_id Samples.staffList)
  /\ exists activities,
       activitiesMap Samples.staffList Samples.activitiesData = Some activities
       /\ get activities (s_id Samples.carla)
          = Own [Samples.activity "2024-05-02T08:00:00.000Z"].
Proof.
  assert (Hnd : NoDup (map s_id Samples.staffList)).
  { repeat constructor; cbn; intuition discriminate. }
  assert (Hp : ~ In protoKey (map s_id Samples.staffList)) by no_proto.
  split; [exact Hnd|]. split; [exact Hp|].
  destruct (activities_are_kept_by_staff_id Samples.staffList
              Samples.activitiesData Hnd Hp) as (activities & Ha & H & _).
  exists activities. split; [exact Ha|].
  exact (proj1 (H 2%nat Samples.carla _ eq_refl eq_refl)).
Defined.

(** ** The exports *)

Lemma isSafeChar_spec (c : N) :
  isSafeChar c = true
  <-> (48 <= c <= 57 \/ c = 95 \/ 97 <= c <= 122)%N.
Proof.
  unfold isSafeChar.
  rewrite !orb_true_iff, !andb_true_iff, !N.leb_le, N.eqb_eq. tauto.
Qed.

Lemma isWordChar_spec (c : N) :
  isWordChar c = true
  <-> (48 <= c <= 57 \/ 65 <= c <= 90 \/ c = 95 \/ 97 <= c <= 122)%N.
Proof.
  unfold isWordChar.
  rewrite !orb_true_iff, !andb_true_iff, !N.leb_le, N.eqb_eq. tauto.
Qed.

Lemma isCapital_spec (c : N) :
  ((65 <=? c) && (c <=? 90))%N = true <-> (65 <= c <= 90)%N.
Proof. now rewrite andb_true_iff, !N.leb_le. Qed.

(** The two passes over the label, character by character. *)
Lemma safeLabel_chars (label : jsstring) :
  toLowerCaseAscii (replaceNonWord label) = map safeChar label.
Proof.
  unfold toLowerCaseAscii, replaceNonWord. rewrite map_map.
  apply map_ext. intros c. unfold safeChar.
  destruct ((48 <=? c) && (c <=? 57) || (c =? 95)
            || (97 <=? c) && (c <=? 122))%N eqn:Es.
  - fold (isSafeChar c) in Es. apply isSafeChar_spec in Es.
    assert (Ew : isWordChar c = true) by (apply isWordChar_spec; lia).
    rewrite Ew.
    destruct ((65 <=? c) && (c <=? 90))%N eqn:Ec; [|reflexivity].
    apply isCapital_spec in Ec. lia.
  - destruct ((65 <=? c) && (c <=? 90))%N eqn:Ec.
    + assert (Ew : isWordChar c = true).
      { apply isWordChar_spec. apply isCapital_spec in Ec. lia. }
      now rewrite Ew, Ec.
    + assert (Ew : isWordChar c = false).
      { destruct (isWordChar c) eqn:Ew; [|reflexivity].
        apply isWordChar_spec in Ew.
        assert (~ (65 <= c <= 90)%N) by (rewrite <- isCapital_spec; congruence).
        assert (~ isSafeChar c = true) by (unfold isSafeChar; congruence).
        rewrite isSafeChar_spec in *. lia. }
      rewrite Ew. reflexivity.
Qed.

Lemma safeChar_safe (c : N) : isSafeChar (safeChar c) = true.
Proof.
  unfold safeChar.
  destruct ((48 <=? c) && (c <=? 57) || (c =? 95)
            || (97 <=? c) && (c <=? 122))%N eqn:Es; [exact Es|].
  destruct ((65 <=? c) && (c <=? 90))%N eqn:Ec; [|reflexivity].
  apply isCapital_spec in Ec. apply isSafeChar_spec. lia.
Qed.

(** The occurrences report is saved, for a single label, under
    [relatorio_], the label and [.pdf], where each character of the label
    that is a lower-case letter, a digit or an underscore stands as it is,
    a capital letter [A-Z] is lowered and every other character is an
    underscore: the name holds no other character than those, as long as
    the label, and a label that is already made of them is kept as it is.
    For several labels the name is fixed, and with no label nothing is
    saved. *)
Theorem occurrences_report_name_is_safe
    (first second : jsstring) (rest : list jsstring) :
  occurrencesFileName [] = None
  /\ occurrencesFileName [first]
     = Some (lit "relatorio_"
             ++ map (fun c =>
                       if ((48 <=? c) && (c <=? 57) || (c =? 95)
                           || (97 <=? c) && (c <=? 122))%N then c
                       else if ((65 <=? c) && (c <=? 90))%N then (c + 32)%N
                       else 95%N) first
             ++ lit ".pdf")
  /\ forallb isSafeChar (toLowerCaseAscii (replaceNonWord first)) = true
  /\ (forallb isSafeChar first = true ->
      occurrencesFileName [first]
      = Some (lit "relatorio_" ++ first ++ lit ".pdf"))
  /\ occurrencesFileName (first :: second :: rest)
     = Some (lit "relatorio_completo_ocorrencias.pdf").
Proof.
  split; [reflexivity|].
  assert (Hname : occurrencesFileName [first]
                  = Some (lit "relatorio_" ++ map safeChar first
                          ++ lit ".pdf")).
  { cbn [occurrencesFileName length Nat.eqb]. now rewrite safeLabel_chars. }
  split; [exact Hname|]. split; [|split; [|reflexivity]].
  - rewrite safeLabel_chars. apply forallb_forall.
    intros c H. apply in_map_iff in H as [d [<- _]]. apply safeChar_safe.
  - intros H. rewrite Hname. do 3 f_equal.
    rewrite <- (map_id first) at 2. apply map_ext_in.
    intros c Hc. rewrite forallb_forall in H. specialize (H c Hc).
    unfold safeChar. unfold isSafeChar in H. now rewrite H.
Qed.

(** A row of the occurrences PDF for a report whose label is no inherited
    name. *)
Lemma occurrenceRow_plain toLocaleString questionMap companyInfoMap report :
  isInherited (r_reportLabel report) = false ->
  occurrenceRow toLocaleString questionMap companyInfoMap report
  = Some (plainRow toLocaleString questionMap companyInfoMap report).
Proof.
  intros H. unfold occurrenceRow, questionOf, plainRow.
  rewrite (get_plain _ _ H).
  now destruct (lookup questionMap (r_reportLabel report)).
Qed.

Lemma allRows_plain toLocaleString questionMap companyInfoMap reports :
  plainKeys (map r_reportLabel reports) ->
  allRows (map (occurrenceRow toLocaleString questionMap companyInfoMap)
               reports)
  = Some (map (plainRow toLocaleString questionMap companyInfoMap) reports).
Proof.
  induction reports as [|r reports IH]; intros Hp; [reflexivity|].
  apply Forall_cons_iff in Hp as [Hr Hp]. cbn [map allRows].
  rewrite (occurrenceRow_plain _ _ _ r Hr), (IH Hp). reflexivity.
Qed.

Lemma plainKeys_filter {A} (f : A -> jsstring) (p : A -> bool) (l : list A) :
  plainKeys (map f l) -> plainKeys (map f (filter p l)).
Proof.
  unfold plainKeys. rewrite !Forall_forall. intros H k Hk.
  apply H. apply in_map_iff in Hk as [x [<- Hx]].
  apply filter_In in Hx as [Hx _]. now apply in_map.
Qed.

(** The tables of the occurrences PDF for reports whose labels are no
    inherited names: one per label that has reports, in the order of the
    labels. *)
Lemma occurrenceTables_plain toLocaleString questionMap companyInfoMap
    shown labels :
  plainKeys (map r_reportLabel shown) ->
  occurrenceTables toLocaleString questionMap companyInfoMap shown labels
  = Some (flat_map
            (fun l =>
               match labelled l shown with
               | [] => []
               | _ :: _ =>
                   [(l, map (plainRow toLocaleString questionMap
                                      companyInfoMap)
                            (labelled l shown))]
               end)
            labels).
Proof.
  intros Hp. induction labels as [|l labels IH]; [reflexivity|].
  cbn [occurrenceTables flat_map]. cbv zeta. rewrite IH.
  fold (labelled l shown).
  rewrite (allRows_plain _ _ _ (labelled l shown))
    by (unfold labelled; now apply plainKeys_filter).
  now destruct (labelled l shown).
Qed.

Lemma occurrences_items shown item :
  In item (sort byValueDesc
             (map (fun e => {| label := fst e; value := snd e;
                               logoUrl := None |})
                  (entries (tally countedLabel shown empty)))) ->
  value item = Z.of_nat (length (labelled (label item) shown))
  /\ (0 < value item)%Z.
Proof.
  intros H. apply tally_ranking_In in H as [l [-> H]]. cbn [label value fst snd].
  rewrite RankingFacts.occurrences_countedLabel in *.
  destruct (isHiddenLabel l); [lia|]. auto.
Qed.

(** For labels that are no names objects inherit, the occurrences PDF
    agrees with the ranking it is made from: given the labels of the
    ranking, it has one table per entry, in the order of the ranking, with
    as many rows as the entry counts; a label that no shown report bears
    gets no table. *)
Theorem occurrences_pdf_follows_the_ranking
    (toLocaleString : jsstring -> jsstring)
    (buttonConfigs : list ReportButtonConfig)
    (companyInfoMap : Obj CompanyInfo)
    (reports : list ReportSubmission) (dateFilter : jsstring) :
  let shown := filteredReports reports dateFilter in
  let tablesFor :=
    occurrenceTables toLocaleString (questionMap buttonConfigs)
                     companyInfoMap shown in
  plainKeys (map r_reportLabel shown) ->
  exists ranking tables,
    occurrencesData shown = Some ranking
    /\ tablesFor (map label ranking) = Some tables
    /\ map (fun t => (fst t, Z.of_nat (length (snd t)))) tables
       = map (fun i => (label i, value i)) ranking
    /\ (forall l, labelled l shown = [] -> tablesFor [l] = Some []).
Proof.
  intros shown tablesFor Hp. eexists. eexists.
  split; [now apply RankingFacts.occurrencesData_plain|].
  split; [unfold tablesFor; now apply occurrenceTables_plain|].
  split.
  - pose proof (occurrences_items shown) as Hitems.
    induction (sort byValueDesc _) as [|item items IH]; [reflexivity|].
    destruct (Hitems item (or_introl eq_refl)) as [Hv Hpos].
    cbn [map flat_map].
    destruct (labelled (label item) shown) as [|r rs] eqn:E;
      [cbn [length] in Hv; lia|].
    cbn [app map fst snd length]. rewrite length_map.
    f_equal; [now rewrite Hv|].
    apply IH. intros i Hi. apply Hitems. now right.
  - intros l H. unfold tablesFor.
    rewrite (occurrenceTables_plain _ _ _ shown [l] Hp).
    cbn [flat_map]. now rewrite H.
Qed.

Lemma occurrences_pdf_of_the_samples :
  let shown := filteredReports Samples.reports [] in
  plainKeys (map r_reportLabel shown)
  /\ exists tables,
       occurrenceTables (fun t => t) (questionMap Samples.buttons) empty shown
                        [lit "Visita"; lit "Agua"] = Some tables
       /\ map (fun t => (fst t, Z.of_nat (length (snd t)))) tables
          = [(lit "Visita", 2%Z); (lit "Agua", 1%Z)].
Proof.
  intros shown.
  assert (Hp : plainKeys (map r_reportLabel shown)) by (repeat constructor).
  split; [exact Hp|].
  destruct (occurrences_pdf_follows_the_ranking (fun t => t) Samples.buttons
              empty Samples.reports [] Hp)
    as (ranking & tables & Hr & Ht & Hrows & _).
  change (occurrencesData (filteredReports Samples.reports []))
    with (Some [ {| label := lit "Visita"; value := 2%Z; logoUrl := None |};
                 {| label := lit "Agua"; value := 1%Z; logoUrl := None |} ])
    in Hr.
  injection Hr as <-. exists tables. split; [exact Ht|exact Hrows].
Defined.

(** The sales CSV has one row of six cells per (date-filtered) sale, as
    many as the displayed total, sales without company or seller included
    (they read ['N/A']); with no sale nothing is exported. *)
Theorem sales_csv_has_every_sale
    (toLocaleString : jsstring -> jsstring) (sales : list DetailedSale) :
  match salesCsvRows toLocaleString sales with
  | None => sales = []
  | Some rows =>
      sales <> []
      /\ Z.of_nat (length rows) = totalSalesCount sales
      /\ Forall (fun row => length row = 6%nat) rows
      /\ (forall sale, In sale sales ->
            company sale = None -> collaborator sale = None ->
            In [ marca sale; model sale; or_else (placa sale) (lit "N/D");
                 lit "N/A"; lit "N/A"; toLocaleString (updatedAt sale) ]
               rows)
  end.
Proof.
  unfold salesCsvRows. destruct sales as [|s sales]; [reflexivity|].
  cbn [length Nat.eqb]. split; [discriminate|]. split; [|split].
  - unfold totalSalesCount. now rewrite length_map.
  - apply Forall_forall. intros row H. apply in_map_iff in H as [x [<- _]].
    reflexivity.
  - intros sale Hin Hc Hs. apply in_map_iff. exists sale.
    split; [|exact Hin]. now rewrite Hc, Hs.
Qed.

(** The question kept for a label that is no inherited name is that of the
    last button configured with the label. *)
Lemma questionMap_lookup buttonConfigs l :
  isInherited l = false ->
  lookup (questionMap buttonConfigs) l
  = option_map b_question
      (find (fun c => str_eqb (b_label c) l) (rev buttonConfigs)).
Proof.
  intros Hl. unfold questionMap.
  induction buttonConfigs as [|c configs IH] using rev_ind; [reflexivity|].
  rewrite fold_left_app, rev_app_distr. cbn [fold_left app rev find].
  destruct (str_eqb (b_label c) l) eqn:E.
  - apply str_eqb_eq in E. subst l. rewrite (set_plain _ _ _ Hl).
    now rewrite get_set, str_eqb_refl.
  - unfold set at 1. destruct (lookup _ (b_label c)).
    + now rewrite get_set, E.
    + destruct (str_eqb (b_label c) protoKey); [exact IH|].
      now rewrite get_set, E.
Qed.

(** When no label and no booth code of the reports shown is a name
    objects inherit and no booth code of a company is [__proto__]: every
    table of the occurrences PDF is for one of the labels given, is not
    empty and has one row per shown report that bears the label. The row
    quotes the question of the last button configured with that label, and
    the label itself when no button has it or its question is empty; the
    booth cell is the name of the company of the booth code, or the booth
    code when no company has it or the name is empty. *)
Theorem occurrence_rows_quote_the_question
    (toLocaleString : jsstring -> jsstring)
    (buttonConfigs : list ReportButtonConfig)
    (companies : list ParticipantCompany)
    (shown : list ReportSubmission) (labels : list jsstring) :
  let rowOf r :=
    [ match companyAt companies (r_boothCode r) with
      | Some c => if truthy (c_name c) then c_name c else r_boothCode r
      | None => r_boothCode r
      end;
      match find (fun c => str_eqb (b_label c) (r_reportLabel r))
                 (rev buttonConfigs) with
      | Some c => if truthy (b_question c) then b_question c
                  else r_reportLabel r
      | None => r_reportLabel r
      end ++ lit (String "010" (String "010" "")) ++ r_response r;
      r_staffName r;
      toLocaleString (r_timestamp r) ] in
  plainKeys (map r_reportLabel shown) ->
  plainKeys (map r_boothCode shown) ->
  ~ In protoKey (map c_boothCode companies) ->
  exists companyInfo tables,
    companyInfoMap companies = Some companyInfo
    /\ occurrenceTables toLocaleString (questionMap buttonConfigs)
                        companyInfo shown labels = Some tables
    /\ (forall r, In r shown ->
          occurrenceRow toLocaleString (questionMap buttonConfigs)
                        companyInfo r = Some (rowOf r))
    /\ (forall l rows, In (l, rows) tables ->
          In l labels /\ rows <> [] /\ rows = map rowOf (labelled l shown)).
Proof.
  intros rowOf Hl Hb Hc. eexists. eexists.
  split; [now apply RankingFacts.companyInfoMap_plain|].
  split; [now apply occurrenceTables_plain|].
  assert (Hrow : forall r, In r shown ->
            plainRow toLocaleString (questionMap buttonConfigs)
                     (dictOf c_boothCode companyInfoOf companies) r
            = rowOf r).
  { intros r Hr. unfold plainRow, rowOf.
    assert (Hrl : isInherited (r_reportLabel r) = false).
    { unfold plainKeys in Hl. rewrite Forall_forall in Hl.
      apply Hl. now apply in_map. }
    assert (Hrb : isInherited (r_boothCode r) = false).
    { unfold plainKeys in Hb. rewrite Forall_forall in Hb.
      apply Hb. now apply in_map. }
    destruct (RankingFacts.visitsLabel_plain companies (r_boothCode r) Hrb)
      as [-> _].
    rewrite (questionMap_lookup buttonConfigs _ Hrl).
    now destruct (find _ (rev buttonConfigs)). }
  split.
  - intros r Hr. rewrite occurrenceRow_plain.
    + now rewrite (Hrow r Hr).
    + unfold plainKeys in Hl. rewrite Forall_forall in Hl.
      apply Hl. now apply in_map.
  - intros l rows H.
    apply in_flat_map in H as [l' [Hin H]].
    destruct (labelled l' shown) as [|r rest] eqn:E; [destruct H|].
    destruct H as [H|[]]. injection H as <- <-.
    split; [exact Hin|]. split; [discriminate|]. rewrite E.
    apply (map_ext_in
             (plainRow toLocaleString (questionMap buttonConfigs)
                       (dictOf c_boothCode companyInfoOf companies))
             rowOf (r :: rest)).
    intros r' Hr'. apply Hrow.
    rewrite <- E in Hr'. unfold labelled in Hr'.
    now apply filter_In in Hr' as [Hr' _].
Qed.

Lemma occurrence_rows_of_the_samples :
  let shown := filteredReports Samples.reports [] in
  plainKeys (map r_reportLabel shown)
  /\ plainKeys (map r_boothCode shown)
  /\ ~ In protoKey (map c_boothCode Samples.companies)
  /\ exists companyInfo,
       companyInfoMap Samples.companies = Some companyInfo
       /\ option_map (fun row => nth 1 row [])
            (occurrenceRow (fun t => t) (questionMap Samples.buttons)
               companyInfo
               (Samples.report "2024-05-01T12:00:00.000Z" "7" "Agua"))
          = Some (lit "Falta agua?" ++ [10%N; 10%N] ++ lit "ok").
Proof.
  intros shown.
  assert (Hl : plainKeys (map r_reportLabel shown)) by (repeat constructor).
  assert (Hb : plainKeys (map r_boothCode shown)) by (repeat constructor).
  assert (Hc : ~ In protoKey (map c_boothCode Samples.companies))
    by no_proto.
  split; [exact Hl|]. split; [exact Hb|]. split; [exact Hc|].
  destruct (occurrence_rows_quote_the_question (fun t => t) Samples.buttons
              Samples.companies shown [] Hl Hb Hc)
    as (companyInfo & tables & Hci & _ & Hrow & _).
  exists companyInfo. split; [exact Hci|].
  rewrite (Hrow (Samples.report "2024-05-01T12:00:00.000Z" "7" "Agua")).
  - reflexivity.
  - right. right. right. now left.
Defined.

(** ** The ranking tables *)

Lemma tableRowsFrom_nth (index : Z) (data : list ChartData) (i : nat) :
  nth_error (tableRowsFrom index data) i
  = option_map (fun item => (index + Z.of_nat i + 1, label item, value item)%Z)
               (nth_error data i).
Proof.
  revert index i. induction data as [|item rest IH]; intros index i.
  - now destruct i.
  - destruct i as [|i]; cbn [tableRowsFrom nth_error option_map].
    + do 3 f_equal. lia.
    + rewrite IH. destruct (nth_error rest i); [|reflexivity].
      cbn [option_map]. do 3 f_equal. lia.
Qed.

Lemma sortedDesc_nth {A} (key : A -> Z) (l : list A) (i j : nat) (a b : A) :
  sortedDesc key l -> nth_error l i = Some a -> nth_error l j = Some b ->
  (i <= j)%nat -> (key b <= key a)%Z.
Proof.
  intros Hs. revert i j. induction Hs as [|x l Hs IH Hall]; intros i j Hi Hj Hij.
  - now destruct i.
  - destruct i as [|i], j as [|j]; cbn [nth_error] in Hi, Hj; try lia.
    + injection Hi as <-. injection Hj as <-. lia.
    + injection Hi as <-. apply nth_error_In in Hj.
      rewrite Forall_forall in Hall. now apply Hall.
    + apply (IH i j); [exact Hi|exact Hj|lia].
Qed.

Lemma tableRows_ranked (data : list ChartData) :
  sortedDesc value data ->
  map (fun row => (snd (fst row), snd row)) (tableRows data)
  = map (fun item => (label item, value item)) data
  /\ (forall i row, nth_error (tableRows data) i = Some row ->
        fst (fst row) = (Z.of_nat i + 1)%Z)
  /\ (forall r1 r2, In r1 (tableRows data) -> In r2 (tableRows data) ->
        (snd r1 < snd r2)%Z -> (fst (fst r2) < fst (fst r1))%Z).
Proof.
  intros Hs. unfold tableRows. split; [|split].
  - generalize 0%Z. induction data as [|item rest IH]; intros index;
      [reflexivity|].
    cbn [tableRowsFrom map fst snd]. f_equal.
    apply IH. now apply StronglySorted_inv in Hs.
  - intros i row H. rewrite tableRowsFrom_nth in H.
    destruct (nth_error data i); [|discriminate]. now injection H as <-.
  - intros r1 r2 H1 H2 Hlt.
    apply In_nth_error in H1 as [i Hi], H2 as [j Hj].
    rewrite tableRowsFrom_nth in Hi, Hj.
    destruct (nth_error data i) as [a|] eqn:Ea; [|discriminate].
    destruct (nth_error data j) as [b|] eqn:Eb; [|discriminate].
    injection Hi as <-. injection Hj as <-. cbn [fst snd] in *.
    destruct (Nat.le_gt_cases i j) as [Hij|Hij]; [|lia].
    pose proof (sortedDesc_nth value data i j a b Hs Ea Eb Hij). lia.
Qed.

(** For booth codes and model names that are no names objects inherit,
    the visits, staff and sales-by-model PDF tables follow the rankings on
    screen: one row per entry, in the same order with the same label and
    count, numbered from 1 without a gap; a row with a larger count always
    has a smaller position. *)
Theorem ranking_tables_are_numbered_by_rank
    (reports : list ReportSubmission) (companyInfoMap : Obj CompanyInfo)
    (staffList : list Staff) (filteredActivities : Obj (list StaffActivity))
    (sales : list DetailedSale) (dateFilter : jsstring) :
  let shown := filteredReports reports dateFilter in
  let sold := filteredDetailedSales sales dateFilter in
  let ranked data :=
    map (fun row => (snd (fst row), snd row)) (tableRows data)
    = map (fun item => (label item, value item)) data
    /\ (forall i row, nth_error (tableRows data) i = Some row ->
          fst (fst row) = (Z.of_nat i + 1)%Z)
    /\ (forall r1 r2, In r1 (tableRows data) -> In r2 (tableRows data) ->
          (snd r1 < snd r2)%Z -> (fst (fst r2) < fst (fst r1))%Z) in
  plainKeys (map r_boothCode shown) ->
  plainKeys (map modelName sold) ->
  exists visits byModel,
    visitsData shown companyInfoMap = Some visits
    /\ salesMapData sold = Some byModel
    /\ ranked visits
    /\ ranked (staffData staffList filteredActivities)
    /\ ranked byModel.
Proof.
  intros shown sold ranked Hb Hm. eexists. eexists.
  split; [now apply RankingFacts.visitsData_plain|].
  split; [now apply salesMapData_plain|].
  unfold ranked.
  split; [|split]; apply tableRows_ranked;
    apply (sort_desc byValueDesc value RankingFacts.byValueDesc_key).
Qed.

Lemma ranking_tables_of_the_samples :
  let shown := filteredReports Samples.reports [] in
  let sold := filteredDetailedSales [Samples.soldByAcme; Samples.orphanSale] [] in
  plainKeys (map r_boothCode shown)
  /\ plainKeys (map modelName sold)
  /\ exists visits,
       visitsData shown empty = Some visits
       /\ map (fun row => (snd (fst row), snd row)) (tableRows visits)
          = map (fun item => (label item, value item)) visits.
Proof.
  intros shown sold.
  assert (Hb : plainKeys (map r_boothCode shown)) by (repeat constructor).
  assert (Hm : plainKeys (map modelName sold)) by (repeat constructor).
  split; [exact Hb|]. split; [exact Hm|].
  destruct (ranking_tables_are_numbered_by_rank Samples.reports empty
              Samples.staffList empty
              [Samples.soldByAcme; Samples.orphanSale] [] Hb Hm)
    as (visits & byModel & Hv & _ & (H & _) & _).
  now exists visits.
Defined.

End RankingLaws.

(* ================================================================== *)
(** * More on the alert broadcast *)
(* ================================================================== *)

Module AlertLaws.
Import Js Spec MoreSpec AlertSpec JsFacts Async StaffFlow AlertReport.
Import AlertFacts.

(** ** The selection *)

Lemma set_has_app (s t : JsSet) (k : jsstring) :
  set_has (s ++ t) k = set_has s k || set_has t k.
Proof. apply existsb_app. Qed.

Lemma set_has_add (s : JsSet) (staffId k : jsstring) :
  set_has (set_add s staffId) k = set_has s k || str_eqb staffId k.
Proof.
  unfold set_add. destruct (set_has s staffId) eqn:E.
  - destruct (str_eqb staffId k) eqn:Ek; [|now rewrite orb_false_r].
    apply str_eqb_eq in Ek as <-. now rewrite E.
  - rewrite set_has_app. cbn. now rewrite orb_false_r, str_eqb_sym.
Qed.

Lemma set_has_delete (s : JsSet) (staffId k : jsstring) :
  set_has (set_delete s staffId) k = set_has s k && negb (str_eqb staffId k).
Proof.
  unfold set_delete, set_has. induction s as [|x s IH]; [reflexivity|].
  cbn [filter existsb]. destruct (str_eqb staffId x) eqn:Ex; cbn [negb].
  - rewrite IH. apply str_eqb_eq in Ex as <-.
    rewrite (str_eqb_sym k staffId).
    now destruct (str_eqb staffId k), (existsb (str_eqb k) s).
  - cbn [existsb]. rewrite IH.
    destruct (str_eqb k x) eqn:Ek; [|reflexivity].
    apply str_eqb_eq in Ek as ->. now rewrite Ex.
Qed.

Lemma handleStaffToggle_has (staffId k : jsstring) (form : StaffForm) :
  set_has (selectedStaffIds (handleStaffToggle staffId form)) k
  = (if str_eqb staffId k then negb (set_has (selectedStaffIds form) staffId)
     else set_has (selectedStaffIds form) k).
Proof.
  unfold handleStaffToggle, setSelectedStaffIdsWith.
  cbn [selectedStaffIds]. cbv beta zeta.
  destruct (set_has (selectedStaffIds form) staffId) eqn:E.
  - rewrite set_has_delete. destruct (str_eqb staffId k); cbn;
      [apply andb_false_r|apply andb_true_r].
  - rewrite set_has_add. destruct (str_eqb staffId k); cbn;
      [apply orb_true_r|apply orb_false_r].
Qed.

(** A click on a staff button flips the selection of that staff member
    and of no other, and leaves the rest of the form alone; a second
    click undoes the first. *)
Theorem toggle_flips_one_member
    (staffId k : jsstring) (form : StaffForm) :
  let once := handleStaffToggle staffId form in
  let twice := handleStaffToggle staffId once in
  set_has (selectedStaffIds once) k
  = (if str_eqb staffId k then negb (set_has (selectedStaffIds form) staffId)
     else set_has (selectedStaffIds form) k)
  /\ set_has (selectedStaffIds twice) k = set_has (selectedStaffIds form) k
  /\ (step once, selectedDepartment once, alertMessage once,
      isConfirmModalOpen once, isSubmitting once, submitStatus once)
     = (step form, selectedDepartment form, alertMessage form,
        isConfirmModalOpen form, isSubmitting form, submitStatus form).
Proof.
  intros once twice.
  split; [apply handleStaffToggle_has|]. split; [|reflexivity].
  unfold twice, once. rewrite !handleStaffToggle_has, str_eqb_refl.
  destruct (str_eqb staffId k) eqn:E.
  - apply str_eqb_eq in E as <-. apply negb_involutive.
  - reflexivity.
Qed.

(** ** What a reachable form holds *)

Lemma selectionInDepartment_same staffList (form form' : StaffForm) :
  selectedStaffIds form' = selectedStaffIds form ->
  selectedDepartment form' = selectedDepartment form ->
  selectionInDepartment staffList form ->
  selectionInDepartment staffList form'.
Proof.
  unfold selectionInDepartment. intros -> ->. auto.
Qed.

Lemma selectionInDepartment_empty staffList (form : StaffForm) :
  selectedStaffIds form = [] -> selectionInDepartment staffList form.
Proof.
  unfold selectionInDepartment. intros ->. discriminate.
Qed.

Lemma offered_in_department staffList (form : StaffForm) staffId :
  toggleOffered staffList form (StaffToggle staffId) = true ->
  exists d st,
    selectedDepartment form = Some d /\ In st staffList
    /\ s_id st = staffId /\ s_departmentId st = d_id d.
Proof.
  unfold toggleOffered, staffInSelectedDepartment.
  destruct (selectedDepartment form) as [d|]; [|discriminate].
  intros H. apply existsb_exists in H as [st [Hin Hid]].
  apply filter_In in Hin as [Hin Hd].
  apply str_eqb_eq in Hid, Hd. now exists d, st.
Qed.

Lemma staffDispatch_selectionInDepartment staffList e (form : StaffForm) :
  toggleOffered staffList form e = true ->
  selectionInDepartment staffList form ->
  selectionInDepartment staffList (staffDispatch e form).
Proof.
  intros Ho Hinv. unfold staffDispatch.
  destruct (staffEnabled e form); [|exact Hinv].
  destruct e as [d|sid| | |m| | | |st]; cbn [staffHandler];
    try (apply (selectionInDepartment_same staffList form); [| |exact Hinv];
         handler_cases; reflexivity).
  - now apply selectionInDepartment_empty.
  - intros k Hk.
    rewrite handleStaffToggle_has in Hk.
    destruct (str_eqb sid k) eqn:E.
    + apply str_eqb_eq in E as <-. now apply offered_in_department.
    + now apply Hinv.
Qed.

Lemma resetStaffForm_selection (form : StaffForm) :
  selectedStaffIds (resetStaffForm form) = [].
Proof. reflexivity. Qed.

Section Reachable.
Import EmitirAlerta.

Lemma dispatchOffered_selectionInDepartment staffList (e : Event) (s : State) :
  selectionInDepartment staffList (staffForm s) ->
  selectionInDepartment staffList (staffForm (dispatchOffered staffList e s)).
Proof.
  intros Hinv. unfold dispatchOffered.
  destruct e;
    try (unfold dispatch;
         match goal with |- context [enabled ?e s] => destruct (enabled e s) end;
         [|exact Hinv]; cbn;
         first [exact Hinv | now apply selectionInDepartment_empty]).
  destruct (toggleOffered staffList (staffForm s) e) eqn:Ho; [|exact Hinv].
  unfold dispatch. destruct (enabled (InStaffForm e) s) eqn:En; [|exact Hinv].
  cbn [enabled] in En. apply andb_true_iff in En as [_ En].
  cbn [handler staffForm onStaff].
  pose proof (staffDispatch_selectionInDepartment staffList e (staffForm s)
                Ho Hinv) as H.
  unfold staffDispatch in H. now rewrite En in H.
Qed.

Lemma staffOnlyDispatchOffered_selectionInDepartment staffList
    (e : EmitirAlertaStaffOnly.Event) (form : StaffForm) :
  selectionInDepartment staffList form ->
  selectionInDepartment staffList (staffOnlyDispatchOffered staffList e form).
Proof.
  intros Hinv. unfold staffOnlyDispatchOffered. destruct e as [e|].
  - destruct (toggleOffered staffList form e) eqn:Ho; [|exact Hinv].
    cbn. now apply staffDispatch_selectionInDepartment.
  - cbn. now apply selectionInDepartment_empty.
Qed.

(** Whatever the user does on the screens as they are drawn, every
    selected id is the id of a staff member of the selected department:
    the staff buttons are those of the department, and choosing a
    department clears the selection. Both versions keep this. *)
Theorem selection_stays_in_the_department
    (staffList : list Staff) (events : list Event)
    (events1 : list EmitirAlertaStaffOnly.Event) :
  selectionInDepartment staffList (staffForm (runOffered staffList events))
  /\ selectionInDepartment staffList (staffOnlyRunOffered staffList events1).
Proof.
  split.
  - unfold runOffered.
    apply (fold_left_invariant
             (fun s => selectionInDepartment staffList (staffForm s))).
    + now apply selectionInDepartment_empty.
    + intros s e. apply dispatchOffered_selectionInDepartment.
  - unfold staffOnlyRunOffered.
    apply (fold_left_invariant (selectionInDepartment staffList)).
    + now apply selectionInDepartment_empty.
    + intros s e. apply staffOnlyDispatchOffered_selectionInDepartment.
Qed.

Lemma staffDispatch_stepHasItsInputs e (form : StaffForm) :
  stepHasItsInputs form -> stepHasItsInputs (staffDispatch e form).
Proof.
  unfold stepHasItsInputs, staffDispatch. intros [Hd Hs].
  destruct (selectedDepartment form) as [d|] eqn:Ed.
  - destruct e; cbn; handler_cases; cbn; rewrite ?Ed;
      (split; [try discriminate; try lia; auto|]);
      try lia; try (intros; now apply Hs);
      try (intros _ E; unfold set_size in *;
           match goal with
           | H : selectedStaffIds _ = [] |- _ => rewrite H in *
           end; cbn in *; lia).
  - assert (Hstep : (step form < 2)%Z).
    { destruct (Z.ltb_spec (step form) 2); [assumption|].
      now destruct Hd. }
    destruct e; cbn; handler_cases; cbn; rewrite ?Ed;
      (split; [try discriminate; try lia|]); try lia.
Qed.

Lemma dispatch_stepHasItsInputs (e : Event) (s : State) :
  stepHasItsInputs (staffForm s) -> stepHasItsInputs (staffForm (dispatch e s)).
Proof.
  intros Hinv.
  assert (Hreset : forall f, stepHasItsInputs (resetStaffForm f)).
  { intros f. split; cbn; [lia|discriminate]. }
  unfold dispatch. destruct (enabled e s) eqn:En; [|exact Hinv].
  destruct e; cbn [handler staffForm onStaff setAlertType setView
                   handleBackToChoice onGroup];
    try exact Hinv; try apply Hreset.
  cbn [enabled] in En. apply andb_true_iff in En as [_ En].
  pose proof (staffDispatch_stepHasItsInputs e (staffForm s) Hinv) as H.
  unfold staffDispatch in H. now rewrite En in H.
Qed.

(** Steps 2 and 3 always have a selected department, and step 3 always
    has at least one selected staff member, in both versions: the message
    step cannot be on screen without what a send needs. *)
Theorem message_step_has_its_inputs
    (events : list Event) (events1 : list EmitirAlertaStaffOnly.Event) :
  stepHasItsInputs (staffForm (run events))
  /\ stepHasItsInputs (EmitirAlertaStaffOnly.run events1).
Proof.
  assert (Hinit : stepHasItsInputs initialStaffForm).
  { split; cbn; [lia|discriminate]. }
  split.
  - unfold run.
    apply (fold_left_invariant (fun s => stepHasItsInputs (staffForm s)));
      [exact Hinit|].
    intros s e. apply dispatch_stepHasItsInputs.
  - unfold EmitirAlertaStaffOnly.run.
    apply (fold_left_invariant stepHasItsInputs); [exact Hinit|].
    intros s [e|]; cbn [EmitirAlertaStaffOnly.dispatch].
    + apply staffDispatch_stepHasItsInputs.
    + intros _. split; cbn; [lia|discriminate].
Qed.

(** *** The number announced and the requests sent *)

Lemma set_has_In (ids : JsSet) (k : jsstring) :
  set_has ids k = true <-> In k ids.
Proof.
  unfold set_has. rewrite existsb_exists. split.
  - intros [x [Hin E]]. apply str_eqb_eq in E as ->. exact Hin.
  - intros Hin. exists k. split; [exact Hin|apply str_eqb_refl].
Qed.

Lemma set_add_NoDup (ids : JsSet) (k : jsstring) :
  NoDup ids -> NoDup (set_add ids k).
Proof.
  intros Hnd. unfold set_add. destruct (set_has ids k) eqn:E; [exact Hnd|].
  apply NoDup_app; [exact Hnd|repeat constructor; intros []|].
  intros x Hx [<-|[]]. apply set_has_In in Hx. congruence.
Qed.

Lemma set_delete_NoDup (ids : JsSet) (k : jsstring) :
  NoDup ids -> NoDup (set_delete ids k).
Proof. apply NoDup_filter. Qed.

Lemma staffDispatch_NoDup e (form : StaffForm) :
  NoDup (selectedStaffIds form) ->
  NoDup (selectedStaffIds (staffDispatch e form)).
Proof.
  intros Hnd. unfold staffDispatch.
  destruct (staffEnabled e form); [|exact Hnd].
  destruct e as [d|sid| | |m| | | |st]; cbn [staffHandler];
    try (handler_cases; exact Hnd).
  - constructor.
  - unfold handleStaffToggle, setSelectedStaffIdsWith.
    cbn [selectedStaffIds]. cbv beta zeta.
    destruct (set_has (selectedStaffIds form) sid);
      [now apply set_delete_NoDup|now apply set_add_NoDup].
Qed.

Lemma dispatchOffered_NoDup staffList (e : Event) (s : State) :
  NoDup (selectedStaffIds (staffForm s)) ->
  NoDup (selectedStaffIds (staffForm (dispatchOffered staffList e s))).
Proof.
  intros Hnd. unfold dispatchOffered.
  destruct e;
    try (unfold dispatch;
         match goal with |- context [enabled ?e s] => destruct (enabled e s) end;
         [|exact Hnd]; cbn; first [exact Hnd | constructor]).
  destruct (toggleOffered staffList (staffForm s) e); [|exact Hnd].
  unfold dispatch. destruct (enabled (InStaffForm e) s) eqn:En; [|exact Hnd].
  cbn [enabled] in En. apply andb_true_iff in En as [_ En].
  cbn [handler staffForm onStaff].
  pose proof (staffDispatch_NoDup e (staffForm s) Hnd) as H.
  unfold staffDispatch in H. now rewrite En in H.
Qed.

Lemma selectedStaffDetails_NoDup (ids : JsSet) (staffList : list Staff) :
  NoDup (map s_id staffList) ->
  NoDup (map s_id (selectedStaffDetails ids staffList)).
Proof.
  unfold selectedStaffDetails. intros Hnd.
  induction staffList as [|st rest IH]; cbn [map filter]; [constructor|].
  apply NoDup_cons_iff in Hnd as [Hst Hnd].
  destruct (set_has ids (s_id st)); [|now apply IH].
  cbn [map]. constructor; [|now apply IH].
  intros Hin. apply Hst. apply in_map_iff in Hin as [y [E Hy]].
  apply filter_In in Hy as [Hy _]. apply in_map_iff. now exists y.
Qed.

Lemma selected_are_as_many (staffList : list Staff) (form : StaffForm) :
  NoDup (map s_id staffList) -> NoDup (selectedStaffIds form) ->
  selectionInDepartment staffList form ->
  length (selectedStaffDetails (selectedStaffIds form) staffList)
  = length (selectedStaffIds form).
Proof.
  intros Hs Hi Hin. unfold selectedStaffDetails.
  rewrite <- (length_map s_id). apply Permutation_length.
  apply NoDup_Permutation;
    [now apply (selectedStaffDetails_NoDup _ staffList)|exact Hi|].
  intros k. split.
  - intros H. apply in_map_iff in H as [st [<- H]].
    apply filter_In in H as [_ H]. now apply set_has_In.
  - intros H. apply set_has_In in H.
    destruct (Hin k H) as [d [st [_ [Hst [<- _]]]]].
    apply in_map, filter_In. now split.
Qed.

Lemma filter_length_all {A} (p : A -> bool) (l : list A) :
  length (filter p l) = length l <-> forall x, In x l -> p x = true.
Proof.
  induction l as [|x l IH]; cbn [filter length]; [now split|].
  pose proof (filter_length_le p l) as Hle.
  destruct (p x) eqn:E; cbn [length].
  - split.
    + intros H y [<-|Hy]; [exact E|]. apply IH; [lia|exact Hy].
    + intros H. f_equal. apply IH. intros y Hy. apply H. now right.
  - split; [lia|]. intros H. specialize (H x (or_introl eq_refl)). congruence.
Qed.

Lemma handleConfirmAndSend_sent (eventId : jsstring) (user : option User)
    (staffList : list Staff) (s cur : State) (net : Network)
    (w : World State) :
  sent (finalWorld (handleConfirmAndSend eventId user staffList s net cur w))
  = sent w ++ map (staffRequest (alertMessage (staffForm s)))
                  (targetsOf (staffForm s) staffList).
Proof.
  rewrite handleConfirmAndSend_run.
  destruct (targetsOf (staffForm s) staffList) as [|t ts].
  - cbn. now rewrite app_nil_r.
  - destruct (delivered net _ _); [|reflexivity].
    destruct user as [u|]; [|reflexivity].
    destruct (selectedDepartment (staffForm s)) as [d|]; [|reflexivity].
    now destruct (accepts net _).
Qed.

(** The message step announces the size of the selection, the send makes
    one request per selected staff member with a phone number. With staff
    ids that are all different, and a selection made on the screens as they
    are drawn, the requests are never more than the number announced, and
    they are as many exactly when every selected staff member has a phone
    number. *)
Theorem announced_count_bounds_the_requests
    (eventId : jsstring) (user : option User) (staffList : list Staff)
    (events : list Event) (cur : State) (net : Network) (w : World State) :
  NoDup (map s_id staffList) ->
  let s := runOffered staffList events in
  let final := handleConfirmAndSend eventId user staffList s net cur w in
  let announced := set_size (selectedStaffIds (staffForm s)) in
  let requested :=
    (Z.of_nat (length (sent (finalWorld final)))
     - Z.of_nat (length (sent w)))%Z in
  (requested <= announced)%Z
  /\ (requested = announced
      <-> forall st, In st staffList ->
            set_has (selectedStaffIds (staffForm s)) (s_id st) = true ->
            truthy_opt (s_phone st) = true).
Proof.
  intros Hs s final announced requested.
  assert (Hin : selectionInDepartment staffList (staffForm s)).
  { unfold s, runOffered.
    apply (fold_left_invariant
             (fun s => selectionInDepartment staffList (staffForm s)));
      [now apply selectionInDepartment_empty|].
    intros s0 e. apply dispatchOffered_selectionInDepartment. }
  assert (Hi : NoDup (selectedStaffIds (staffForm s))).
  { unfold s, runOffered.
    apply (fold_left_invariant
             (fun s => NoDup (selectedStaffIds (staffForm s))));
      [constructor|].
    intros s0 e. apply dispatchOffered_NoDup. }
  pose proof (selected_are_as_many staffList (staffForm s) Hs Hi Hin) as Hlen.
  unfold requested, announced, final, set_size.
  rewrite handleConfirmAndSend_sent, length_app, length_map.
  unfold targetsOf. rewrite <- Hlen.
  set (details := selectedStaffDetails (selectedStaffIds (staffForm s))
                                       staffList).
  pose proof (filter_length_le (fun st => truthy_opt (s_phone st)) details)
    as Hle.
  split; [lia|].
  pose proof (filter_length_all (fun st => truthy_opt (s_phone st)) details)
    as Hall.
  split.
  - intros H st Hst Hsel. apply Hall; [lia|].
    unfold details, selectedStaffDetails. apply filter_In. now split.
  - intros H.
    assert (Hl : length (filter (fun st => truthy_opt (s_phone st)) details)
                 = length details).
    { apply Hall. intros st Hst. unfold details, selectedStaffDetails in Hst.
      apply filter_In in Hst as [Hst Hsel]. now apply H. }
    lia.
Qed.

(** Ana and Bruno are selected and Bruno has no phone number: two are
    announced, one request is sent. *)
Lemma announced_two_requested_one :
  let final :=
    handleConfirmAndSend (lit "e1") (Some AlertSamples.admin)
      Samples.staffList (runOffered Samples.staffList AlertSamples.walk)
      AlertSamples.fine initialState initialWorld in
  NoDup (map s_id Samples.staffList)
  /\ (Z.of_nat (length (sent (finalWorld final))) - 0 <= 2)%Z.
Proof.
  assert (Hnd : NoDup (map s_id Samples.staffList)).
  { repeat constructor; cbn; intuition discriminate. }
  split; [exact Hnd|].
  exact (proj1 (announced_count_bounds_the_requests (lit "e1")
                  (Some AlertSamples.admin) Samples.staffList
                  AlertSamples.walk initialState AlertSamples.fine
                  initialWorld Hnd)).
Defined.

End Reachable.

(** ** What a send leaves behind *)

Section Outcomes.
Import EmitirAlerta.

(** A staff send touches nothing of what the user composed: step,
    department, selection, message and the open confirmation stay as they
    are, and so do the group form, the alert type and the view. The return
    to the choice screen is scheduled, three seconds ahead, exactly when the
    send ends in success; a failed send schedules nothing, so the form stays
    for another try. When the scheduled return fires right after the send,
    the component is as it was first rendered, on the view it is on. *)
Theorem staff_send_keeps_the_form
    (eventId : jsstring) (user : option User) (staffList : list Staff)
    (s cur : State) (net : Network) (w : World State) :
  let final := handleConfirmAndSend eventId user staffList s net cur w in
  let form' := staffForm (finalState final) in
  let reset := fun s => handleBackToChoice (onStaff resetStaffForm s) in
  (step form', selectedDepartment form', selectedStaffIds form',
   alertMessage form', isConfirmModalOpen form')
  = (step (staffForm cur), selectedDepartment (staffForm cur),
     selectedStaffIds (staffForm cur), alertMessage (staffForm cur),
     isConfirmModalOpen (staffForm cur))
  /\ (groupForm (finalState final), alertType (finalState final),
      view (finalState final))
     = (groupForm cur, alertType cur, view cur)
  /\ outcome final = Fulfilled tt
  /\ timers (finalWorld final)
     = match submitStatus form' with
       | success => timers w ++ [(3000%Z, reset)]
       | _ => timers w
       end
  /\ reset (finalState final) = setView (view cur) initialState.
Proof.
  intros final form' reset. unfold form', final.
  rewrite handleConfirmAndSend_run.
  destruct (targetsOf (staffForm s) staffList) as [|t ts];
    [now repeat split|].
  destruct (delivered net _ _); [|now repeat split].
  destruct user as [u|]; [|now repeat split].
  destruct (selectedDepartment (staffForm s)) as [d|]; [|now repeat split].
  destruct (accepts net _); now repeat split.
Qed.

(** A group send issues exactly one POST, with the composed message, to
    the group webhook. It ends in success when the response is ok and the
    log entry, made when a user is signed in, is accepted, and in error
    otherwise; the entry is persisted only on success. Nothing of the staff
    form, of the group message or of the screen changes, and the return to
    the choice screen is scheduled only on success; when it fires right
    after the send, it blanks both forms and shows the choice. *)
Theorem group_send_outcome
    (eventId : jsstring) (user : option User)
    (s cur : State) (net : Network) (w : World State) :
  let request :=
    {| url := lit "https://webhook.triad3.io/webhook/aca7d18d-8c37-49ae-92a4-03285bc6729a";
       method := lit "POST";
       headers := [(lit "Content-Type", lit "application/json")];
       body := GroupPayload (groupAlertMessage (groupForm s)) |} in
  let answered :=
    match respond net (length (sent w)) request with
    | Some response => ok response
    | None => false
    end in
  let logged :=
    match user with
    | Some u =>
        accepts net (groupEntry eventId u (groupAlertMessage (groupForm s)))
    | None => true
    end in
  let final := handleGroupAlertSend eventId user s net cur w in
  let form' := groupForm (finalState final) in
  let reset := fun s => handleBackToChoice (onGroup resetGroupForm s) in
  sent (finalWorld final) = sent w ++ [request]
  /\ groupSubmitStatus form' = (if answered && logged then success else error)
  /\ isSubmittingGroup form' = false
  /\ alertLogs (finalWorld final)
     = match user with
       | Some u =>
           if answered && logged
           then alertLogs w
                ++ [groupEntry eventId u (groupAlertMessage (groupForm s))]
           else alertLogs w
       | None => alertLogs w
       end
  /\ timers (finalWorld final)
     = (if answered && logged then timers w ++ [(3000%Z, reset)]
        else timers w)
  /\ (groupAlertMessage form', isGroupConfirmModalOpen form',
      staffForm (finalState final), alertType (finalState final),
      view (finalState final))
     = (groupAlertMessage (groupForm cur),
        isGroupConfirmModalOpen (groupForm cur),
        staffForm cur, alertType cur, view cur)
  /\ reset (finalState final)
     = setView (view cur)
         (onStaff (fun _ => resetStaffForm (staffForm cur)) initialState).
Proof.
  intros request answered logged final form' reset.
  unfold form', final. rewrite handleGroupAlertSend_run.
  change (delivered net (length (sent w)) _) with
    (match respond net (length (sent w)) request with
     | Some res => ok res && true
     | None => false
     end).
  unfold answered, logged.
  destruct (respond net (length (sent w)) request) as [res|];
    [|destruct user; repeat split; discriminate].
  rewrite andb_true_r. destruct (ok res);
    [|destruct user; repeat split; discriminate].
  destruct user as [u|]; [|now repeat split].
  cbn [andb]. destruct (accepts net _); repeat split; discriminate.
Qed.

(** In the first version a send never writes an alert log. It ends in
    success exactly when some selected staff member has a phone number and
    every request gets a response that is ok; the reset of the form is
    scheduled only then, and the composed form is left as it is. *)
Theorem first_version_send_outcome
    (staffList : list Staff) (s cur : StaffForm) (net : Network)
    (w : World StaffForm) :
  let targets := targetsOf s staffList in
  let requests := map (staffRequest (alertMessage s)) targets in
  let sentOk :=
    negb (length targets =? 0)%nat
    && delivered net (length (sent w)) requests in
  let final :=
    EmitirAlertaStaffOnly.handleConfirmAndSend staffList s net cur w in
  let form' := finalState final in
  alertLogs (finalWorld final) = alertLogs w
  /\ submitStatus form' = (if sentOk then success else error)
  /\ isSubmitting form' = false
  /\ timers (finalWorld final)
     = (if sentOk then timers w ++ [(3000%Z, resetStaffForm)] else timers w)
  /\ (step form', selectedDepartment form', selectedStaffIds form',
      alertMessage form', isConfirmModalOpen form')
     = (step cur, selectedDepartment cur, selectedStaffIds cur,
        alertMessage cur, isConfirmModalOpen cur)
  /\ resetStaffForm form' = initialStaffForm.
Proof.
  intros targets requests sentOk final form'.
  unfold form', final, sentOk. rewrite staffOnly_handleConfirmAndSend_run.
  fold targets. fold requests.
  destruct targets as [|t ts]; [now repeat split|].
  cbn [length Nat.eqb negb andb].
  destruct (delivered net _ _); now repeat split.
Qed.

End Outcomes.

(** ** The report of the alerts sent *)

Lemma fold_left_flat_map {A B C} (f : A -> C -> A) (g : B -> list C)
    (l : list B) (a : A) :
  fold_left (fun a x => fold_left f (g x) a) l a
  = fold_left f (flat_map g l) a.
Proof.
  revert a. induction l as [|x l IH]; intros a; [reflexivity|].
  cbn [fold_left flat_map]. now rewrite fold_left_app, IH.
Qed.

Lemma staffAlertCounts_tally (logs : list AlertLog) :
  plainKeys (map staffName (allRecipients logs)) ->
  staffAlertCounts logs
  = asCounts (tally recipientName (allRecipients logs) empty).
Proof.
  intros Hp. unfold staffAlertCounts, allRecipients.
  rewrite (fold_left_flat_map
             (fun counts recipient => countUp counts (staffName recipient))
             l_recipients).
  apply (tally_asCounts recipientName (flat_map l_recipients logs) empty).
  apply (RankingFacts.keysOf_sub recipientName staffName); [|exact Hp].
  now intros r k [= <-].
Qed.

(** For recipient names that are no names objects inherit, the summary of
    the alerts report counts every recipient of every log once: it has one
    row per recipient name, with the number of times the name was
    addressed, in descending order of that number; the numbers add up to
    the number of recipients of all the logs, and the summary is left out
    exactly when no log has a recipient. The first table has one row per
    log. *)
Theorem alerts_report_counts_every_recipient
    (toLocaleString : jsstring -> jsstring) (logs : list AlertLog) :
  let everyone := allRecipients logs in
  plainKeys (map staffName everyone) ->
  exists rows,
    summaryRows logs = Some rows
    /\ sortedDesc snd rows
    /\ Permutation rows
         (map (fun name => (name, occurrences recipientName name everyone))
              (distinctKeys recipientName everyone))
    /\ total snd rows = Z.of_nat (length everyone)
    /\ (hasSummary logs = false <-> everyone = [])
    /\ length (logRows toLocaleString logs) = length logs.
Proof.
  intros everyone Hp. eexists. split.
  { unfold summaryRows. rewrite (staffAlertCounts_tally logs Hp).
    now rewrite numbers_entries_asCounts. }
  cbn [option_map]. fold everyone.
  assert (Hperm : Permutation
            (sort (fun a b : jsstring * Z => (snd b - snd a)%Z)
                  (entries (tally recipientName everyone empty)))
            (tally recipientName everyone empty)).
  { rewrite sort_perm. apply entries_perm. }
  split; [|split; [|split; [|split]]].
  - apply (sort_desc _ snd). reflexivity.
  - rewrite sort_perm. apply tally_entries.
  - rewrite (total_perm snd _ _ Hperm).
    rewrite RankingLaws.tally_total_all, RankingLaws.filter_all by reflexivity.
    reflexivity.
  - unfold hasSummary. rewrite (staffAlertCounts_tally logs Hp).
    fold everyone. rewrite entries_asCounts. unfold asCounts.
    rewrite length_map, (Permutation_length (entries_perm _)).
    destruct everyone as [|r rest] eqn:E.
    + now split.
    + split; [|discriminate]. intros H. exfalso.
      apply Nat.ltb_ge in H.
      assert (Hin : In (staffName r)
                       (keysOf recipientName (r :: rest))) by now left.
      apply In_keysOf in Hin.
      pose proof (tally_get recipientName (r :: rest) (staffName r)) as Hg.
      destruct (Z.eqb_spec (occurrences recipientName (staffName r) (r :: rest)) 0);
        [lia|].
      apply get_In in Hg.
      destruct (tally recipientName (r :: rest) empty); [destruct Hg|].
      cbn [length] in H. lia.
  - unfold logRows. apply length_map.
Qed.

Lemma alerts_report_of_two_logs :
  plainKeys (map staffName (allRecipients AlertSamples.logs))
  /\ summaryRows AlertSamples.logs
     = Some [(lit "Ana", 2%Z); (lit "Bruno", 1%Z)]
  /\ hasSummary AlertSamples.logs = true.
Proof.
  assert (Hp : plainKeys (map staffName (allRecipients AlertSamples.logs)))
    by (repeat constructor).
  split; [exact Hp|].
  destruct (alerts_report_counts_every_recipient (fun t => t)
              AlertSamples.logs Hp) as (rows & Hrows & _).
  split; reflexivity.
Defined.

(** An alert to a recipient called [toString] leaves a count that is no
    number, and one to a recipient called [__proto__] leaves no count at
    all, so that the summary is left out. *)
Example alerts_report_of_inherited_names :
  staffAlertCounts (AlertSamples.logsTo ["toString"; "Ana"]%string)
  = [(lit "toString", Text); (lit "Ana", Number 1)]
  /\ summaryRows (AlertSamples.logsTo ["toString"; "Ana"]%string) = None
  /\ hasSummary (AlertSamples.logsTo ["__proto__"]%string) = false.
Proof. repeat split. Qed.

End AlertLaws.
